(** * Operator-instance construction of [nvidia.dali.ops]

    A shallow embedding of [dali/python/nvidia/dali/ops/__init__.py]:
    the keyword classifier [_separate_kwargs], the node builder
    [_OperatorInstance], the descriptor factory [Operator.__init__], the
    multiple-input-set expander and the output repacking of
    [Operator.__call__], and the input preprocessing [_preprocess_inputs].

    Python objects that have identity (DataNode, _OperatorInstance) live in
    an explicit heap; a reference is the position of the object in its
    heap.  Exceptions are values of [exn]; a computation is a function from
    the state to a result-or-exception and the state it leaves behind. *)

From Stdlib Require Import ZArith String Ascii DecimalString.
From stdpp Require Import base option list sets strings.

Local Open Scope string_scope.
Local Open Scope list_scope.
Local Set Warnings "-register-all,-clear-no-such-hyp".

(** ** Python values *)

(** Python [bool], [int] and [float] objects. *)
Inductive scalar : Type :=
| SBool (b : bool)
| SInt (z : Z)
| SFloat (mantissa exponent : Z).

Abbreviation DALIDataType := nat (only parsing).

(** [nvidia.dali.types.ScalarConstant]: a scalar and its element type. *)
Record ScalarConstant : Type := mkScalarConstant {
  sc_value : scalar;
  sc_dtype : DALIDataType
}.

(** A reference to a [DataNode] object, and a reference to an
    [_OperatorInstance] object: positions in the heaps. *)
Abbreviation handle := nat (only parsing).
Abbreviation addr := nat (only parsing).

Inductive pyval : Type :=
| PNone
| PData (h : handle)
| PConst (c : ScalarConstant)
| PStr (s : string)
| PList (l : list pyval)
| PTuple (l : list pyval)
| PScalar (v : scalar)
| PObject (type_name : string) (tag : nat).

Definition is_None (v : pyval) : bool :=
  match v with PNone => true | _ => false end.
Definition is_DataNode (v : pyval) : bool :=
  match v with PData _ => true | _ => false end.
Definition is_ScalarConstant (v : pyval) : bool :=
  match v with PConst _ => true | _ => false end.
Definition is_list (v : pyval) : bool :=
  match v with PList _ => true | _ => false end.

(** [type(v).__name__] *)
Definition type_name (v : pyval) : string :=
  match v with
  | PNone => "NoneType"
  | PData _ => "DataNode"
  | PConst _ => "ScalarConstant"
  | PStr _ => "str"
  | PList _ => "list"
  | PTuple _ => "tuple"
  | PScalar (SBool _) => "bool"
  | PScalar (SInt _) => "int"
  | PScalar (SFloat _ _) => "float"
  | PObject n _ => n
  end.

(** Truth value of an object, as [or] and [if] test it. *)
Definition truthy (v : pyval) : bool :=
  match v with
  | PNone => false
  | PStr s => negb (s =? "")
  | PList l | PTuple l => negb (Nat.eqb (length l) 0)
  | PScalar (SBool b) => b
  | PScalar (SInt z) => negb (Z.eqb z 0)
  | PScalar (SFloat m _) => negb (Z.eqb m 0)
  | _ => true
  end.

(** [str(n)] for a non-negative integer. *)
Definition str_nat (n : nat) : string :=
  NilEmpty.string_of_uint (Nat.to_uint n).

(** ** Dictionaries

    A [dict] keeps its keys in insertion order; assignment to a key that
    is present replaces the value in place. *)

Abbreviation dict V := (list (string * V)) (only parsing).

Definition dict_keys {V} (d : dict V) : list string := map fst d.

Fixpoint dict_get {V} (d : dict V) (k : string) : option V :=
  match d with
  | [] => None
  | (k', v) :: d' => if k' =? k then Some v else dict_get d' k
  end.

Definition dict_mem {V} (k : string) (d : dict V) : bool :=
  match dict_get d k with Some _ => true | None => false end.

Fixpoint dict_set {V} (d : dict V) (k : string) (v : V) : dict V :=
  match d with
  | [] => [(k, v)]
  | (k', v') :: d' =>
      if k' =? k then (k', v) :: d' else (k', v') :: dict_set d' k v
  end.

Fixpoint dict_del {V} (d : dict V) (k : string) : dict V :=
  match d with
  | [] => []
  | (k', v') :: d' => if k' =? k then d' else (k', v') :: dict_del d' k
  end.

Abbreviation kwargs_t := (list (string * pyval)) (only parsing).

(** ** Exceptions *)

(** Modelled from the spec: [PipelineRequired] is the error of
    [Pipeline._raise_pipeline_required], which is missing; the spec calls
    it [GraphRequired] and keeps it apart from validation errors. *)
Inductive exn : Type :=
| ValueError (msg : string)
| TypeError (msg : string)
| KeyError (key : string)
| IndexError (msg : string)
| AttributeError (msg : string)
| RuntimeError (msg : string)
| PipelineRequired (who : string).

(** ** The backend's OpSpec and schema *)

Inductive argval : Type :=
| ArgValue (v : pyval)
| ArgEmptyList (element_type : DALIDataType).

(** Modelled from the spec: the backend [OpSpec] is missing; the spec
    describes it as an append-only record of resolved arguments and of
    ordered input, argument-input and output names with devices. *)
Record OpSpec : Type := mkOpSpec {
  spec_schema : string;
  spec_args : list (string * argval);
  spec_inputs : list (string * string);
  spec_arg_inputs : list (string * string);
  spec_outputs : list (string * string)
}.

(** The calls that write to an [OpSpec], and what each records when the
    backend accepts it. *)
Inductive spec_call : Type :=
| CallAddArg (key : string) (v : pyval)
| CallAddArgEmptyList (key : string) (element_type : DALIDataType)
| CallAddInput (name device : string)
| CallAddArgumentInput (arg_name inp_name : string)
| CallAddOutput (name device : string).

Definition record_call (spec : OpSpec) (c : spec_call) : OpSpec :=
  match c with
  | CallAddArg key v =>
      mkOpSpec (spec_schema spec) (spec_args spec ++ [(key, ArgValue v)])
               (spec_inputs spec) (spec_arg_inputs spec) (spec_outputs spec)
  | CallAddArgEmptyList key t =>
      mkOpSpec (spec_schema spec) (spec_args spec ++ [(key, ArgEmptyList t)])
               (spec_inputs spec) (spec_arg_inputs spec) (spec_outputs spec)
  | CallAddInput name device =>
      mkOpSpec (spec_schema spec) (spec_args spec)
               (spec_inputs spec ++ [(name, device)]) (spec_arg_inputs spec)
               (spec_outputs spec)
  | CallAddArgumentInput arg_name inp_name =>
      mkOpSpec (spec_schema spec) (spec_args spec)
               (spec_inputs spec) (spec_arg_inputs spec ++ [(arg_name, inp_name)])
               (spec_outputs spec)
  | CallAddOutput name device =>
      mkOpSpec (spec_schema spec) (spec_args spec)
               (spec_inputs spec) (spec_arg_inputs spec)
               (spec_outputs spec ++ [(name, device)])
  end.

Record DeprecatedMeta : Type := mkMeta {
  renamed_to : string;
  removed : bool;
  msg : string
}.

(** The schema provider, consulted through these methods only. *)
Record Schema : Type := mkSchema {
  MinNumInput : Z;
  MaxNumInput : Z;
  GetArgumentType : string -> exn + DALIDataType;
  IsTensorArgument : string -> bool;
  GetInputDevice : nat -> option string;
  CalculateOutputs : OpSpec -> nat;
  CalculateAdditionalOutputs : OpSpec -> nat;
  IsNoPrune : bool;
  IsDeprecated : bool;
  DeprecatedInFavorOf : string;
  DeprecationMessage : string;
  IsDeprecatedArg : string -> bool;
  DeprecatedArgMeta : string -> DeprecatedMeta
}.

(** What the module uses of [nvidia.dali.types], [nvidia.dali.data_node]
    and [nvidia.dali.ops._names], which are missing.  Nothing is assumed
    of them: a conversion may raise, [constant_supported] tells whether
    [Constant] can represent a value, and [_iadd] is [v += s] for a value
    [v] whose class is missing (a data node, a scalar-constant wrapper or a
    foreign object). *)
Class TypesModule : Type := {
  _is_scalar_value : pyval -> bool;
  _type_convert_value : DALIDataType -> pyval -> exn + pyval;
  _vector_element_type : DALIDataType -> exn + DALIDataType;
  _type_name_convert_to_string : DALIDataType -> string;
  _op_name : string -> string -> string;
  constant_supported : pyval -> bool;
  _iadd : pyval -> string -> exn + pyval
}.

(** The backend behind [OpSpec], which is missing: a call that writes to
    a spec is accepted or raises, as [spec_rejects] decides from the spec
    and the call.  Nothing is assumed of that decision. *)
Class Backend : Type := {
  spec_rejects : OpSpec -> spec_call -> option exn
}.

(** The conditional-execution hook of [nvidia.dali._conditionals].
    Modelled from the spec: the hook is missing; the spec has it as a
    synchronous, side-effect-free rewrite of the inputs and keyword
    arguments.  [None] stands for [conditionals_enabled() == False]. *)
Record Hook : Type := mkHook {
  apply_conditional_split_to_args : list pyval -> kwargs_t -> list pyval * kwargs_t
}.

(** ** Objects and the state *)

(** An operator object, as [Operator.__init__] leaves it. *)
Record Operator : Type := mkOperator {
  op_name : string;
  op_schema : Schema;
  op_spec : OpSpec;
  op_device : string;
  op_call_args : kwargs_t;
  op_preserve : bool
}.

Record DataNode : Type := mkDataNode {
  dn_name : string;
  dn_device : string;
  dn_source : addr
}.

Record OperatorInstance : Type := mkInstance {
  oi_counter : nat;
  oi_outputs : list handle;
  oi_op : Operator;
  oi_spec : OpSpec;
  oi_relation_id : nat;
  oi_inputs : list pyval;
  oi_name : pyval
}.

(** [op_count] is the next value of [_OpCounter._op_count]; [instances] and
    [datanodes] are the heaps, in creation order; [pipeline] is
    [Pipeline.current()] with its sink list; [warnings] collects what
    [warnings.warn] was given. *)
Record state : Type := mkState {
  op_count : nat;
  instances : list OperatorInstance;
  datanodes : list DataNode;
  pipeline : option (list handle);
  warnings : list string
}.

(** ** Computations *)

Definition M (A : Type) : Type := state -> (exn + A) * state.

Definition ret {A} (x : A) : M A := fun s => (inr x, s).
Definition raise {A} (e : exn) : M A := fun s => (inl e, s).
Definition bind {A B} (m : M A) (f : A -> M B) : M B :=
  fun s => match m s with
           | (inl e, s') => (inl e, s')
           | (inr x, s') => f x s'
           end.
Definition lift {A} (r : exn + A) : M A :=
  match r with inl e => raise e | inr x => ret x end.

Notation "x <- m ;; k" := (bind m (fun x => k))
  (at level 100, m at next level, right associativity).
Notation "m ;;; k" := (bind m (fun _ => k))
  (at level 100, right associativity).

(** [try: m except Exception as ex: raise e from ex] *)
Definition try_except {A} (m : M A) (e : exn) : M A :=
  fun s => match m s with
           | (inl _, s') => (inl e, s')
           | r => r
           end.

(** [_OpCounter()]: takes the next value of the shared counter. *)
Definition OpCounter_new : M nat :=
  fun s => (inr (op_count s),
            mkState (S (op_count s)) (instances s) (datanodes s) (pipeline s) (warnings s)).

(** Allocation of an [_OperatorInstance] object. *)
Definition alloc_instance (i : OperatorInstance) : M addr :=
  fun s => (inr (length (instances s)),
            mkState (op_count s) (instances s ++ [i]) (datanodes s) (pipeline s) (warnings s)).

(** Reading an object through its reference.  A reference outside the
    heap cannot arise in Python; there the model reads a blank object and
    an update changes nothing. *)
Definition null_schema : Schema :=
  mkSchema 0 0 (fun _ => inr 0) (fun _ => false) (fun _ => None)
           (fun _ => 0) (fun _ => 0) false false "" ""
           (fun _ => false) (fun _ => mkMeta "" false "").
Definition null_spec : OpSpec := mkOpSpec "" [] [] [] [].
Definition null_instance : OperatorInstance :=
  mkInstance 0 [] (mkOperator "" null_schema null_spec "" [] false) null_spec 0 [] PNone.

Definition lookup_instance (s : state) (a : addr) : OperatorInstance :=
  default null_instance (instances s !! a).
Definition lookup_datanode (s : state) (h : handle) : DataNode :=
  default (mkDataNode "" "" 0) (datanodes s !! h).

Definition get_instance (a : addr) : M OperatorInstance :=
  fun s => (inr (lookup_instance s a), s).

Definition update_instance (a : addr) (f : OperatorInstance -> OperatorInstance) : M unit :=
  fun s => (inr tt, mkState (op_count s) (alter f a (instances s))
                            (datanodes s) (pipeline s) (warnings s)).

(** [_DataNode(name, device, source)] *)
Definition new_DataNode (name device : string) (source : addr) : M handle :=
  fun s => (inr (length (datanodes s)),
            mkState (op_count s) (instances s)
                    (datanodes s ++ [mkDataNode name device source])
                    (pipeline s) (warnings s)).

Definition get_datanode (h : handle) : M DataNode :=
  fun s => (inr (lookup_datanode s h), s).

(** [warnings.warn(msg, DeprecationWarning)] *)
Definition warn (m : string) : M unit :=
  fun s => (inr tt, mkState (op_count s) (instances s) (datanodes s) (pipeline s)
                            (warnings s ++ [m])).

(** [Pipeline.current()]: whether a pipeline is active. *)
Definition Pipeline_current : M bool :=
  fun s => (inr (match pipeline s with Some _ => true | None => false end), s).

(** [pipeline.add_sink(t)] *)
Definition add_sink (t : handle) : M unit :=
  fun s => match pipeline s with
           | Some sinks => (inr tt, mkState (op_count s) (instances s) (datanodes s)
                                            (Some (sinks ++ [t])) (warnings s))
           | None => (inl (RuntimeError "NoneType has no attribute add_sink"), s)
           end.

(** Setters of [_OperatorInstance]. *)
Definition set_relation_id (v : nat) (i : OperatorInstance) : OperatorInstance :=
  mkInstance (oi_counter i) (oi_outputs i) (oi_op i) (oi_spec i) v (oi_inputs i) (oi_name i).
Definition set_spec (sp : OpSpec) (i : OperatorInstance) : OperatorInstance :=
  mkInstance (oi_counter i) (oi_outputs i) (oi_op i) sp (oi_relation_id i) (oi_inputs i) (oi_name i).
Definition set_inputs (ins : list pyval) (i : OperatorInstance) : OperatorInstance :=
  mkInstance (oi_counter i) (oi_outputs i) (oi_op i) (oi_spec i) (oi_relation_id i) ins (oi_name i).
Definition set_name (n : pyval) (i : OperatorInstance) : OperatorInstance :=
  mkInstance (oi_counter i) (oi_outputs i) (oi_op i) (oi_spec i) (oi_relation_id i) (oi_inputs i) n.
Definition push_output (t : handle) (i : OperatorInstance) : OperatorInstance :=
  mkInstance (oi_counter i) (oi_outputs i ++ [t]) (oi_op i) (oi_spec i) (oi_relation_id i)
             (oi_inputs i) (oi_name i).

(** [append_output] *)
Definition append_output (a : addr) (t : handle) : M unit :=
  update_instance a (push_output t).

(** [str(v)], abbreviated to the type name for containers, floats and
    objects. *)
Definition py_str (v : pyval) : string :=
  match v with
  | PNone => "None"
  | PStr s => s
  | PScalar (SBool true) => "True"
  | PScalar (SBool false) => "False"
  | PScalar (SInt z) => NilEmpty.string_of_int (Z.to_int z)
  | _ => "<" +:+ type_name v +:+ ">"
  end.

(** [sorted(keys)] on strings. *)
Fixpoint insert_sorted (k : string) (l : list string) : list string :=
  match l with
  | [] => [k]
  | x :: r => if String.leb k x then k :: l else x :: insert_sorted k r
  end.
Definition sorted (l : list string) : list string := foldr insert_sorted [] l.

(** [v += suffix] for the value [v] of a name.  A string is concatenated;
    a list is extended by the characters of the suffix; [None], numbers
    and tuples raise the TypeError of the operator; for the rest see
    [_iadd]. *)
Definition iadd_str `{TypesModule} (v : pyval) (suffix : string) : exn + pyval :=
  match v with
  | PStr n => inr (PStr (n +:+ suffix))
  | PList l =>
      inr (PList (l ++ map (fun c => PStr (String c "")) (list_ascii_of_string suffix)))
  | PTuple _ =>
      inl (TypeError ("can only concatenate tuple (not " +:+ String "034" "str"
                      +:+ String "034" ") to tuple"))
  | PData _ | PConst _ | PObject _ _ => _iadd v suffix
  | _ => inl (TypeError ("unsupported operand type(s) for +=: '" +:+ type_name v
                         +:+ "' and 'str'"))
  end.

Section Ops.
Context `{types : TypesModule} `{backend : Backend}.

(** ** Writing to an [OpSpec] *)

Definition backend_call (spec : OpSpec) (c : spec_call) : exn + OpSpec :=
  match spec_rejects spec c with
  | Some e => inl e
  | None => inr (record_call spec c)
  end.

Definition AddArg (spec : OpSpec) (key : string) (v : pyval) : exn + OpSpec :=
  backend_call spec (CallAddArg key v).
Definition AddArgEmptyList (spec : OpSpec) (key : string) (t : DALIDataType)
    : exn + OpSpec :=
  backend_call spec (CallAddArgEmptyList key t).
Definition AddInput (spec : OpSpec) (name device : string) : exn + OpSpec :=
  backend_call spec (CallAddInput name device).
Definition AddArgumentInput (spec : OpSpec) (arg_name inp_name : string) : exn + OpSpec :=
  backend_call spec (CallAddArgumentInput arg_name inp_name).
Definition AddOutput (spec : OpSpec) (name device : string) : exn + OpSpec :=
  backend_call spec (CallAddOutput name device).

(** ** [_separate_kwargs] *)

Definition is_arg_input_type (x : pyval) : bool := is_DataNode x.

Definition is_call_arg (name : string) (value : pyval) : bool :=
  if name =? "device" then false
  else if name =? "ndim" then false
  else if (name =? "name") || is_arg_input_type value then true
  else match value with
       | PStr _ | PList _ | PTuple _ | PConst _ => false
       | _ => negb (_is_scalar_value value)
       end.

Definition to_scalar (v : pyval) : pyval :=
  match v with
  | PConst c => PScalar (sc_value c)
  | _ => v
  end.

Fixpoint separate_loop (items : list (string * pyval))
    (init_args call_args : kwargs_t) : kwargs_t * kwargs_t :=
  match items with
  | [] => (init_args, call_args)
  | (name, value) :: rest =>
      if is_None value then separate_loop rest init_args call_args
      else if is_call_arg name value
           then separate_loop rest init_args (dict_set call_args name value)
           else separate_loop rest (dict_set init_args name (to_scalar value)) call_args
  end.

Definition _separate_kwargs (kwargs : kwargs_t) : kwargs_t * kwargs_t :=
  separate_loop kwargs [] [].

(** ** Constant nodes *)

Definition output_device_of (device : string) : string :=
  if (device =? "gpu") || (device =? "mixed") then "gpu" else "cpu".

Definition Constant_schema : Schema :=
  mkSchema 0 0 (fun _ => inr 0) (fun _ => false) (fun _ => None)
           (fun _ => 1) (fun _ => 0) false false "" ""
           (fun _ => false) (fun _ => mkMeta "" false "").

Definition Constant_op (device : string) : Operator :=
  mkOperator "Constant" Constant_schema
             (mkOpSpec "Constant" [("device", ArgValue (PStr device))] [] [] [])
             device [] false.

(** Modelled from the spec: [Constant(value, device=...)] of
    [nvidia.dali.types] is missing.  The spec's ConstantPromoter wraps a
    literal as a constant-producing node on the given device and returns
    its sole output handle, a new node at every use; it fails when the
    value has no supported element type. *)
Definition Constant (value : pyval) (device : string) : M pyval :=
  if constant_supported value then
    id <- OpCounter_new ;;
    let name := "__Constant_" +:+ str_nat id in
    a <- alloc_instance (mkInstance id [] (Constant_op device)
                                    (record_call (op_spec (Constant_op device))
                                       (CallAddOutput name (output_device_of device)))
                                    id [] (PStr name)) ;;
    t <- new_DataNode name (output_device_of device) a ;;
    append_output a t ;;;
    ret (PData t)
  else raise (TypeError ("Unsupported constant of type '" +:+ type_name value +:+ "'")).

(** [_instantiate_constant_node(device, constant)]: [Constant] is given
    the value, the element type and the shape of the wrapper, and may
    refuse them. *)
Definition _instantiate_constant_node (device : string) (constant : ScalarConstant)
    : M pyval :=
  Constant (PConst constant) device.

(** ** [_add_spec_args] *)

Fixpoint _add_spec_args (schema : Schema) (spec : OpSpec) (kwargs : kwargs_t)
    : exn + OpSpec :=
  match kwargs with
  | [] => inr spec
  | (key, value) :: rest =>
      if is_None value then _add_spec_args schema spec rest
      else
        match GetArgumentType schema key with
        | inl e => inl e
        | inr dtype =>
            match value with
            | PList [] | PTuple [] =>
                match _vector_element_type dtype with
                | inl e => inl e
                | inr t =>
                    match AddArgEmptyList spec key t with
                    | inl e => inl e
                    | inr spec' => _add_spec_args schema spec' rest
                    end
                end
            | _ =>
                match _type_convert_value dtype value with
                | inl e => inl e
                | inr converted_value =>
                    match AddArg spec key converted_value with
                    | inl e => inl e
                    | inr spec' => _add_spec_args schema spec' rest
                    end
                end
            end
        end
  end.

(** ** [_check_arg_input] *)

Definition _check_arg_input (schema : Schema) (op_name name : string) : exn + unit :=
  if name =? "name" then inr tt
  else if negb (IsTensorArgument schema name) then
    match GetArgumentType schema name with
    | inl e => inl e
    | inr t =>
        inl (TypeError ("The argument `" +:+ name +:+ "` for operator `" +:+ op_name
                        +:+ "` should not be a `DataNode` but a "
                        +:+ _type_name_convert_to_string t))
    end
  else inr tt.

(** ** [_OperatorInstance] *)

(** Lines 139-142: every [ScalarConstant] among the inputs becomes a
    constant node of its own. *)
Fixpoint instantiate_inputs (default_input_device : string) (inputs : list pyval)
    : M (list pyval) :=
  match inputs with
  | [] => ret []
  | inp :: rest =>
      inp' <- (match inp with
               | PConst c => _instantiate_constant_node default_input_device c
               | _ => ret inp
               end) ;;
      rest' <- instantiate_inputs default_input_device rest ;;
      ret (inp' :: rest')
  end.

Definition duplicate_msg (k : string) : string :=
  "The argument `" +:+ k +:+ "` was already specified in __init__.".

(** Lines 153-160: the call-time arguments join the ones bound in
    [__init__]. *)
Fixpoint merge_call_args (default_call_args : kwargs_t) (items : list (string * pyval))
    (call_args : kwargs_t) : exn + kwargs_t :=
  match items with
  | [] => inr call_args
  | (k, v) :: rest =>
      if is_None v then merge_call_args default_call_args rest call_args
      else if dict_mem k default_call_args then inl (ValueError (duplicate_msg k))
      else merge_call_args default_call_args rest (dict_set call_args k v)
  end.

(** Lines 168-173. *)
Fixpoint add_inputs (spec : OpSpec) (inputs : list pyval) : M OpSpec :=
  match inputs with
  | [] => ret spec
  | inp :: rest =>
      match inp with
      | PData h =>
          d <- get_datanode h ;;
          spec' <- lift (AddInput spec (dn_name d) (dn_device d)) ;;
          add_inputs spec' rest
      | _ =>
          raise (TypeError ("Expected inputs of type `DataNode`. Received input of type '"
                            +:+ py_str inp +:+ "'."))
      end
  end.

(** Lines 175-194, over the sorted keys. *)
Fixpoint argument_inputs (op : Operator) (call_args : kwargs_t) (keys : list string)
    (spec : OpSpec) (inputs : list pyval) : M (OpSpec * list pyval) :=
  match keys with
  | [] => ret (spec, inputs)
  | k :: rest =>
      if k =? "name" then argument_inputs op call_args rest spec inputs
      else
        match dict_get call_args k with
        | None => raise (KeyError k)
        | Some PNone => argument_inputs op call_args rest spec inputs
        | Some arg_inp =>
            arg_inp1 <- (match arg_inp with
                         | PConst c => _instantiate_constant_node "cpu" c
                         | _ => ret arg_inp
                         end) ;;
            arg_inp2 <- (if is_DataNode arg_inp1 then ret arg_inp1
                         else try_except (Constant arg_inp1 "cpu")
                                (TypeError ("Expected inputs of type `DataNode` or convertible to constant nodes. Received input `"
                                            +:+ k +:+ "` of type '" +:+ type_name arg_inp1 +:+ "'."))) ;;
            lift (_check_arg_input (op_schema op) (op_name op) k) ;;;
            match arg_inp2 with
            | PData h =>
                d <- get_datanode h ;;
                spec' <- lift (AddArgumentInput spec k (dn_name d)) ;;
                argument_inputs op call_args rest spec' (inputs ++ [arg_inp2])
            | _ => raise (TypeError "argument input is not a DataNode")
            end
        end
  end.

(** Lines 196-207. *)
Definition instance_deprecation_warning (op : Operator) : M unit :=
  if IsDeprecated (op_schema op) then
    let msg0 := "WARNING: `" +:+ _op_name (op_name op) "fn" +:+ "` is now deprecated" in
    let use_instead := _op_name (DeprecatedInFavorOf (op_schema op)) "fn" in
    let msg1 := if use_instead =? "" then msg0
                else msg0 +:+ ". Use `" +:+ use_instead +:+ "` instead." in
    let explanation := DeprecationMessage (op_schema op) in
    let msg2 := if explanation =? "" then msg1
                else msg1 +:+ String "010" "" +:+ explanation in
    warn msg2
  else ret tt.

(** The parameters of [__init__] that a keyword of the caller can collide
    with, and the TypeError Python raises for the first keyword that
    does. *)
Definition is_init_parameter (k : string) : bool :=
  (k =? "self") || (k =? "inputs") || (k =? "op").

Definition multiple_values_msg (k : string) : string :=
  "__init__() got multiple values for argument '" +:+ k +:+ "'".

(** [_OperatorInstance(inputs, op, **kwargs)]: the keywords are bound to
    the parameters of [__init__(self, inputs, op, **kwargs)] first, and
    one named like a parameter is a TypeError before the body runs.  In the
    body the object exists from the first line on; its [_spec] and final
    [_inputs] are stored once the loops that build them are through. *)
Definition OperatorInstance_init (cond : option Hook) (inputs : list pyval)
    (op : Operator) (kwargs : kwargs_t) : M addr :=
  match List.find is_init_parameter (dict_keys kwargs) with
  | Some k => raise (TypeError (multiple_values_msg k))
  | None => ret tt
  end ;;;
  id <- OpCounter_new ;;
  self <- alloc_instance (mkInstance id [] op (op_spec op) id [] PNone) ;;
  let default_input_device := if op_device op =? "gpu" then "gpu" else "cpu" in
  inputs1 <- instantiate_inputs default_input_device inputs ;;
  let '(inputs2, kwargs2) :=
    match cond with
    | Some hook => apply_conditional_split_to_args hook inputs1 kwargs
    | None => (inputs1, kwargs)
    end in
  update_instance self (set_inputs inputs2) ;;;
  let '(spec_args, kwargs3) := _separate_kwargs kwargs2 in
  spec1 <- lift (_add_spec_args (op_schema op) (op_spec op) spec_args) ;;
  call_args <- lift (merge_call_args (op_call_args op) kwargs3 (op_call_args op)) ;;
  let name :=
    match dict_get call_args "name" with
    | Some PNone | None => PStr ("__" +:+ op_name op +:+ "_" +:+ str_nat id)
    | Some name => name
    end in
  update_instance self (set_name name) ;;;
  spec2 <- add_inputs spec1 inputs2 ;;
  r <- argument_inputs op call_args (sorted (dict_keys call_args)) spec2 inputs2 ;;
  update_instance self (fun i => set_spec (fst r) (set_inputs (snd r) i)) ;;;
  instance_deprecation_warning op ;;;
  ret self.

(** [self._spec.AddOutput(t.name, t.device)]: the binding takes a string
    for the name and raises a TypeError for anything else. *)
Definition spec_AddOutput (self : addr) (t_name : pyval) (device : string) : M unit :=
  match t_name with
  | PStr n =>
      inst <- get_instance self ;;
      spec' <- lift (AddOutput (oi_spec inst) n device) ;;
      update_instance self (set_spec spec')
  | _ => raise (TypeError "AddOutput(): incompatible function arguments")
  end.

(** The loop of [generate_outputs], lines 230-238.  The data node is made
    whatever the name is; one whose name is not a string is referenced by
    nothing once [AddOutput] has refused it, and the heap keeps it under
    the text of its name. *)
Fixpoint generate_outputs_loop (self : addr) (preserve : bool) (name : pyval)
    (output_device : string) (num_output : nat) (idxs : list nat) : M unit :=
  match idxs with
  | [] => ret tt
  | i :: rest =>
      t_name <- (if Nat.ltb 1 num_output
                 then lift (iadd_str name ("[" +:+ str_nat i +:+ "]"))
                 else ret name) ;;
      t <- new_DataNode (py_str t_name) output_device self ;;
      spec_AddOutput self t_name output_device ;;;
      (if preserve then add_sink t else ret tt) ;;;
      append_output self t ;;;
      generate_outputs_loop self preserve name output_device num_output rest
  end.

Definition sink_name (op : Operator) (id : nat) : string :=
  op_name op +:+ "_id_" +:+ str_nat id +:+ "_sink".

(** [_OperatorInstance.generate_outputs(self)] *)
Definition generate_outputs (self : addr) : M unit :=
  inst <- get_instance self ;;
  let op := oi_op inst in
  pipeline <- Pipeline_current ;;
  if negb pipeline && op_preserve op
  then raise (PipelineRequired "Operators with side-effects ")
  else
    let output_device := output_device_of (op_device op) in
    let num_output := CalculateOutputs (op_schema op) (oi_spec inst)
                      + CalculateAdditionalOutputs (op_schema op) (oi_spec inst) in
    if Nat.eqb num_output 0 && op_preserve op
    then
      t <- new_DataNode (sink_name op (oi_counter inst)) output_device self ;;
      add_sink t
    else
      generate_outputs_loop self (op_preserve op) (oi_name inst) output_device
                            num_output (seq 0 num_output).

(** [_OperatorInstance.unwrapped_outputs] *)
Definition unwrapped_outputs (inst : OperatorInstance) : pyval :=
  match oi_outputs inst with
  | [t] => PData t
  | outs => PList (map PData outs)
  end.

(** ** [Operator.__init__] *)

Definition rename_conflict_msg (op_name arg_name new_name : string) : string :=
  "Operator " +:+ op_name +:+ " got an unexpected'" +:+ arg_name
  +:+ "' deprecated argument when '" +:+ new_name +:+ "'was already provided".

(** Lines 325-345: the loop over the names supplied, on the dictionary it
    rewrites. *)
Fixpoint deprecated_args_loop (op_name : string) (schema : Schema)
    (arg_names : list string) (kwargs : kwargs_t) : M kwargs_t :=
  match arg_names with
  | [] => ret kwargs
  | arg_name :: rest =>
      if negb (IsDeprecatedArg schema arg_name)
      then deprecated_args_loop op_name schema rest kwargs
      else
        let meta := DeprecatedArgMeta schema arg_name in
        let new_name := renamed_to meta in
        kwargs' <- (if negb (new_name =? "") then
                      if dict_mem new_name kwargs
                      then raise (TypeError (rename_conflict_msg op_name arg_name new_name))
                      else match dict_get kwargs arg_name with
                           | None => raise (KeyError arg_name)
                           | Some v => ret (dict_del (dict_set kwargs new_name v) arg_name)
                           end
                    else if removed meta then
                      if dict_mem arg_name kwargs
                      then ret (dict_del kwargs arg_name)
                      else raise (KeyError arg_name)
                    else ret kwargs) ;;
        warn (msg meta) ;;;
        deprecated_args_loop op_name schema rest kwargs'
  end.

Fixpoint check_call_args (schema : Schema) (op_name : string) (keys : list string)
    : exn + unit :=
  match keys with
  | [] => inr tt
  | k :: rest =>
      match _check_arg_input schema op_name k with
      | inl e => inl e
      | inr _ => check_call_args schema op_name rest
      end
  end.

(** [Operator.__init__(self, *, device="cpu", **kwargs)] of the class that
    [python_op_factory(name, schema_name)] returns; [schema] is what
    [GetSchema(schema_name)] gives. *)
Definition Operator_init (name schema_name : string) (schema : Schema)
    (device : string) (kwargs : kwargs_t) : M Operator :=
  spec0 <- lift (AddArg (mkOpSpec schema_name [] [] [] []) "device" (PStr device)) ;;
  let '(kwargs1, call_args) := _separate_kwargs kwargs in
  lift (check_call_args schema name (dict_keys call_args)) ;;;
  let '(preserve, kwargs2) :=
    match dict_get kwargs1 "preserve" with
    | Some v => (v, dict_del kwargs1 "preserve")
    | None => (PScalar (SBool false), kwargs1)
    end in
  spec1 <- lift (AddArg spec0 "preserve" preserve) ;;
  let preserve' := truthy preserve || IsNoPrune schema in
  kwargs3 <- deprecated_args_loop name schema (dict_keys kwargs2) kwargs2 ;;
  spec2 <- lift (_add_spec_args schema spec1 kwargs3) ;;
  ret (mkOperator name schema spec2 device call_args preserve').

(** ** [_preprocess_inputs] *)

Definition is_input (x : pyval) : bool :=
  match x with
  | PData _ | PConst _ => true
  | PList l => existsb is_DataNode l
               && forallb (fun y => is_DataNode y || is_ScalarConstant y) l
  | _ => false
  end.

Definition conversion_failed_msg (op_name : string) (idx : nat) (inp : pyval) : string :=
  "when calling operator " +:+ op_name +:+ ":" +:+ String "010" ""
  +:+ "Input " +:+ str_nat idx
  +:+ " is neither a DALI `DataNode` nor a list of data nodes but `"
  +:+ type_name inp +:+ "`." +:+ String "010" ""
  +:+ "Attempt to convert it to a constant node failed.".

(** [schema.GetInputDevice(idx) or default_input_device] *)
Definition resolve_input_device (schema : option Schema) (idx : nat)
    (default_input_device : string) : string :=
  match schema with
  | Some sch =>
      match GetInputDevice sch idx with
      | Some d => if d =? "" then default_input_device else d
      | None => default_input_device
      end
  | None => default_input_device
  end.

Fixpoint preprocess_loop (op_name default_input_device : string)
    (schema : option Schema) (idx : nat) (inputs : list pyval) : M (list pyval) :=
  match inputs with
  | [] => ret []
  | inp :: rest =>
      inp' <- (if negb (is_input inp) then
                 let input_device := resolve_input_device schema idx default_input_device in
                 inp1 <- (if negb (is_ScalarConstant inp)
                          then try_except (Constant inp input_device)
                                 (TypeError (conversion_failed_msg op_name idx inp))
                          else ret inp) ;;
                 match inp1 with
                 | PData _ => ret inp1
                 | PConst c => _instantiate_constant_node input_device c
                 | _ => raise (AttributeError "value")
                 end
               else ret inp) ;;
      rest' <- preprocess_loop op_name default_input_device schema (S idx) rest ;;
      ret (inp' :: rest')
  end.

Definition _preprocess_inputs (inputs : list pyval) (op_name device : string)
    (schema : option Schema) : M (list pyval) :=
  let default_input_device := if device =? "gpu" then "gpu" else "cpu" in
  preprocess_loop op_name default_input_device schema 0 inputs.

(** ** Multiple input sets *)

Definition _detect_multiple_input_sets (inputs : list pyval) : bool :=
  existsb is_list inputs.

Definition _safe_len (input : pyval) : nat :=
  match input with
  | PList l => length l
  | _ => 1
  end.

(** [max] of a sequence; Python refuses the empty one. *)
Definition py_max (l : list nat) : exn + nat :=
  match l with
  | [] => inl (ValueError "max() arg is an empty sequence")
  | x :: r => inr (foldl Nat.max x r)
  end.

Definition length_mismatch_msg (op_name : string) : string :=
  "All argument lists for Multiple Input Sets used with operator " +:+ op_name
  +:+ " must have the same length".

Fixpoint check_lengths (op_name : string) (arg_list_len : nat) (inputs : list pyval)
    : exn + unit :=
  match inputs with
  | [] => inr tt
  | PList l :: rest =>
      if negb (Nat.eqb (length l) arg_list_len)
      then inl (ValueError (length_mismatch_msg op_name))
      else check_lengths op_name arg_list_len rest
  | _ :: rest => check_lengths op_name arg_list_len rest
  end.

Definition _check_common_length (op_name : string) (inputs : list pyval) : exn + nat :=
  match py_max (map _safe_len inputs) with
  | inl e => inl e
  | inr arg_list_len =>
      match check_lengths op_name arg_list_len inputs with
      | inl e => inl e
      | inr _ => inr arg_list_len
      end
  end.

(** A list stays the object it is; any other input becomes
    [[input] * arg_list_len], the same reference repeated. *)
Definition _unify_lists (inputs : list pyval) (arg_list_len : nat) : list (list pyval) :=
  map (fun input => match input with
                    | PList l => l
                    | _ => repeat input arg_list_len
                    end) inputs.

Fixpoint mapM_exn {A B} (f : A -> exn + B) (l : list A) : exn + list B :=
  match l with
  | [] => inr []
  | x :: r =>
      match f x with
      | inl e => inl e
      | inr y => match mapM_exn f r with
                 | inl e => inl e
                 | inr ys => inr (y :: ys)
                 end
      end
  end.

Definition index {A} (l : list A) (i : nat) : exn + A :=
  match l !! i with
  | Some x => inr x
  | None => inl (IndexError "list index out of range")
  end.

Definition _repack_list {A} (sets : list (list A)) : exn + list (list A) :=
  match sets with
  | [] => inl (IndexError "list index out of range")
  | s0 :: _ =>
      mapM_exn (fun i => mapM_exn (fun input_set => index input_set i) sets)
               (seq 0 (length s0))
  end.

Definition _repack_input_sets (inputs : list (list pyval)) : exn + list (list pyval) :=
  _repack_list inputs.

Definition _repack_output_sets (outputs : list (list handle)) : exn + pyval :=
  match outputs with
  | [t] :: _ :: _ =>
      match mapM_exn (fun elem => index elem 0) outputs with
      | inl e => inl e
      | inr output => inr (PList (map PData output))
      end
  | _ =>
      match _repack_list outputs with
      | inl e => inl e
      | inr r => inr (PList (map (fun l => PList (map PData l)) r))
      end
  end.

Definition _check_schema_num_inputs (op : Operator) (inputs : list pyval) : exn + unit :=
  let n := Z.of_nat (length inputs) in
  let lo := MinNumInput (op_schema op) in
  let hi := MaxNumInput (op_schema op) in
  if (n <? lo)%Z || (hi <? n)%Z
  then inl (ValueError ("Operator " +:+ op_name op +:+ " expects from "
                        +:+ NilEmpty.string_of_int (Z.to_int lo) +:+ " to "
                        +:+ NilEmpty.string_of_int (Z.to_int hi)
                        +:+ " inputs, but received " +:+ str_nat (length inputs) +:+ "."))
  else inr tt.

Definition _build_input_sets (op : Operator) (inputs : list pyval)
    : exn + list (list pyval) :=
  if _detect_multiple_input_sets inputs then
    match _check_common_length (op_name op) inputs with
    | inl e => inl e
    | inr arg_list_len => _repack_input_sets (_unify_lists inputs arg_list_len)
    end
  else inr [inputs].

(** ** [Operator.__call__] *)

(** Lines 374-377. *)
Fixpoint create_instances (cond : option Hook) (op : Operator) (kwargs : kwargs_t)
    (input_sets : list (list pyval)) : M (list addr) :=
  match input_sets with
  | [] => ret []
  | input_set :: rest =>
      a <- OperatorInstance_init cond input_set op kwargs ;;
      generate_outputs a ;;;
      more <- create_instances cond op kwargs rest ;;
      ret (a :: more)
  end.

(** Lines 381-382. *)
Fixpoint tie_instances (relation_id : nat) (op_instances : list addr) : M unit :=
  match op_instances with
  | [] => ret tt
  | a :: rest =>
      update_instance a (set_relation_id relation_id) ;;;
      tie_instances relation_id rest
  end.

Fixpoint collect_outputs (op_instances : list addr) : M (list (list handle)) :=
  match op_instances with
  | [] => ret []
  | a :: rest =>
      i <- get_instance a ;;
      more <- collect_outputs rest ;;
      ret (oi_outputs i :: more)
  end.

Definition multiple_sets_conditional_msg : string :=
  "Multiple input sets are not supported with conditional execution (when `enable_conditionals=True`)".

(** Lines 367-382: the nodes of one call, tied together. *)
Definition Operator_call_instances (cond : option Hook) (op : Operator)
    (inputs : list pyval) (kwargs : kwargs_t) : M (list addr) :=
  lift (_check_schema_num_inputs op inputs) ;;;
  inputs' <- _preprocess_inputs inputs (op_name op) (op_device op) (Some (op_schema op)) ;;
  input_sets <- lift (_build_input_sets op inputs') ;;
  op_instances <- create_instances cond op kwargs input_sets ;;
  match op_instances with
  | [] => raise (IndexError "list index out of range")
  | first :: _ =>
      i <- get_instance first ;;
      tie_instances (oi_counter i) op_instances ;;;
      ret op_instances
  end.

(** Lines 384-397: the value handed back. *)
Definition Operator_call_result (cond : option Hook) (op_instances : list addr) : M pyval :=
  result <- (match op_instances with
             | [a] => i <- get_instance a ;; ret (unwrapped_outputs i)
             | _ => outputs <- collect_outputs op_instances ;;
                    lift (_repack_output_sets outputs)
             end) ;;
  match cond with
  | Some _ =>
      if negb (Nat.eqb (length op_instances) 1)
      then raise (ValueError multiple_sets_conditional_msg)
      else ret result
  | None => ret result
  end.

(** [Operator.__call__(self, *inputs, **kwargs)]: the body, on the tuple
    [inputs] and the dictionary [kwargs] the arguments were bound to. *)
Definition Operator_call (cond : option Hook) (op : Operator)
    (inputs : list pyval) (kwargs : kwargs_t) : M pyval :=
  op_instances <- Operator_call_instances cond op inputs kwargs ;;
  Operator_call_result cond op_instances.


(** * Further parts of the module *)

(** ** [_CompoundOp] and [Compose] *)

(** What can stand in the list given to [Compose]: an operator, or a
    [_CompoundOp] with its [_ops]. *)
Inductive callable : Type :=
| PlainOp (op : Operator)
| CompoundOp (_ops : list callable).

(** [_CompoundOp.__init__(self, op_list)] *)
Definition CompoundOp_init (op_list : list callable) : callable :=
  CompoundOp (foldl (fun _ops op =>
                       match op with
                       | CompoundOp inner => _ops ++ inner
                       | PlainOp _ => _ops ++ [op]
                       end) [] op_list).

(** [Compose(op_list)] *)
Definition Compose (op_list : list callable) : callable :=
  match op_list with
  | [op] => op
  | _ => CompoundOp_init op_list
  end.

(** ** The wrappers of [PythonFunction] *)

(** [PythonFunction.check_outputs(outputs, num_outputs)]; the TypeError
    is raised with the message and the type as two arguments. *)
Definition check_outputs (outputs : pyval) (num_outputs : Z) : exn + unit :=
  if (1 <? num_outputs)%Z then
    match outputs with
    | PTuple l =>
        if negb (Z.eqb (Z.of_nat (length l)) num_outputs)
        then inl (ValueError ("Unexpected number of outputs from Pythonfunction operator - got "
                              +:+ str_nat (length l) +:+ ", expected "
                              +:+ NilEmpty.string_of_int (Z.to_int num_outputs)))
        else inr tt
    | _ => inl (TypeError ("The output from a multi-output Pythonfunction operator must be a tuple, got: "
                           +:+ type_name outputs))
    end
  else inr tt.

(** [PythonFunction.function_wrapper_per_sample(function, num_outputs,
    from_dlpack, to_dlpack, *dlpack_inputs)] *)
Definition function_wrapper_per_sample (function : list pyval -> exn + pyval)
    (num_outputs : Z) (from_dlpack to_dlpack : pyval -> exn + pyval)
    (dlpack_inputs : list pyval) : exn + pyval :=
  match mapM_exn from_dlpack dlpack_inputs with
  | inl e => inl e
  | inr arrays =>
      match function arrays with
      | inl e => inl e
      | inr PNone => inr PNone
      | inr arr_out =>
          match check_outputs arr_out num_outputs with
          | inl e => inl e
          | inr _ =>
              match arr_out with
              | PTuple l =>
                  match mapM_exn to_dlpack l with
                  | inl e => inl e
                  | inr r => inr (PTuple r)
                  end
              | _ => to_dlpack arr_out
              end
          end
      end
  end.

(** [convert_batch] of [function_wrapper_batch]. *)
Definition convert_batch (to_dlpack : pyval -> exn + pyval) (batch : pyval) : exn + pyval :=
  match batch with
  | PList l =>
      match mapM_exn to_dlpack l with
      | inl e => inl e
      | inr r => inr (PList r)
      end
  | _ => to_dlpack batch
  end.

(** [PythonFunction.function_wrapper_batch(function, num_outputs,
    from_dlpack, to_dlpack, *dlpack_inputs)]: every input is a list of
    samples, handed to the function as a list. *)
Definition function_wrapper_batch (function : list pyval -> exn + pyval)
    (num_outputs : Z) (from_dlpack to_dlpack : pyval -> exn + pyval)
    (dlpack_inputs : list (list pyval)) : exn + pyval :=
  match mapM_exn (fun dl_input => match mapM_exn from_dlpack dl_input with
                                  | inl e => inl e
                                  | inr r => inr (PList r)
                                  end) dlpack_inputs with
  | inl e => inl e
  | inr arrays =>
      match function arrays with
      | inl e => inl e
      | inr PNone => inr PNone
      | inr arr_outs =>
          match check_outputs arr_outs num_outputs with
          | inl e => inl e
          | inr _ =>
              match arr_outs with
              | PTuple l =>
                  match mapM_exn (convert_batch to_dlpack) l with
                  | inl e => inl e
                  | inr r => inr (PTuple r)
                  end
              | _ => convert_batch to_dlpack arr_outs
              end
          end
      end
  end.

(** [DLTensorPythonFunction._function_wrapper_dlpack]: both conversions
    are identities.  A per-sample call gets the samples, a batch call the
    lists of samples. *)
Definition _function_wrapper_dlpack_per_sample (function : list pyval -> exn + pyval)
    (num_outputs : Z) (dlpack_inputs : list pyval) : exn + pyval :=
  function_wrapper_per_sample function num_outputs (fun x => inr x) (fun x => inr x)
                              dlpack_inputs.

Definition _function_wrapper_dlpack_batch (function : list pyval -> exn + pyval)
    (num_outputs : Z) (dlpack_inputs : list (list pyval)) : exn + pyval :=
  function_wrapper_batch function num_outputs (fun x => inr x) (fun x => inr x)
                         dlpack_inputs.

(** ** The classification rule in the specification's words *)

Inductive kwclass : Type :=
| Dropped
| ConstructionStyle (stored : pyval)
| CallStyle (stored : pyval).

(** Clauses (a) to (f) of the InputClassifier, in their precedence; a
    scalar-constant wrapper is stored as its raw value. *)
Definition classify_spec (name : string) (value : pyval) : kwclass :=
  let unwrapped := match value with
                   | PConst c => PScalar (sc_value c)
                   | _ => value
                   end in
  match value with
  | PNone => Dropped
  | _ =>
      if (name =? "device") || (name =? "ndim") then ConstructionStyle unwrapped
      else if name =? "name" then CallStyle value
      else match value with
           | PData _ => CallStyle value
           | PStr _ | PList _ | PTuple _ | PConst _ => ConstructionStyle unwrapped
           | _ => if _is_scalar_value value
                  then ConstructionStyle value else CallStyle value
           end
  end.

Definition construction_of (item : string * pyval) : option (string * pyval) :=
  match classify_spec (fst item) (snd item) with
  | ConstructionStyle w => Some (fst item, w)
  | _ => None
  end.

Definition call_of (item : string * pyval) : option (string * pyval) :=
  match classify_spec (fst item) (snd item) with
  | CallStyle w => Some (fst item, w)
  | _ => None
  end.

(** ** Shapes used in the statements *)

(** The node and the handle that [Constant] creates when the counter is at
    [id], the instance heap has [a] objects and the data-node heap [t]. *)
Definition Constant_name (id : nat) : string := "__Constant_" +:+ str_nat id.

Definition Constant_instance (id : nat) (device : string) (t : handle) : OperatorInstance :=
  mkInstance id [t] (Constant_op device)
             (record_call (op_spec (Constant_op device))
                          (CallAddOutput (Constant_name id) (output_device_of device)))
             id [] (PStr (Constant_name id)).

Definition Constant_datanode (id : nat) (device : string) (a : addr) : DataNode :=
  mkDataNode (Constant_name id) (output_device_of device) a.

(** A positional argument that is a data input, in the words of the
    claim: a handle, a scalar-constant wrapper, or a list with at least
    one handle whose elements are all handles or wrappers. *)
Definition data_input (x : pyval) : Prop :=
  (exists h, x = PData h) \/
  (exists c, x = PConst c) \/
  (exists l, x = PList l /\ (exists h, PData h ∈ l) /\
             forall y, y ∈ l -> (exists h, y = PData h) \/ (exists c, y = PConst c)).

(** The device an input resolves to, in the words of the specification:
    the device the schema names for the position when it names one, and
    otherwise "gpu" for an operator on "gpu" and "cpu" for any other. *)
Definition names_no_device (schema : option Schema) (idx : nat) : Prop :=
  forall sch, schema = Some sch ->
              GetInputDevice sch idx = None \/ GetInputDevice sch idx = Some "".

Inductive resolved_device (schema : option Schema) (idx : nat) (device : string)
    : string -> Prop :=
| device_of_schema sch d :
    schema = Some sch -> GetInputDevice sch idx = Some d -> d <> "" ->
    resolved_device schema idx device d
| device_default_gpu :
    names_no_device schema idx -> device = "gpu" ->
    resolved_device schema idx device "gpu"
| device_default_cpu :
    names_no_device schema idx -> device <> "gpu" ->
    resolved_device schema idx device "cpu".

(** The construction-style arguments [Operator.__init__] examines for
    deprecation: what [_separate_kwargs] keeps for [__init__], without
    [preserve]. *)
Definition supplied_construction_args (kwargs : kwargs_t) : kwargs_t :=
  let kwargs1 := fst (_separate_kwargs kwargs) in
  match dict_get kwargs1 "preserve" with
  | Some _ => dict_del kwargs1 "preserve"
  | None => kwargs1
  end.

(** The value [__init__] records for [preserve], and the spec as it
    stands once [device] and [preserve] are recorded. *)
Definition preserve_arg (kwargs : kwargs_t) : pyval :=
  match dict_get (fst (_separate_kwargs kwargs)) "preserve" with
  | Some v => v
  | None => PScalar (SBool false)
  end.

Definition spec_with_device (schema_name device : string) : OpSpec :=
  record_call (mkOpSpec schema_name [] [] [] []) (CallAddArg "device" (PStr device)).

Definition spec_before_args (schema_name device : string) (kwargs : kwargs_t) : OpSpec :=
  record_call (spec_with_device schema_name device)
              (CallAddArg "preserve" (preserve_arg kwargs)).









(** The call arguments a run works with, and the name it gives. *)
Definition call_args_of (op : Operator) (kwargs2 : kwargs_t) : exn + kwargs_t :=
  merge_call_args (op_call_args op) (snd (_separate_kwargs kwargs2)) (op_call_args op).

Definition name_of (op : Operator) (id : nat) (call_args : kwargs_t) : pyval :=
  match dict_get call_args "name" with
  | Some PNone | None => PStr ("__" +:+ op_name op +:+ "_" +:+ str_nat id)
  | Some name => name
  end.

(** The name of output [i] of [num_output], and the output count the
    schema computes for an instance. *)
Definition output_name (name : string) (num_output i : nat) : string :=
  if Nat.ltb 1 num_output then name +:+ "[" +:+ str_nat i +:+ "]" else name.

Definition num_outputs (inst : OperatorInstance) : nat :=
  CalculateOutputs (op_schema (oi_op inst)) (oi_spec inst)
  + CalculateAdditionalOutputs (op_schema (oi_op inst)) (oi_spec inst).

(** Everything of an instance but its spec and its outputs. *)
Definition same_node (i i' : OperatorInstance) : Prop :=
  oi_counter i' = oi_counter i /\ oi_relation_id i' = oi_relation_id i /\
  oi_op i' = oi_op i /\ oi_inputs i' = oi_inputs i /\ oi_name i' = oi_name i.

Definition pipeline_active (s : state) : bool :=
  match pipeline s with Some _ => true | None => false end.

(** The keys of the call arguments that become argument inputs. *)
Definition is_arg_key (call_args : kwargs_t) (k : string) : bool :=
  negb (k =? "name") &&
  match dict_get call_args k with
  | Some PNone | None => false
  | Some _ => true
  end.

Definition arg_keys (call_args : kwargs_t) : list string :=
  filter (fun k => is_arg_key call_args k = true) (sorted (dict_keys call_args)).

(** What [__init__] makes of a positional input, and of the call argument
    under a key. *)
Definition input_resolves (x y : pyval) : Prop :=
  match x with
  | PConst _ => is_DataNode y = true
  | _ => y = x
  end.

Definition argument_resolves (call_args : kwargs_t) (k : string) (y : pyval) : Prop :=
  is_DataNode y = true /\
  forall h, dict_get call_args k = Some (PData h) -> y = PData h.

(** What is known of a node built without the conditional hook from the
    input set [inputs]: its inputs are the resolved positional inputs
    followed by the resolved argument inputs. *)
Definition inputs_from (op : Operator) (kwargs : kwargs_t) (inputs : list pyval)
    (inst : OperatorInstance) : Prop :=
  exists call_args inputs1 extra,
    call_args_of op kwargs = inr call_args /\
    oi_name inst = name_of op (oi_counter inst) call_args /\
    oi_inputs inst = inputs1 ++ extra /\
    Forall2 input_resolves inputs inputs1 /\
    Forall (fun x => is_DataNode x = true) inputs1 /\
    Forall2 (argument_resolves call_args) (arg_keys call_args) extra.

(** The node at [a] in [s'], created for [input_set] by a call that began
    in [s]: [inst0] is the node as [__init__] left it. *)
Definition node_created (cond : option Hook) (op : Operator) (kwargs : kwargs_t)
    (s s' : state) (a : addr) (input_set : list pyval) : Prop :=
  exists inst0 inst,
    instances s' !! a = Some inst /\
    length (instances s) <= a /\
    same_node inst0 inst /\
    oi_op inst = op /\
    oi_relation_id inst = oi_counter inst /\
    op_count s <= oi_counter inst /\
    length (oi_outputs inst) = num_outputs inst0 /\
    (forall h, h ∈ oi_outputs inst ->
       exists d, datanodes s' !! h = Some d /\ dn_source d = a) /\
    (cond = None -> inputs_from op kwargs input_set inst).

(** The same node once the call has tied its nodes to [rid]. *)
Definition node_tied (cond : option Hook) (op : Operator) (kwargs : kwargs_t)
    (s s' : state) (rid : nat) (a : addr) (input_set : list pyval) : Prop :=
  exists inst0 inst,
    instances s' !! a = Some inst /\
    length (instances s) <= a /\
    oi_counter inst0 = oi_counter inst /\
    oi_op inst = op /\
    oi_relation_id inst = rid /\
    op_count s <= oi_counter inst /\
    length (oi_outputs inst) = num_outputs inst0 /\
    (forall h, h ∈ oi_outputs inst ->
       exists d, datanodes s' !! h = Some d /\ dn_source d = a) /\
    (cond = None -> inputs_from op kwargs input_set inst).

(** A node that [Constant] made. *)
Definition is_constant_node (i : OperatorInstance) : Prop :=
  exists device, oi_op i = Constant_op device.



(** An input of an input set: a handle or a scalar-constant wrapper. *)
Definition is_node_input (x : pyval) : bool := is_DataNode x || is_ScalarConstant x.

End Ops.

(** ** Shapes used in the further statements *)

(** The operators a composable thing stands for. *)
Definition ops_of (c : callable) : list callable :=
  match c with
  | CompoundOp inner => inner
  | PlainOp _ => [c]
  end.

Definition is_plain (c : callable) : bool :=
  match c with PlainOp _ => true | CompoundOp _ => false end.

(** A [_CompoundOp] whose [_ops] holds no [_CompoundOp]. *)
Definition flat (c : callable) : Prop :=
  Forall (fun x => is_plain x = true) (ops_of c).

(** Nothing but warnings is added. *)
Definition only_warns (s s' : state) : Prop :=
  op_count s' = op_count s /\ instances s' = instances s /\
  datanodes s' = datanodes s /\ pipeline s' = pipeline s /\
  warnings s `prefix_of` warnings s'.


(** ** Concrete collaborators for the examples *)

(** Integers of at most 64 bits can become constants, as can the other
    scalars, lists and arrays; [+=] is defined for strings and lists
    only. *)
Definition fits_int64 (v : scalar) : bool :=
  match v with
  | SInt z => (- 2 ^ 63 <=? z)%Z && (z <? 2 ^ 63)%Z
  | _ => true
  end.

Definition example_types : TypesModule :=
  {| _is_scalar_value v := match v with PScalar _ => true | _ => false end;
     _type_convert_value _ v := inr v;
     _vector_element_type t := inr t;
     _type_name_convert_to_string _ := "float";
     _op_name n _ := n;
     constant_supported v := match v with
                             | PScalar x => fits_int64 x
                             | PConst c => fits_int64 (sc_value c)
                             | PList _ | PObject "ndarray" _ => true
                             | _ => false
                             end;
     _iadd v _ := inl (TypeError ("unsupported operand type(s) for +=: '" +:+ type_name v
                                  +:+ "' and 'str'")) |}.

(** A backend that refuses an argument input under a name that is
    already set as an argument, and accepts everything else. *)
Definition example_backend : Backend :=
  {| spec_rejects spec c :=
       match c with
       | CallAddArgumentInput k _ =>
           if dict_mem k (spec_args spec)
           then Some (RuntimeError ("Argument " +:+ k +:+ " is already specified"))
           else None
       | _ => None
       end |}.

(** A rotation-like schema: up to three inputs, one output, [angle] may
    be an argument input, [old_size] was renamed to [size] and [legacy]
    was removed. *)
Definition ex_meta (k : string) : DeprecatedMeta :=
  if k =? "old_size" then mkMeta "size" false "old_size is now size"
  else mkMeta "" true "legacy is no longer used".

Definition ex_schema : Schema :=
  mkSchema 0 3 (fun _ => inr 0) (fun k => k =? "angle") (fun _ => None)
           (fun _ => 1) (fun _ => 0) false false "" ""
           (fun k => (k =? "old_size") || (k =? "legacy")) ex_meta.

(** The same schema with no output at all. *)
Definition ex_schema0 : Schema :=
  mkSchema 0 3 (fun _ => inr 0) (fun k => k =? "angle") (fun _ => None)
           (fun _ => 0) (fun _ => 0) false false "" ""
           (fun _ => false) ex_meta.

Definition ex_spec (name : string) (preserve : bool) : OpSpec :=
  mkOpSpec name [("device", ArgValue (PStr "cpu"));
                 ("preserve", ArgValue (PScalar (SBool preserve)))] [] [] [].

(** [Rotate()], [Rotate(angle=<handle 1>)], [Rotate(preserve=True)], and
    two operators without outputs, with and without [preserve]. *)
Definition ex_rotate : Operator :=
  mkOperator "Rotate" ex_schema (ex_spec "Rotate" false) "cpu" [] false.
Definition ex_bound : Operator :=
  mkOperator "Rotate" ex_schema (ex_spec "Rotate" false) "cpu" [("angle", PData 1)] false.
Definition ex_kept : Operator :=
  mkOperator "Rotate" ex_schema (ex_spec "Rotate" true) "cpu" [] true.
Definition ex_dump : Operator :=
  mkOperator "Dump" ex_schema0 (ex_spec "Dump" true) "cpu" [] true.
Definition ex_quiet : Operator :=
  mkOperator "Dump" ex_schema0 (ex_spec "Dump" false) "cpu" [] false.

(** A pipeline under construction: one reader node with three outputs,
    no sink yet. *)
Definition ex_reader : Operator :=
  mkOperator "Reader" ex_schema (ex_spec "Reader" false) "cpu" [] false.

Definition ex_state : state :=
  mkState 1
          [mkInstance 0 [0; 1; 2] ex_reader (ex_spec "Reader" false) 0 [] (PStr "__Reader_0")]
          [mkDataNode "__Reader_0[0]" "cpu" 0; mkDataNode "__Reader_0[1]" "cpu" 0;
           mkDataNode "__Reader_0[2]" "cpu" 0]
          (Some []) [].

(** The same heap with no pipeline current. *)
Definition ex_state_no_pipeline : state :=
  mkState (op_count ex_state) (instances ex_state) (datanodes ex_state) None [].

(** The identity as conditional hook: conditionals are enabled and the
    split leaves the arguments as they are. *)
Definition ex_hook : Hook := mkHook (fun inputs kwargs => (inputs, kwargs)).

(** Keyword arguments of every kind. *)
Definition ex_kwargs : kwargs_t :=
  [("seed", PNone); ("device", PStr "gpu"); ("name", PStr "rot");
   ("angle", PData 1); ("size", PList [PScalar (SInt 4); PScalar (SInt 4)]);
   ("fill", PConst (mkScalarConstant (SInt 0) 0)); ("mask", PObject "ndarray" 0);
   ("keep", PScalar (SBool true)); ("axes", PTuple [])].

(** A call with a fan-out list of three handles, a plain handle, a
    literal and a handle-valued keyword argument. *)
Definition fan_inputs : list pyval :=
  [PList [PData 0; PData 1; PData 2]; PData 0; PScalar (SInt 5)].
Definition fan_kwargs : kwargs_t := [("angle", PData 1)].
Definition fan_run : (exn + list nat) * state :=
  Operator_call_instances (types := example_types) (backend := example_backend) None ex_rotate fan_inputs fan_kwargs ex_state.
Definition fan_nodes : list nat :=
  match fan_run.1 with inr l => l | inl _ => [] end.


(** Two fan-out lists that disagree in length. *)
Definition uneven_inputs : list pyval :=
  [PList [PData 0; PData 1]; PList [PData 0; PData 1; PData 2]].

(** [needle in hay] on strings. *)
Fixpoint contains (needle hay : string) : bool :=
  String.prefix needle hay ||
  match hay with
  | String _ rest => contains needle rest
  | EmptyString => false
  end.

(** A node of [ex_dump] as [__init__] leaves it, before its outputs are
    generated, with and without a current pipeline. *)
Definition dump_state : state :=
  (OperatorInstance_init (types := example_types) (backend := example_backend) None [PData 0] ex_dump [] ex_state).2.
Definition dump_state_no_pipeline : state :=
  (OperatorInstance_init (types := example_types) (backend := example_backend) None [PData 0] ex_dump []
                         ex_state_no_pipeline).2.






(** A fan-out list whose second element is a wrapper of an integer
    beyond 64 bits. *)
Definition big_wrapper_inputs : list pyval :=
  [PList [PData 0; PConst (mkScalarConstant (SInt (2 ^ 70)) 0)]].

(** A handle beside a list of plain literals, and beside a tuple of
    handles. *)
Definition literal_inputs : list pyval :=
  [PData 0; PList [PScalar (SInt 1); PScalar (SInt 2)]].
Definition tuple_inputs : list pyval :=
  [PData 0; PTuple [PData 0; PData 1]].
(** ** Further examples *)

(** Inputs of every kind accepted by preprocessing: a handle, a literal
    and a list of handles. *)
Definition pre_inputs : list pyval :=
  [PData 0; PScalar (SInt 5); PList [PData 1; PData 2]].
Definition pre_run : (exn + list pyval) * state :=
  _preprocess_inputs (types := example_types) pre_inputs "Rotate" "cpu" None ex_state.

(** Keyword arguments for the spec: a list, [None] and an empty tuple. *)
Definition add_kwargs : kwargs_t :=
  [("size", PList [PScalar (SInt 4); PScalar (SInt 4)]); ("seed", PNone); ("axes", PTuple [])].

(** A node of [ex_kept] as [__init__] leaves it. *)
Definition kept_state : state :=
  (OperatorInstance_init (types := example_types) (backend := example_backend)
                         None [PData 0] ex_kept [] ex_state).2.

(** A call of [ex_bound] with one call-style and one construction-style
    argument. *)
Definition bound_kwargs : kwargs_t :=
  [("mask", PObject "ndarray" 0); ("size", PScalar (SInt 3))].

(** [Rotate(angle=<handle 1>, fill=0)] *)
Definition plain_kwargs : kwargs_t :=
  [("angle", PData 1); ("fill", PScalar (SInt 0))].

(** Two operators composed with a composition of a third. *)
Definition composed : list callable :=
  [PlainOp ex_rotate; CompoundOp [PlainOp ex_kept; PlainOp ex_dump]].

(** A function of two arrays that returns them as a pair. *)
Definition pair_function (arrays : list pyval) : exn + pyval := inr (PTuple arrays).

(** * Properties *)

Section Proofs.
Context `{types : TypesModule} `{backend : Backend}.

(** ** Dictionaries *)

Lemma dict_get_None_keys {V} (d : dict V) k :
  dict_get d k = None <-> k ∉ dict_keys d.
Proof.
  induction d as [|[k' v] d IH]; simpl.
  - split; [intros _; apply not_elem_of_nil | done].
  - destruct (String.eqb_spec k' k) as [->|Hne].
    + split; [done | intros Hn; exfalso; apply Hn; left].
    + rewrite IH, not_elem_of_cons.
      split; [intros ?; split; [congruence|done] | by intros [_ ?]].
Qed.

Lemma dict_mem_keys {V} (d : dict V) k :
  dict_mem k d = true <-> k ∈ dict_keys d.
Proof.
  unfold dict_mem. destruct (dict_get d k) eqn:E.
  - split; [intros _|done].
    destruct (decide (k ∈ dict_keys d)) as [|Hn]; [done|].
    apply dict_get_None_keys in Hn. congruence.
  - apply dict_get_None_keys in E. split; [done | intros; contradiction].
Qed.

Lemma dict_set_fresh {V} (d : dict V) k v :
  k ∉ dict_keys d -> dict_set d k v = d ++ [(k, v)].
Proof.
  induction d as [|[k' v'] d IH]; simpl; [done|].
  rewrite not_elem_of_cons. intros [Hne Hd].
  destruct (String.eqb_spec k' k) as [->|_]; [done|]. by rewrite IH.
Qed.

Lemma dict_keys_app {V} (d1 d2 : dict V) :
  dict_keys (d1 ++ d2) = dict_keys d1 ++ dict_keys d2.
Proof. apply map_app. Qed.




Lemma dict_get_del_eq {V} (d : dict V) k :
  NoDup (dict_keys d) -> dict_get (dict_del d k) k = None.
Proof.
  induction d as [|[k0 v0] d IH]; simpl; [done|].
  intros [Hnot Hnd]%NoDup_cons.
  destruct (String.eqb_spec k0 k) as [->|Hk]; simpl.
  - by apply dict_get_None_keys.
  - destruct (String.eqb_spec k0 k); [done | by apply IH].
Qed.





(** ** The keyword classifier *)

Lemma classify_spec_code name value :
  classify_spec name value =
  if is_None value then Dropped
  else if is_call_arg name value then CallStyle value
       else ConstructionStyle (to_scalar value).
Proof.
  unfold classify_spec, is_call_arg, is_arg_input_type.
  destruct (name =? "device"), (name =? "ndim"), (name =? "name");
    destruct value as [| | | | | | |]; simpl; try reflexivity;
    destruct (_is_scalar_value _); reflexivity.
Qed.

Lemma separate_loop_spec items : forall init_args call_args,
  NoDup (dict_keys items) ->
  (forall k, k ∈ dict_keys items -> (k ∉ dict_keys init_args) /\ (k ∉ dict_keys call_args)) ->
  separate_loop items init_args call_args =
  (init_args ++ omap construction_of items, call_args ++ omap call_of items).
Proof.
  induction items as [|[name value] rest IH]; intros ia ca Hnd Hfresh; simpl.
  - by rewrite !app_nil_r.
  - simpl in Hnd. apply NoDup_cons in Hnd as [Hnot Hnd].
    destruct (Hfresh name) as [Hi Hc]; [left|].
    assert (Hrest : forall ia' ca' : kwargs_t,
               dict_keys ia' ⊆ name :: dict_keys ia ->
               dict_keys ca' ⊆ name :: dict_keys ca ->
               forall k, k ∈ dict_keys rest -> (k ∉ dict_keys ia') /\ (k ∉ dict_keys ca')).
    { intros ia' ca' Hia Hca k Hk.
      destruct (Hfresh k) as [H1 H2]; [by right|].
      assert (k <> name) by (intros ->; contradiction).
      split; intros Hin; [apply Hia in Hin | apply Hca in Hin];
        apply elem_of_cons in Hin as [?|?]; contradiction. }
    unfold construction_of, call_of; simpl.
    rewrite classify_spec_code.
    destruct (is_None value).
    + apply IH; [done|]. apply Hrest; set_solver.
    + destruct (is_call_arg name value).
      * rewrite IH; [| done |].
        -- rewrite dict_set_fresh by done. by rewrite <- app_assoc.
        -- apply Hrest; [set_solver|].
           rewrite dict_set_fresh, dict_keys_app by done. simpl. set_solver.
      * rewrite IH; [| done |].
        -- rewrite dict_set_fresh by done. by rewrite <- app_assoc.
        -- apply Hrest; [|set_solver].
           rewrite dict_set_fresh, dict_keys_app by done. simpl. set_solver.
Qed.

Lemma omap_keys_subseteq (f : string * pyval -> option (string * pyval))
    (items : list (string * pyval)) :
  (forall it it', f it = Some it' -> fst it' = fst it) ->
  dict_keys (omap f items) ⊆ dict_keys items.
Proof.
  intros Hf. induction items as [|it rest IH]; simpl; [done|].
  destruct (f it) as [it'|] eqn:E; simpl.
  - rewrite (Hf _ _ E). set_solver.
  - set_solver.
Qed.

Lemma construction_of_key it it' : construction_of it = Some it' -> fst it' = fst it.
Proof.
  unfold construction_of. destruct (classify_spec _ _); intros [= <-]; done.
Qed.

Lemma call_of_key it it' : call_of it = Some it' -> fst it' = fst it.
Proof.
  unfold call_of. destruct (classify_spec _ _); intros [= <-]; done.
Qed.

Lemma classified_disjoint (items : list (string * pyval)) k :
  NoDup (dict_keys items) ->
  k ∈ dict_keys (omap construction_of items) ->
  k ∉ dict_keys (omap call_of items).
Proof.
  induction items as [|it rest IH]; simpl; [intros _ H; by apply elem_of_nil in H|].
  intros Hnd. apply NoDup_cons in Hnd as [Hnot Hnd].
  pose proof (omap_keys_subseteq construction_of rest construction_of_key) as Hs1.
  pose proof (omap_keys_subseteq call_of rest call_of_key) as Hs2.
  unfold construction_of at 1, call_of at 1.
  destruct (classify_spec (fst it) (snd it)); simpl.
  - by apply IH.
  - intros [->|Hin]%elem_of_cons.
    + intros Hc. apply Hnot. by apply Hs2.
    + by apply IH.
  - intros Hin [->|Hc]%elem_of_cons.
    + apply Hnot. by apply Hs1.
    + by apply (IH Hnd Hin).
Qed.

(** C8: for a keyword mapping (a dictionary, so with distinct keys),
    [_separate_kwargs] returns exactly the pairs that clauses (a)-(f) of the
    classification rule make construction-style, wrappers unwrapped, and
    exactly those it makes call-style, each in the order supplied; no name
    is in both. *)
Theorem separate_kwargs_follows_precedence (kwargs : kwargs_t) :
  NoDup (dict_keys kwargs) ->
  fst (_separate_kwargs kwargs) = omap construction_of kwargs /\
  snd (_separate_kwargs kwargs) = omap call_of kwargs /\
  (forall name, name ∈ dict_keys (fst (_separate_kwargs kwargs)) ->
                name ∉ dict_keys (snd (_separate_kwargs kwargs))).
Proof.
  intros Hnd. unfold _separate_kwargs.
  rewrite separate_loop_spec; [simpl | done |].
  - split; [done|]. split; [done|].
    intros name. by apply classified_disjoint.
  - intros k _. split; apply not_elem_of_nil.
Qed.

(** ** Running computations *)


Lemma bind_inl {A B} (m : M A) (f : A -> M B) s e s1 :
  m s = (inl e, s1) -> bind m f s = (inl e, s1).
Proof. unfold bind. by intros ->. Qed.

Lemma bind_ok_inv {A B} (m : M A) (f : A -> M B) s y s' :
  bind m f s = (inr y, s') ->
  exists x s1, m s = (inr x, s1) /\ f x s1 = (inr y, s').
Proof.
  unfold bind. destruct (m s) as [[e|x] s1]; [done|]. eauto.
Qed.

Lemma alter_last {A} (f : A -> A) (l : list A) (x : A) :
  alter f (length l) (l ++ [x]) = l ++ [f x].
Proof.
  replace (length l) with (length l + 0) by lia.
  by rewrite (alter_app_r f l [x] 0).
Qed.

(** ** Constant nodes *)

Lemma Constant_run value device s :
  Constant value device s =
  if constant_supported value
  then (inr (PData (length (datanodes s))),
        mkState (S (op_count s))
                (instances s ++ [Constant_instance (op_count s) device (length (datanodes s))])
                (datanodes s ++ [Constant_datanode (op_count s) device (length (instances s))])
                (pipeline s) (warnings s))
  else (inl (TypeError ("Unsupported constant of type '" +:+ type_name value +:+ "'")), s).
Proof.
  unfold Constant. destruct (constant_supported value); [|done].
  unfold bind, OpCounter_new, alloc_instance, new_DataNode, append_output,
    update_instance, ret; simpl.
  by rewrite alter_last.
Qed.

Lemma instantiate_constant_node_run device c s :
  _instantiate_constant_node device c s = Constant (PConst c) device s.
Proof. done. Qed.

(** ** Input preprocessing *)

Lemma is_input_data_input x : is_input x = true <-> data_input x.
Proof.
  unfold data_input. destruct x as [|h|c|s|l|l|v|n t]; simpl;
    try (split; [done | intros [[? [=]]|[[? [=]]|[? [[=] _]]]]]).
  - split; [eauto | done].
  - split; [eauto | done].
  - rewrite andb_true_iff, existsb_exists, forallb_forall. split.
    + intros [[y [Hy Hd]] Hall]. right; right. exists l. split; [done|]. split.
      * destruct y; try done. eexists. by apply list_elem_of_In.
      * intros z Hz%list_elem_of_In. specialize (Hall z Hz).
        destruct z; try done; eauto.
    + intros [[? [=]]|[[? [=]]|[l' [[= <-] [[h Hh] Hall]]]]]. split.
      * exists (PData h). split; [by apply list_elem_of_In | done].
      * intros z Hz%list_elem_of_In.
        destruct (Hall z Hz) as [[? ->]|[? ->]]; done.
Qed.

Lemma not_input_not_const x : is_input x = false -> is_ScalarConstant x = false.
Proof. by destruct x. Qed.

Lemma preprocess_loop_ok op_name dev schema inputs : forall idx0 s outs s',
  preprocess_loop op_name dev schema idx0 inputs s = (inr outs, s') ->
  length outs = length inputs /\
  instances s `prefix_of` instances s' /\
  datanodes s `prefix_of` datanodes s' /\
  length (instances s') =
    length (instances s) + length (filter (fun x => is_input x = false) inputs) /\
  pipeline s' = pipeline s /\
  (forall idx x, inputs !! idx = Some x -> is_input x = true -> outs !! idx = Some x) /\
  (forall idx x, inputs !! idx = Some x -> is_input x = false ->
     exists h d inst,
       outs !! idx = Some (PData h) /\
       datanodes s !! h = None /\ datanodes s' !! h = Some d /\
       instances s !! dn_source d = None /\ instances s' !! dn_source d = Some inst /\
       oi_op inst = Constant_op (resolve_input_device schema (idx0 + idx) dev) /\
       oi_outputs inst = [h] /\ oi_inputs inst = []).
Proof.
  induction inputs as [|x rest IH]; intros idx0 s outs s' Hrun; simpl in Hrun.
  - injection Hrun as <- <-. simpl.
    repeat split; try done; try lia; intros idx x; by rewrite lookup_nil.
  - destruct (is_input x) eqn:Hin; simpl in Hrun.
    + apply bind_ok_inv in Hrun as (y & s1 & Hy & Hrun). injection Hy as <- <-.
      apply bind_ok_inv in Hrun as (outs' & s2 & Hrest & Hret).
      injection Hret as <- <-.
      destruct (IH _ _ _ _ Hrest) as (Hlen & Hpi & Hpd & Hcount & Hpipe & Hkeep & Hconv).
      rewrite filter_cons_False by (unfold is_input in *; congruence).
      simpl. repeat split; try done; try lia.
      * intros [|idx] y; simpl; [by intros [= <-] | apply Hkeep].
      * intros [|idx] y; simpl; [intros [= <-]; congruence|].
        intros Hy Hn. destruct (Hconv idx y Hy Hn) as (h & d & inst & H).
        exists h, d, inst. by replace (idx0 + S idx) with (S idx0 + idx) by lia.
    + rewrite (not_input_not_const _ Hin) in Hrun. simpl in Hrun.
      unfold try_except in Hrun. unfold bind at 1 2 in Hrun.
      rewrite Constant_run in Hrun.
      destruct (constant_supported x); [|done].
      unfold ret at 1 in Hrun.
      apply bind_ok_inv in Hrun as (outs' & s2 & Hrest & Hret).
      injection Hret as <- <-.
      destruct (IH _ _ _ _ Hrest) as (Hlen & Hpi & Hpd & Hcount & Hpipe & Hkeep & Hconv).
      simpl in Hpi, Hpd, Hcount, Hpipe.
      rewrite filter_cons_True by done.
      simpl. rewrite length_app in Hcount. simpl in Hcount.
      repeat split; try done; try lia.
      * etrans; [|exact Hpi]. by apply prefix_app_r.
      * etrans; [|exact Hpd]. by apply prefix_app_r.
      * intros [|idx] y; simpl; [intros [= <-]; congruence | apply Hkeep].
      * intros [|idx] y; simpl.
        -- intros [= <-] _.
           exists (length (datanodes s)),
             (Constant_datanode (op_count s) (resolve_input_device schema idx0 dev)
                                (length (instances s))),
             (Constant_instance (op_count s) (resolve_input_device schema idx0 dev)
                                (length (datanodes s))).
           replace (idx0 + 0) with idx0 by lia.
           repeat split; try done.
           ++ apply lookup_ge_None_2. lia.
           ++ eapply prefix_lookup_Some; [|exact Hpd].
              by rewrite lookup_app_r, Nat.sub_diag by lia.
           ++ apply lookup_ge_None_2. simpl. lia.
           ++ eapply prefix_lookup_Some; [|exact Hpi]. simpl.
              by rewrite lookup_app_r, Nat.sub_diag by lia.
        -- intros Hy Hn. destruct (Hconv idx y Hy Hn)
             as (h & d & inst & Ho & Hd0 & Hd1 & Hi0 & Hi1 & Hrest').
           exists h, d, inst.
           replace (idx0 + S idx) with (S idx0 + idx) by lia.
           repeat split; try done; try tauto.
           ++ apply lookup_ge_None. apply lookup_ge_None in Hd0. simpl in Hd0.
              rewrite length_app in Hd0. lia.
           ++ apply lookup_ge_None. apply lookup_ge_None in Hi0. simpl in Hi0.
              rewrite length_app in Hi0. lia.
Qed.

Lemma preprocess_loop_total op_name dev schema inputs : forall idx0 s,
  (forall x, x ∈ inputs -> is_input x = false -> constant_supported x = true) ->
  exists outs s', preprocess_loop op_name dev schema idx0 inputs s = (inr outs, s').
Proof.
  induction inputs as [|x rest IH]; intros idx0 s Hsup; simpl; [by eauto|].
  assert (Hrest : forall y, y ∈ rest -> is_input y = false -> constant_supported y = true).
  { intros y Hy. apply Hsup. by right. }
  destruct (is_input x) eqn:Hin; simpl.
  - destruct (IH (S idx0) s Hrest) as (outs & s' & Hrun).
    exists (x :: outs), s'. unfold bind at 1, ret at 1. unfold bind. by rewrite Hrun.
  - rewrite (not_input_not_const _ Hin). simpl.
    unfold try_except, bind at 1 2. rewrite Constant_run.
    rewrite (Hsup x) by (done || left). unfold ret at 1.
    edestruct (IH (S idx0)) as (outs & s' & Hrun); [exact Hrest|].
    eexists _, s'. unfold bind. by rewrite Hrun.
Qed.

Lemma preprocess_loop_fails op_name dev schema inputs : forall idx0 s idx x,
  inputs !! idx = Some x -> is_input x = false -> constant_supported x = false ->
  (forall j y, j < idx -> inputs !! j = Some y -> is_input y = false ->
               constant_supported y = true) ->
  exists s',
    preprocess_loop op_name dev schema idx0 inputs s
      = (inl (TypeError (conversion_failed_msg op_name (idx0 + idx) x)), s') /\
    pipeline s' = pipeline s.
Proof.
  induction inputs as [|x0 rest IH]; intros idx0 s idx x Hx Hn Hu Hbefore.
  - by rewrite lookup_nil in Hx.
  - destruct idx as [|idx]; simpl in Hx.
    + injection Hx as ->. simpl. rewrite Hn. simpl.
      rewrite (not_input_not_const _ Hn). simpl.
      unfold try_except, bind at 1 2. rewrite Constant_run, Hu.
      replace (idx0 + 0) with idx0 by lia. by eauto.
    + assert (Hrest : forall j y, j < idx -> rest !! j = Some y -> is_input y = false ->
                                  constant_supported y = true).
      { intros j y Hj Hy. apply (Hbefore (S j)); [lia | done]. }
      simpl. destruct (is_input x0) eqn:Hin; simpl.
      * destruct (IH (S idx0) s idx x Hx Hn Hu Hrest) as (s' & Hrun & Hpipe).
        exists s'. split; [|done]. unfold bind at 1, ret at 1. unfold bind.
        rewrite Hrun. by replace (idx0 + S idx) with (S idx0 + idx) by lia.
      * rewrite (not_input_not_const _ Hin). simpl.
        unfold try_except, bind at 1 2. rewrite Constant_run.
        rewrite (Hbefore 0 x0) by (done || lia). unfold ret at 1.
        unfold bind.
        match goal with
        | |- context [preprocess_loop _ _ _ (S idx0) rest ?s1] =>
            destruct (IH (S idx0) s1 idx x Hx Hn Hu Hrest) as (s' & Hrun & Hpipe)
        end.
        exists s'. split; [|exact Hpipe].
        rewrite Hrun. by replace (idx0 + S idx) with (S idx0 + idx) by lia.
Qed.

Lemma resolve_input_device_resolved schema idx device :
  resolved_device schema idx device
    (resolve_input_device schema idx (if device =? "gpu" then "gpu" else "cpu")).
Proof.
  unfold resolve_input_device.
  assert (Hdef : names_no_device schema idx ->
                 resolved_device schema idx device (if device =? "gpu" then "gpu" else "cpu")).
  { intros Hno. destruct (String.eqb_spec device "gpu").
    - by apply device_default_gpu.
    - by apply device_default_cpu. }
  destruct schema as [sch|]; [|apply Hdef; by intros sch [=]].
  destruct (GetInputDevice sch idx) as [d|] eqn:Hd.
  - destruct (String.eqb_spec d "") as [->|Hne].
    + apply Hdef. intros sch' [= <-]. by right.
    + by eapply device_of_schema.
  - apply Hdef. intros sch' [= <-]. by left.
Qed.

Lemma detect_after_preprocess (inputs outs : list pyval) :
  length outs = length inputs ->
  (forall idx x, inputs !! idx = Some x -> is_input x = true -> outs !! idx = Some x) ->
  (forall idx x, inputs !! idx = Some x -> is_input x = false ->
     exists h, outs !! idx = Some (PData h)) ->
  _detect_multiple_input_sets outs = true <->
  exists l, PList l ∈ inputs /\ is_input (PList l) = true.
Proof.
  intros Hlen Hkeep Hconv. unfold _detect_multiple_input_sets.
  rewrite existsb_exists. split.
  - intros (y & Hy%list_elem_of_In & Hl).
    destruct y as [| | | |l| | |]; try done.
    apply list_elem_of_lookup in Hy as [idx Hidx].
    destruct (inputs !! idx) as [x|] eqn:Hx.
    + destruct (is_input x) eqn:Hin.
      * rewrite (Hkeep _ _ Hx Hin) in Hidx. injection Hidx as ->.
        exists l. split; [|done]. apply list_elem_of_lookup. eauto.
      * destruct (Hconv _ _ Hx Hin) as [h Hh]. congruence.
    + apply lookup_ge_None in Hx. apply lookup_lt_Some in Hidx. lia.
  - intros (l & Hl & Hin). apply list_elem_of_lookup in Hl as [idx Hidx].
    exists (PList l). split; [|done].
    apply list_elem_of_In, list_elem_of_lookup. exists idx. by apply Hkeep.
Qed.

(** C10: [is_input] holds exactly of a handle, a scalar-constant wrapper
    or a list with a handle in it whose elements are all handles or
    wrappers.  When every other positional value can become a constant,
    [_preprocess_inputs] returns: a data input stands unchanged at its
    position; any other value, a tuple of handles and a list of literals
    among them, stands replaced by the handle of one new constant node on
    the device the schema names for the position, or else on "gpu" for an
    operator on "gpu" and on "cpu" for any other; the instance heap grows
    by one node per such value; a list is found afterwards only where the
    caller passed a list that is a data input, and without one the input
    sets are the one tuple of the preprocessed inputs.  When a value that
    is not a data input cannot become a constant, and the ones before it
    can, [_preprocess_inputs] raises the TypeError that names its position
    and type, and so does the call once the input count is accepted. *)
Theorem preprocess_inputs_data_inputs name device schema (inputs : list pyval) s :
  (forall x, is_input x = true <-> data_input x) /\
  ((forall x, x ∈ inputs -> is_input x = false -> constant_supported x = true) ->
   exists outs s',
     _preprocess_inputs inputs name device schema s = (inr outs, s') /\
     length outs = length inputs /\
     (forall idx x, inputs !! idx = Some x -> data_input x -> outs !! idx = Some x) /\
     (forall idx x, inputs !! idx = Some x -> ~ data_input x ->
        exists h d inst dev,
          outs !! idx = Some (PData h) /\
          datanodes s !! h = None /\ datanodes s' !! h = Some d /\
          instances s !! dn_source d = None /\ instances s' !! dn_source d = Some inst /\
          resolved_device schema idx device dev /\
          oi_op inst = Constant_op dev /\
          oi_outputs inst = [h] /\ oi_inputs inst = []) /\
     length (instances s') =
       length (instances s) + length (filter (fun x => is_input x = false) inputs) /\
     (_detect_multiple_input_sets outs = true <->
      exists l, PList l ∈ inputs /\ data_input (PList l)) /\
     (forall op, (forall l, PList l ∈ inputs -> ~ data_input (PList l)) ->
                 _build_input_sets op outs = inr [outs])) /\
  (forall idx x,
     inputs !! idx = Some x -> ~ data_input x -> constant_supported x = false ->
     (forall j y, j < idx -> inputs !! j = Some y -> ~ data_input y ->
                  constant_supported y = true) ->
     (exists s',
        _preprocess_inputs inputs name device schema s
          = (inl (TypeError (conversion_failed_msg name idx x)), s')) /\
     (forall cond op kwargs,
        name = op_name op -> device = op_device op ->
        schema = Some (op_schema op) ->
        _check_schema_num_inputs op inputs = inr tt ->
        exists s',
          Operator_call cond op inputs kwargs s
            = (inl (TypeError (conversion_failed_msg name idx x)), s'))).
Proof.
  assert (Hnot : forall x, ~ data_input x <-> is_input x = false).
  { intros x. rewrite <- is_input_data_input. by destruct (is_input x). }
  split; [apply is_input_data_input|]. split.
  - intros Hsup. unfold _preprocess_inputs.
    destruct (preprocess_loop_total name (if device =? "gpu" then "gpu" else "cpu")
                schema inputs 0 s Hsup) as (outs & s' & Hrun).
    exists outs, s'. split; [done|].
    destruct (preprocess_loop_ok _ _ _ _ _ _ _ _ Hrun)
      as (Hlen & _ & _ & Hcount & _ & Hkeep & Hconv).
    assert (Hdet : _detect_multiple_input_sets outs = true <->
                   exists l, PList l ∈ inputs /\ data_input (PList l)).
    { rewrite detect_after_preprocess; [|done..|].
      - split; intros (l & Hl & Hd); exists l; split; try done;
          by apply is_input_data_input.
      - intros idx x Hx Hn. destruct (Hconv idx x Hx Hn) as (h & _ & _ & Hh & _). eauto. }
    split_and!; try done.
    + intros idx x Hx Hd. apply Hkeep; [done|]. by apply is_input_data_input.
    + intros idx x Hx Hd%Hnot.
      destruct (Hconv idx x Hx Hd)
        as (h & d & inst & Ho & Hd0 & Hd1 & Hi0 & Hi1 & Hop & Houts & Hins).
      exists h, d, inst, (resolve_input_device schema idx
                            (if device =? "gpu" then "gpu" else "cpu")).
      split_and!; try done. apply resolve_input_device_resolved.
    + intros op Hnone. unfold _build_input_sets.
      destruct (_detect_multiple_input_sets outs); [|done].
      destruct Hdet as [Hdet _]. destruct (Hdet eq_refl) as (l & Hl & Hdl).
      by destruct (Hnone l Hl).
  - intros idx x Hx Hd%Hnot Hu Hbefore.
    assert (Hbefore' : forall j y, j < idx -> inputs !! j = Some y -> is_input y = false ->
                                   constant_supported y = true).
    { intros j y Hj Hy Hn. apply (Hbefore j y Hj Hy). by apply Hnot. }
    split.
    + unfold _preprocess_inputs.
      destruct (preprocess_loop_fails name (if device =? "gpu" then "gpu" else "cpu")
                  schema inputs 0 s idx x Hx Hd Hu Hbefore') as (s' & Hrun & _).
      by eauto.
    + intros cond op kwargs -> -> -> Hnum.
      destruct (preprocess_loop_fails (op_name op)
                  (if op_device op =? "gpu" then "gpu" else "cpu")
                  (Some (op_schema op)) inputs 0 s idx x Hx Hd Hu Hbefore')
        as (s' & Hrun & _).
      exists s'. unfold Operator_call, Operator_call_instances.
      rewrite Hnum. simpl. unfold bind at 1 2 3, ret at 1.
      unfold _preprocess_inputs. by rewrite Hrun.
Qed.

(** ** Length agreement of the argument lists *)

Lemma foldl_max_ge (l : list nat) : forall x,
  x <= foldl Nat.max x l /\ forall y, y ∈ l -> y <= foldl Nat.max x l.
Proof.
  induction l as [|z l IH]; intros x; simpl.
  - split; [lia|]. intros y Hy. by apply elem_of_nil in Hy.
  - destruct (IH (Nat.max x z)) as [H1 H2]. split; [lia|].
    intros y [->|Hy]%elem_of_cons; [lia | by apply H2].
Qed.

Lemma py_max_ge (l : list nat) y :
  y ∈ l -> exists m, py_max l = inr m /\ forall z, z ∈ l -> z <= m.
Proof.
  destruct l as [|x r]; [intros H; by apply elem_of_nil in H|]. intros _.
  exists (foldl Nat.max x r). split; [done|].
  destruct (foldl_max_ge r x) as [H1 H2].
  intros z [->|Hz]%elem_of_cons; [done | by apply H2].
Qed.

Lemma check_lengths_mismatch op_name m (inputs : list pyval) l :
  PList l ∈ inputs -> length l <> m ->
  check_lengths op_name m inputs = inl (ValueError (length_mismatch_msg op_name)).
Proof.
  intros Hin Hne. induction inputs as [|x rest IH]; [by apply elem_of_nil in Hin|].
  apply elem_of_cons in Hin as [<-|Hin]; simpl.
  - by destruct (Nat.eqb_spec (length l) m).
  - destruct x; try by apply IH.
    destruct (Nat.eqb (length _) m); [by apply IH | done].
Qed.

Lemma check_common_length_mismatch op_name (inputs : list pyval) l1 l2 :
  PList l1 ∈ inputs -> PList l2 ∈ inputs -> length l1 <> length l2 ->
  _check_common_length op_name inputs = inl (ValueError (length_mismatch_msg op_name)).
Proof.
  intros H1 H2 Hne. unfold _check_common_length.
  destruct (py_max_ge (map _safe_len inputs) (length l1)) as (m & -> & Hm).
  { apply (list_elem_of_fmap_2 _safe_len) in H1. exact H1. }
  destruct (decide (length l1 = m)) as [E|E].
  - rewrite (check_lengths_mismatch op_name m inputs l2); [done..|lia].
  - by rewrite (check_lengths_mismatch op_name m inputs l1).
Qed.

Lemma preprocess_loop_inputs op_name dev schema inputs : forall idx0 s,
  (forall x, x ∈ inputs -> is_input x = true) ->
  preprocess_loop op_name dev schema idx0 inputs s = (inr inputs, s).
Proof.
  induction inputs as [|x rest IH]; intros idx0 s Hall; simpl; [done|].
  rewrite (Hall x) by left. simpl. unfold bind at 1, ret at 1. unfold bind.
  rewrite IH; [done|]. intros y Hy. apply Hall. by right.
Qed.

Lemma preprocess_keeps_list op_name dev schema (inputs outs : list pyval) idx0 s s' l :
  preprocess_loop op_name dev schema idx0 inputs s = (inr outs, s') ->
  PList l ∈ inputs -> is_input (PList l) = true -> PList l ∈ outs.
Proof.
  intros Hrun Hin Hl.
  destruct (preprocess_loop_ok _ _ _ _ _ _ _ _ Hrun) as (_ & _ & _ & _ & _ & Hkeep & _).
  apply list_elem_of_lookup in Hin as [idx Hidx].
  apply list_elem_of_lookup. exists idx. by apply Hkeep.
Qed.

(** C2, as the code has it: when the positional inputs pass the input
    count check, hold two fan-out lists of different lengths, and every
    value that is not a data input can become a constant, the call fails
    with the ValueError whose message names the operator.  The state it
    leaves is the one input preprocessing left: no instance of the called
    operator exists, the instance heap has grown by the constant nodes of
    the promoted literals only, and nothing changed at all when every
    positional input is a data input. *)
Theorem call_length_mismatch cond op (inputs : list pyval) kwargs s l1 l2 :
  _check_schema_num_inputs op inputs = inr tt ->
  PList l1 ∈ inputs -> is_input (PList l1) = true ->
  PList l2 ∈ inputs -> is_input (PList l2) = true ->
  length l1 <> length l2 ->
  (forall x, x ∈ inputs -> is_input x = false -> constant_supported x = true) ->
  exists outs s1,
    _preprocess_inputs inputs (op_name op) (op_device op) (Some (op_schema op)) s
      = (inr outs, s1) /\
    Operator_call cond op inputs kwargs s
      = (inl (ValueError (length_mismatch_msg (op_name op))), s1) /\
    length (instances s1) =
      length (instances s) + length (filter (fun x => is_input x = false) inputs) /\
    pipeline s1 = pipeline s /\
    ((forall x, x ∈ inputs -> is_input x = true) -> s1 = s).
Proof.
  intros Hnum H1 Hi1 H2 Hi2 Hne Hsup.
  unfold _preprocess_inputs.
  destruct (preprocess_loop_total (op_name op)
              (if op_device op =? "gpu" then "gpu" else "cpu")
              (Some (op_schema op)) inputs 0 s Hsup) as (outs & s1 & Hrun).
  exists outs, s1. split; [done|].
  destruct (preprocess_loop_ok _ _ _ _ _ _ _ _ Hrun)
    as (_ & _ & _ & Hcount & Hpipe & _ & _).
  split; [|split; [done|split; [done|]]].
  - unfold Operator_call, Operator_call_instances.
    rewrite Hnum. simpl.
    unfold bind at 1 2 3. unfold ret at 1. unfold _preprocess_inputs. rewrite Hrun.
    unfold _build_input_sets.
    assert (Hdet : _detect_multiple_input_sets outs = true).
    { unfold _detect_multiple_input_sets. apply existsb_exists.
      exists (PList l1). split; [|done].
      apply list_elem_of_In. by eapply preprocess_keeps_list. }
    rewrite Hdet.
    rewrite (check_common_length_mismatch _ outs l1 l2);
      [done | by eapply preprocess_keeps_list.. | done].
  - intros Hall. rewrite preprocess_loop_inputs in Hrun by done. congruence.
Qed.

(** ** Deprecated construction-time arguments *)

Lemma dict_get_is_Some_keys {V} (d : dict V) k :
  is_Some (dict_get d k) <-> k ∈ dict_keys d.
Proof.
  rewrite <- dict_mem_keys. unfold dict_mem.
  destruct (dict_get d k).
  - split; [done | by eauto].
  - split; [by intros [? [=]] | done].
Qed.





Lemma backend_call_inr spec c spec' :
  backend_call spec c = inr spec' -> spec_rejects spec c = None /\ spec' = record_call spec c.
Proof. unfold backend_call. destruct (spec_rejects spec c); [done|]. by intros [= <-]. Qed.

Lemma backend_call_accepted spec c :
  spec_rejects spec c = None -> backend_call spec c = inr (record_call spec c).
Proof. unfold backend_call. by intros ->. Qed.












Lemma Operator_init_unfold name schema_name schema device kwargs s :
  Operator_init name schema_name schema device kwargs s =
  match AddArg (mkOpSpec schema_name [] [] [] []) "device" (PStr device) with
  | inl e => (inl e, s)
  | inr spec0 =>
      match check_call_args schema name (dict_keys (snd (_separate_kwargs kwargs))) with
      | inl e => (inl e, s)
      | inr _ =>
          match AddArg spec0 "preserve" (preserve_arg kwargs) with
          | inl e => (inl e, s)
          | inr spec1 =>
              match deprecated_args_loop name schema
                      (dict_keys (supplied_construction_args kwargs))
                      (supplied_construction_args kwargs) s with
              | (inl e, s1) => (inl e, s1)
              | (inr kwargs3, s1) =>
                  match _add_spec_args schema spec1 kwargs3 with
                  | inl e => (inl e, s1)
                  | inr spec2 =>
                      (inr (mkOperator name schema spec2 device
                              (snd (_separate_kwargs kwargs))
                              (truthy (preserve_arg kwargs) || IsNoPrune schema)), s1)
                  end
              end
          end
      end
  end.
Proof.
  unfold Operator_init, supplied_construction_args, preserve_arg.
  destruct (AddArg _ "device" _) as [e|spec0]; [done|].
  simpl. unfold bind at 1, ret at 1.
  destruct (_separate_kwargs kwargs) as [kwargs1 call_args]. simpl.
  destruct (check_call_args schema name (dict_keys call_args)) as [e|[]]; [done|].
  simpl. unfold bind at 1. unfold ret at 1.
  destruct (dict_get kwargs1 "preserve") as [v|];
    (destruct (AddArg spec0 "preserve" _) as [e|spec1]; [done|]);
    simpl; unfold bind at 1, ret at 1; unfold bind;
    (destruct (deprecated_args_loop _ _ _ _ s) as [[e|kwargs3] s1]; [done|]);
    by destruct (_add_spec_args _ _ kwargs3).
Qed.




Lemma dict_elem_get_Some {V} (d : dict V) k v :
  (k, v) ∈ d -> is_Some (dict_get d k).
Proof.
  intros Hin. apply dict_get_is_Some_keys.
  apply (list_elem_of_fmap_2 fst) in Hin. exact Hin.
Qed.









(** ** Relations between the state before and after a computation *)

Definition pres {A} (R : state -> state -> Prop) (m : M A) : Prop :=
  forall s, R s (m s).2.

Lemma pres_ret {A} R `{!Reflexive R} (x : A) : pres R (ret x).
Proof. intros s. simpl. reflexivity. Qed.

Lemma pres_raise {A} R `{!Reflexive R} e : pres R (@raise A e).
Proof. intros s. simpl. reflexivity. Qed.

Lemma pres_lift {A} R `{!Reflexive R} (r : exn + A) : pres R (lift r).
Proof. destruct r; [apply pres_raise | apply pres_ret]; done. Qed.

Lemma pres_bind {A B} R `{!Transitive R} (m : M A) (f : A -> M B) :
  pres R m -> (forall x, pres R (f x)) -> pres R (bind m f).
Proof.
  intros Hm Hf s. unfold bind. specialize (Hm s).
  destruct (m s) as [[e|x] s1]; simpl in *; [done|].
  etrans; [exact Hm | apply Hf].
Qed.

Lemma pres_try_except {A} R (m : M A) e : pres R m -> pres R (try_except m e).
Proof.
  intros Hm s. unfold try_except. specialize (Hm s).
  by destruct (m s) as [[e'|x] s1].
Qed.

Lemma pres_get_instance R `{!Reflexive R} a : pres R (get_instance a).
Proof. intros s. simpl. reflexivity. Qed.

Lemma pres_get_datanode R `{!Reflexive R} h : pres R (get_datanode h).
Proof. intros s. simpl. reflexivity. Qed.

Lemma pres_Pipeline_current R `{!Reflexive R} : pres R Pipeline_current.
Proof. intros s. simpl. reflexivity. Qed.

(** The pipeline and its sinks are left alone. *)
Definition same_pipeline (s s' : state) : Prop := pipeline s' = pipeline s.

Local Instance same_pipeline_preorder : PreOrder same_pipeline.
Proof.
  split; [intros s; reflexivity | intros s1 s2 s3; unfold same_pipeline; congruence].
Qed.

(** The first [n] instances are left alone. *)
Definition keeps_below (n : nat) (s s' : state) : Prop :=
  n <= length (instances s) ->
  take n (instances s') = take n (instances s) /\ n <= length (instances s').

Local Instance keeps_below_preorder n : PreOrder (keeps_below n).
Proof.
  split; [by intros s Hn | intros s1 s2 s3 H12 H23 Hn].
  destruct (H12 Hn) as [E1 Hn1]. destruct (H23 Hn1) as [E2 Hn2].
  split; [congruence | done].
Qed.

(** Data nodes are only added. *)
Definition datanodes_grow (s s' : state) : Prop :=
  datanodes s `prefix_of` datanodes s'.

Local Instance datanodes_grow_preorder : PreOrder datanodes_grow.
Proof.
  split; [intros s; unfold datanodes_grow; reflexivity
        | intros s1 s2 s3; unfold datanodes_grow; by etrans].
Qed.

(** Node ids: every instance present keeps its id and relation id, and
    the instances added carry the counter values taken in between, in
    order, each as its own relation id. *)
Definition fresh_from (lo : nat) (new : list OperatorInstance) (hi : nat) : Prop :=
  (forall k x, new !! k = Some x ->
     lo <= oi_counter x < hi /\ oi_relation_id x = oi_counter x) /\
  (forall j k x y, j < k -> new !! j = Some x -> new !! k = Some y ->
     oi_counter x < oi_counter y).

Definition ids_kept (old old' : list OperatorInstance) : Prop :=
  length old' = length old /\
  forall a x, old !! a = Some x ->
    exists x', old' !! a = Some x' /\ oi_counter x' = oi_counter x /\
               oi_relation_id x' = oi_relation_id x.

Definition steps (s s' : state) : Prop :=
  op_count s <= op_count s' /\
  exists old' new,
    instances s' = old' ++ new /\
    ids_kept (instances s) old' /\
    fresh_from (op_count s) new (op_count s').

Lemma ids_kept_refl l : ids_kept l l.
Proof. split; [done|]. intros a x Hx. by exists x. Qed.

Lemma ids_kept_trans l1 l2 l3 : ids_kept l1 l2 -> ids_kept l2 l3 -> ids_kept l1 l3.
Proof.
  intros [L12 H12] [L23 H23]. split; [congruence|].
  intros a x Hx. destruct (H12 a x Hx) as (x' & Hx' & E1 & E2).
  destruct (H23 a x' Hx') as (x'' & Hx'' & E3 & E4).
  exists x''. split_and!; [done|congruence..].
Qed.

Lemma fresh_from_nil lo hi : fresh_from lo [] hi.
Proof. split; intros; by rewrite lookup_nil in *. Qed.

Lemma fresh_from_app lo mid hi new1 new2 :
  lo <= mid -> mid <= hi ->
  fresh_from lo new1 mid -> fresh_from mid new2 hi ->
  fresh_from lo (new1 ++ new2) hi.
Proof.
  intros Hlm Hmh [B1 O1] [B2 O2]. split.
  - intros k x Hx. apply lookup_app_Some in Hx as [Hx|[_ Hx]].
    + destruct (B1 k x Hx). split; [lia | done].
    + destruct (B2 _ x Hx). split; [lia | done].
  - intros j k x y Hjk Hx Hy.
    apply lookup_app_Some in Hx as [Hx|[Hj Hx]];
      apply lookup_app_Some in Hy as [Hy|[Hk Hy]].
    + by eapply O1.
    + destruct (B1 _ _ Hx), (B2 _ _ Hy). lia.
    + apply lookup_lt_Some in Hy. lia.
    + eapply (O2 (j - length new1) (k - length new1)); [lia | done..].
Qed.

Lemma fresh_from_kept lo hi new new' :
  ids_kept new new' -> fresh_from lo new hi -> fresh_from lo new' hi.
Proof.
  intros [Hlen Hk] [B O].
  assert (Hback : forall a x', new' !! a = Some x' ->
            exists x, new !! a = Some x /\ oi_counter x' = oi_counter x /\
                      oi_relation_id x' = oi_relation_id x).
  { intros a x' Hx'. destruct (new !! a) as [x|] eqn:Hx.
    - destruct (Hk a x Hx) as (x'' & Hx'' & E1 & E2). exists x.
      replace x' with x'' by congruence. done.
    - apply lookup_ge_None in Hx. apply lookup_lt_Some in Hx'. lia. }
  split.
  - intros k x' Hx'. destruct (Hback k x' Hx') as (x & Hx & E1 & E2).
    destruct (B k x Hx). split; [lia | congruence].
  - intros j k x' y' Hjk Hx' Hy'.
    destruct (Hback j x' Hx') as (x & Hx & E1 & _).
    destruct (Hback k y' Hy') as (y & Hy & E2 & _).
    pose proof (O j k x y Hjk Hx Hy). lia.
Qed.

Lemma ids_kept_app_inv l l1 l2 :
  ids_kept (l1 ++ l2) l ->
  exists l1' l2', l = l1' ++ l2' /\ ids_kept l1 l1' /\ ids_kept l2 l2'.
Proof.
  intros [Hlen Hk]. rewrite length_app in Hlen.
  exists (take (length l1) l), (drop (length l1) l).
  split; [by rewrite take_drop|]. split; split.
  - rewrite length_take. lia.
  - intros a x Hx. destruct (Hk a x) as (x' & Hx' & E); [by apply lookup_app_l_Some|].
    exists x'. split; [|done]. rewrite lookup_take_lt; [done|].
    by apply lookup_lt_Some in Hx.
  - rewrite length_drop. lia.
  - intros a x Hx. destruct (Hk (length l1 + a) x) as (x' & Hx' & E).
    { rewrite lookup_app_r by lia. by replace (length l1 + a - length l1) with a by lia. }
    exists x'. split; [|done]. by rewrite lookup_drop.
Qed.

Lemma ids_kept_app l1 l1' l2 l2' :
  ids_kept l1 l1' -> ids_kept l2 l2' -> ids_kept (l1 ++ l2) (l1' ++ l2').
Proof.
  intros [L1 H1] [L2 H2]. split; [rewrite !length_app; lia|].
  intros a x Hx. apply lookup_app_Some in Hx as [Hx|[Ha Hx]].
  - destruct (H1 a x Hx) as (x' & Hx' & E). exists x'. split; [|done].
    by apply lookup_app_l_Some.
  - destruct (H2 _ x Hx) as (x' & Hx' & E). exists x'. split; [|done].
    rewrite lookup_app_r by lia. by rewrite L1.
Qed.

Local Instance steps_preorder : PreOrder steps.
Proof.
  split.
  - intros s. split; [done|]. exists (instances s), [].
    split; [by rewrite app_nil_r|]. split; [apply ids_kept_refl | apply fresh_from_nil].
  - intros s1 s2 s3 (C12 & old2 & new2 & E2 & K2 & F2) (C23 & old3 & new3 & E3 & K3 & F3).
    split; [lia|]. rewrite E2 in K3.
    destruct (ids_kept_app_inv _ _ _ K3) as (o & n & -> & Ko & Kn).
    exists o, (n ++ new3). split; [by rewrite E3, <- app_assoc|].
    split; [by eapply ids_kept_trans|].
    eapply fresh_from_app; [exact C12 | exact C23 | | done].
    by eapply fresh_from_kept.
Qed.

(** [grows]: ids as in [steps], data nodes only added, sinks untouched.
    [evolves] drops the last part. *)
Definition evolves (s s' : state) : Prop := steps s s' /\ datanodes_grow s s'.
Definition grows (s s' : state) : Prop := evolves s s' /\ same_pipeline s s'.

Local Instance evolves_preorder : PreOrder evolves.
Proof.
  split.
  - intros s. split; reflexivity.
  - intros s1 s2 s3 [A1 B1] [A2 B2]. split; by etrans.
Qed.

Local Instance grows_preorder : PreOrder grows.
Proof.
  split.
  - intros s. split; reflexivity.
  - intros s1 s2 s3 [A1 B1] [A2 B2]. split; by etrans.
Qed.

Lemma grows_evolves {A} (m : M A) : pres grows m -> pres evolves m.
Proof. intros H s. apply H. Qed.

Ltac pres_step :=
  lazymatch goal with
  | |- pres _ (bind _ _) => apply pres_bind; [typeclasses eauto | | intros ?]
  | |- pres _ (ret _) => apply pres_ret; typeclasses eauto
  | |- pres _ (raise _) => apply pres_raise; typeclasses eauto
  | |- pres _ (lift _) => apply pres_lift; typeclasses eauto
  | |- pres _ (try_except _ _) => apply pres_try_except
  | |- pres _ (get_instance _) => apply pres_get_instance; typeclasses eauto
  | |- pres _ (get_datanode _) => apply pres_get_datanode; typeclasses eauto
  | |- pres _ Pipeline_current => apply pres_Pipeline_current; typeclasses eauto
  | |- pres _ (if ?b then _ else _) => destruct b
  | |- pres _ (match ?x with _ => _ end) => destruct x
  end.

Ltac same_fields := unfold datanodes_grow, same_pipeline; simpl; reflexivity.

Definition keeps_ids (f : OperatorInstance -> OperatorInstance) : Prop :=
  forall i, oi_counter (f i) = oi_counter i /\ oi_relation_id (f i) = oi_relation_id i.

Lemma ids_kept_alter f a l : keeps_ids f -> ids_kept l (alter f a l).
Proof.
  intros Hf. split; [by rewrite length_alter|].
  intros b x Hx. destruct (decide (a = b)) as [->|Hne].
  - exists (f x). rewrite list_lookup_alter_eq, Hx. split; [done | apply Hf].
  - exists x. by rewrite list_lookup_alter_ne.
Qed.

Lemma steps_same_instances s s' :
  op_count s <= op_count s' -> ids_kept (instances s) (instances s') -> steps s s'.
Proof.
  intros Hc Hk. split; [done|]. exists (instances s'), [].
  split; [by rewrite app_nil_r|]. split; [done | apply fresh_from_nil].
Qed.

Lemma grows_update_instance a f : keeps_ids f -> pres grows (update_instance a f).
Proof.
  intros Hf s. simpl. split; [split|]; [|same_fields..].
  apply steps_same_instances; [simpl; lia | by apply ids_kept_alter].
Qed.

Lemma grows_new_DataNode n d a : pres grows (new_DataNode n d a).
Proof.
  intros s. simpl. split; [split|]; [| |same_fields].
  - apply steps_same_instances; [simpl; lia | apply ids_kept_refl].
  - unfold datanodes_grow. simpl. by apply prefix_app_r.
Qed.

Lemma grows_warn m : pres grows (warn m).
Proof.
  intros s. simpl. split; [split|]; [|same_fields..].
  apply steps_same_instances; [simpl; lia | apply ids_kept_refl].
Qed.

Lemma evolves_add_sink t : pres evolves (add_sink t).
Proof.
  intros s. unfold add_sink. destruct (pipeline s); simpl; [|reflexivity].
  split; [|same_fields].
  apply steps_same_instances; [simpl; lia | apply ids_kept_refl].
Qed.

(** Taking a counter value for a new object, as both [Constant] and
    [_OperatorInstance.__init__] begin. *)
Lemma grows_fresh_instance (s : state) (i : OperatorInstance) d :
  oi_counter i = op_count s -> oi_relation_id i = op_count s ->
  grows s (mkState (S (op_count s)) (instances s ++ [i]) (datanodes s ++ d)
                   (pipeline s) (warnings s)).
Proof.
  intros Hc Hr. split; [split|];
    [| unfold datanodes_grow; simpl; by apply prefix_app_r | same_fields].
  split; [simpl; lia|]. exists (instances s), [i]. simpl.
  split; [done|]. split; [apply ids_kept_refl|]. split.
  - intros [|k] x; simpl; [|by rewrite lookup_nil]. intros [= <-]. lia.
  - intros j [|k] x y Hjk; [lia|]. simpl. by rewrite lookup_nil.
Qed.

Lemma grows_alloc (s : state) (i : OperatorInstance) :
  oi_counter i = op_count s -> oi_relation_id i = op_count s ->
  grows s (mkState (S (op_count s)) (instances s ++ [i]) (datanodes s)
                   (pipeline s) (warnings s)).
Proof.
  intros Hc Hr. pose proof (grows_fresh_instance s i [] Hc Hr) as H.
  by rewrite app_nil_r in H.
Qed.

Lemma keeps_ids_push_output t : keeps_ids (push_output t).
Proof. by intros i. Qed.
Lemma keeps_ids_set_spec sp : keeps_ids (set_spec sp).
Proof. by intros i. Qed.
Lemma keeps_ids_set_inputs ins : keeps_ids (set_inputs ins).
Proof. by intros i. Qed.
Lemma keeps_ids_set_name n : keeps_ids (set_name n).
Proof. by intros i. Qed.

Lemma grows_Constant value device : pres grows (Constant value device).
Proof.
  intros s. rewrite Constant_run. destruct (constant_supported value); simpl;
    [|reflexivity].
  by apply grows_fresh_instance.
Qed.

Lemma grows_instantiate_constant_node device c :
  pres grows (_instantiate_constant_node device c).
Proof. apply grows_Constant. Qed.

Lemma grows_instantiate_inputs dev inputs : pres grows (instantiate_inputs dev inputs).
Proof.
  induction inputs as [|x rest IH]; simpl; repeat pres_step;
    try apply grows_instantiate_constant_node; try done.
Qed.

Lemma grows_add_inputs inputs : forall spec, pres grows (add_inputs spec inputs).
Proof.
  induction inputs as [|x rest IH]; intros spec; simpl; repeat pres_step; try done.
Qed.

Lemma grows_argument_inputs op call_args keys :
  forall spec inputs, pres grows (argument_inputs op call_args keys spec inputs).
Proof.
  induction keys as [|k rest IH]; intros spec inputs; simpl; repeat pres_step;
    try apply grows_instantiate_constant_node; try apply grows_Constant; try done.
Qed.

Lemma grows_instance_deprecation_warning op : pres grows (instance_deprecation_warning op).
Proof.
  unfold instance_deprecation_warning. repeat pres_step. apply grows_warn.
Qed.

Lemma grows_OperatorInstance_init cond inputs op kwargs :
  pres grows (OperatorInstance_init cond inputs op kwargs).
Proof.
  intros s. unfold OperatorInstance_init.
  destruct (List.find is_init_parameter (dict_keys kwargs)) as [k|]; [reflexivity|].
  unfold bind at 1, ret at 1. unfold bind at 1 2. simpl.
  match goal with
  | |- grows _ (?m ?s1).2 =>
      trans s1; [by apply grows_alloc | generalize s1; change (pres grows m)]
  end.
  pres_step; [apply grows_instantiate_inputs|].
  destruct (match cond with Some hook => _ | None => _ end) as [inputs2 kwargs2].
  pres_step; [apply grows_update_instance, keeps_ids_set_inputs|].
  destruct (_separate_kwargs kwargs2) as [spec_args kwargs3].
  repeat (pres_step; try apply grows_add_inputs; try apply grows_argument_inputs;
          try apply grows_instance_deprecation_warning;
          try (apply grows_update_instance; by intros i)).
Qed.

Lemma grows_preprocess_loop op_name dev schema inputs :
  forall idx, pres grows (preprocess_loop op_name dev schema idx inputs).
Proof.
  induction inputs as [|x rest IH]; intros idx; simpl; repeat pres_step;
    try apply grows_instantiate_constant_node; try apply grows_Constant; try done.
Qed.

Lemma grows_spec_AddOutput self t_name dev : pres grows (spec_AddOutput self t_name dev).
Proof.
  unfold spec_AddOutput. repeat pres_step.
  apply grows_update_instance, keeps_ids_set_spec.
Qed.

Lemma evolves_generate_outputs_loop self preserve name dev n idxs :
  pres evolves (generate_outputs_loop self preserve name dev n idxs).
Proof.
  induction idxs as [|i rest IH]; simpl; repeat pres_step; try done;
    try apply evolves_add_sink;
    try (apply grows_evolves, grows_spec_AddOutput);
    try (apply grows_evolves, grows_new_DataNode);
    try (apply grows_evolves, grows_update_instance; by intros ?).
Qed.

Lemma evolves_generate_outputs self : pres evolves (generate_outputs self).
Proof.
  unfold generate_outputs. repeat pres_step;
    try apply evolves_generate_outputs_loop; try apply evolves_add_sink;
    try (apply grows_evolves, grows_new_DataNode).
Qed.

Lemma evolves_create_instances cond op kwargs input_sets :
  pres evolves (create_instances cond op kwargs input_sets).
Proof.
  induction input_sets as [|x rest IH]; simpl; repeat pres_step; try done;
    try apply evolves_generate_outputs;
    try apply grows_evolves, grows_OperatorInstance_init.
Qed.
(** ** Constant nodes are only added *)

Definition appends (s s' : state) : Prop :=
  exists new, instances s' = instances s ++ new /\ Forall is_constant_node new.

Local Instance appends_preorder : PreOrder appends.
Proof.
  split.
  - intros s. exists []. by rewrite app_nil_r.
  - intros s1 s2 s3 (n1 & E1 & H1) (n2 & E2 & H2). exists (n1 ++ n2).
    rewrite E2, E1, <- app_assoc. split; [done | by apply Forall_app].
Qed.

Lemma appends_Constant value device : pres appends (Constant value device).
Proof.
  intros s. rewrite Constant_run. destruct (constant_supported value); simpl.
  - eexists. split; [done|]. apply Forall_singleton. by exists device.
  - reflexivity.
Qed.

Lemma appends_warn m : pres appends (warn m).
Proof. intros s. exists []. simpl. by rewrite app_nil_r. Qed.

Lemma appends_instantiate_inputs dev inputs : pres appends (instantiate_inputs dev inputs).
Proof.
  induction inputs as [|x rest IH]; simpl; repeat pres_step;
    try apply appends_Constant; try done.
Qed.

Lemma appends_argument_inputs op call_args keys :
  forall spec inputs, pres appends (argument_inputs op call_args keys spec inputs).
Proof.
  induction keys as [|k rest IH]; intros spec inputs; simpl; repeat pres_step;
    try apply appends_Constant; try done.
Qed.

Lemma appends_instance_deprecation_warning op :
  pres appends (instance_deprecation_warning op).
Proof.
  unfold instance_deprecation_warning. repeat pres_step. apply appends_warn.
Qed.

Lemma add_inputs_state inputs : forall spec s, (add_inputs spec inputs s).2 = s.
Proof.
  induction inputs as [|x rest IH]; intros spec s; simpl; [done|].
  destruct x; try done. unfold bind, get_datanode.
  destruct (AddInput spec _ _) as [e|spec']; simpl; [done | apply IH].
Qed.

Lemma alter_middle {A} (f : A -> A) (l : list A) x r :
  alter f (length l) (l ++ x :: r) = l ++ f x :: r.
Proof.
  replace (length l) with (length l + 0) by lia.
  by rewrite (alter_app_r f l (x :: r) 0).
Qed.

Lemma update_instance_run a f s :
  update_instance a f s =
  (inr tt, mkState (op_count s) (alter f a (instances s)) (datanodes s)
                   (pipeline s) (warnings s)).
Proof. done. Qed.

Lemma lift_ok_inv {A} (r : exn + A) s x s' :
  lift r s = (inr x, s') -> r = inr x /\ s' = s.
Proof. destruct r; simpl; [done|]. by intros [= -> ->]. Qed.

(** ** [_OperatorInstance.__init__]: what a successful run leaves *)

Lemma init_unbound cond inputs op kwargs s a s' :
  OperatorInstance_init cond inputs op kwargs s = (inr a, s') ->
  List.find is_init_parameter (dict_keys kwargs) = None.
Proof.
  unfold OperatorInstance_init.
  by destruct (List.find is_init_parameter (dict_keys kwargs)).
Qed.

Lemma init_bound cond inputs op kwargs s k :
  List.find is_init_parameter (dict_keys kwargs) = Some k ->
  OperatorInstance_init cond inputs op kwargs s = (inl (TypeError (multiple_values_msg k)), s).
Proof. unfold OperatorInstance_init. by intros ->. Qed.

Lemma init_success cond inputs op kwargs s a s' :
  OperatorInstance_init cond inputs op kwargs s = (inr a, s') ->
  a = length (instances s) /\
  exists inputs1 inputs2 kwargs2 spec1 call_args spec3 inputs3 new s2,
    instantiate_inputs (if op_device op =? "gpu" then "gpu" else "cpu") inputs
      (mkState (S (op_count s))
               (instances s ++ [mkInstance (op_count s) [] op (op_spec op) (op_count s) [] PNone])
               (datanodes s) (pipeline s) (warnings s)) = (inr inputs1, s2) /\
    (inputs2, kwargs2) = match cond with
                         | Some hook => apply_conditional_split_to_args hook inputs1 kwargs
                         | None => (inputs1, kwargs)
                         end /\
    _add_spec_args (op_schema op) (op_spec op) (fst (_separate_kwargs kwargs2)) = inr spec1 /\
    call_args_of op kwargs2 = inr call_args /\
    (exists spec2 s3,
       (add_inputs spec1 inputs2 s3).1 = inr spec2 /\
       datanodes s2 = datanodes s3 /\
       (argument_inputs op call_args (sorted (dict_keys call_args)) spec2 inputs2 s3).1
         = inr (spec3, inputs3) /\
       datanodes s3 `prefix_of` datanodes s') /\
    instances s' =
      instances s ++ mkInstance (op_count s) [] op spec3 (op_count s) inputs3
                                (name_of op (op_count s) call_args) :: new /\
    Forall is_constant_node new.
Proof.
  unfold OperatorInstance_init. intros Hrun.
  destruct (List.find is_init_parameter (dict_keys kwargs)) as [k|]; [done|].
  unfold bind at 1, ret at 1 in Hrun.
  unfold bind at 1 2 in Hrun. simpl in Hrun.
  set (blank := mkInstance (op_count s) [] op (op_spec op) (op_count s) [] PNone) in *.
  set (s1 := mkState (S (op_count s)) (instances s ++ [blank]) (datanodes s)
                     (pipeline s) (warnings s)) in *.
  apply bind_ok_inv in Hrun as (inputs1 & s2 & Hinst & Hrun).
  pose proof (appends_instantiate_inputs
                (if op_device op =? "gpu" then "gpu" else "cpu") inputs s1)
    as (new1 & Hnew1 & Hc1).
  rewrite Hinst in Hnew1. simpl in Hnew1.
  destruct (match cond with Some hook => _ | None => _ end) as [inputs2 kwargs2] eqn:Hhook.
  apply bind_ok_inv in Hrun as ([] & s2a & Hupd & Hrun).
  rewrite update_instance_run in Hupd. injection Hupd as <-.
  destruct (_separate_kwargs kwargs2) as [spec_args kwargs3] eqn:Hsep.
  apply bind_ok_inv in Hrun as (spec1 & s2b & Hadd & Hrun).
  apply lift_ok_inv in Hadd as [Hadd ->].
  apply bind_ok_inv in Hrun as (call_args & s2c & Hmerge & Hrun).
  apply lift_ok_inv in Hmerge as [Hmerge ->].
  apply bind_ok_inv in Hrun as ([] & s2d & Hupd & Hrun).
  rewrite update_instance_run in Hupd. injection Hupd as <-. simpl in Hrun.
  rewrite Hnew1 in Hrun. rewrite <- app_assoc in Hrun. simpl in Hrun.
  rewrite !alter_middle in Hrun. simpl in Hrun.
  match type of Hrun with
  | bind _ _ ?st = _ => set (s3 := st) in *
  end.
  apply bind_ok_inv in Hrun as (spec2 & s3' & Hai & Hrun).
  pose proof (add_inputs_state inputs2 spec1 s3) as Hs3. rewrite Hai in Hs3.
  simpl in Hs3. subst s3'.
  apply bind_ok_inv in Hrun as ([spec3 inputs3] & s4 & Harg & Hrun).
  pose proof (appends_argument_inputs op call_args (sorted (dict_keys call_args))
                spec2 inputs2 s3) as (new2 & Hnew2 & Hc2).
  pose proof (grows_argument_inputs op call_args (sorted (dict_keys call_args))
                spec2 inputs2 s3) as [[_ Hdn4] _].
  rewrite Harg in Hnew2, Hdn4. simpl in Hnew2, Hdn4.
  apply bind_ok_inv in Hrun as ([] & s4a & Hupd & Hrun).
  rewrite update_instance_run in Hupd. injection Hupd as <-. simpl in Hrun.
  rewrite Hnew2 in Hrun. rewrite <- app_assoc in Hrun. simpl in Hrun.
  rewrite alter_middle in Hrun. simpl in Hrun.
  apply bind_ok_inv in Hrun as ([] & s5 & Hwarn & Hret).
  injection Hret as <- <-.
  pose proof (appends_instance_deprecation_warning op) as Hw5.
  pose proof (grows_instance_deprecation_warning op) as Hg5.
  match type of Hwarn with
  | instance_deprecation_warning op ?st = _ =>
      specialize (Hw5 st) as (new3 & Hnew3 & Hc3); specialize (Hg5 st) as [[_ Hdn5] _]
  end.
  rewrite Hwarn in Hnew3, Hdn5. simpl in Hnew3, Hdn5.
  split; [done|].
  exists inputs1, inputs2, kwargs2, spec1, call_args, spec3, inputs3,
    ((new1 ++ new2) ++ new3), s2.
  split_and!; try done.
  - by rewrite Hsep.
  - unfold call_args_of. by rewrite Hsep.
  - exists spec2, s3. split_and!; try done.
    + by rewrite Hai.
    + by rewrite Harg.
    + unfold datanodes_grow in Hdn4, Hdn5. simpl in Hdn4, Hdn5.
      subst s3. simpl. by trans (datanodes s4).
  - rewrite Hnew3. unfold name_of. rewrite <- !app_assoc. simpl.
    by rewrite <- app_assoc.
  - by repeat apply Forall_app_2.
Qed.
(** ** [generate_outputs] *)

Lemma alter_as_insert {A} (f : A -> A) (l : list A) i x :
  l !! i = Some x -> alter f i l = <[i := f x]> l.
Proof.
  revert i. induction l as [|y l IH]; intros [|i]; simpl; try done.
  - by intros [= ->].
  - intros H. f_equal. by apply IH.
Qed.

Lemma lookup_instance_Some s a inst :
  instances s !! a = Some inst -> lookup_instance s a = inst.
Proof. unfold lookup_instance. by intros ->. Qed.

Lemma generate_outputs_no_pipeline self s inst :
  instances s !! self = Some inst ->
  op_preserve (oi_op inst) = true -> pipeline s = None ->
  generate_outputs self s = (inl (PipelineRequired "Operators with side-effects "), s).
Proof.
  intros Hinst Hp Hn. unfold generate_outputs, bind, get_instance, Pipeline_current.
  rewrite (lookup_instance_Some _ _ _ Hinst), Hn, Hp. done.
Qed.

Lemma generate_outputs_sink self s inst sinks :
  instances s !! self = Some inst ->
  op_preserve (oi_op inst) = true -> pipeline s = Some sinks ->
  num_outputs inst = 0 ->
  generate_outputs self s =
  (inr tt,
   mkState (op_count s) (instances s)
           (datanodes s ++ [mkDataNode (sink_name (oi_op inst) (oi_counter inst))
                                       (output_device_of (op_device (oi_op inst))) self])
           (Some (sinks ++ [length (datanodes s)])) (warnings s)).
Proof.
  intros Hinst Hp Hs Hz. unfold generate_outputs, bind, get_instance, Pipeline_current.
  rewrite (lookup_instance_Some _ _ _ Hinst), Hs, Hp. simpl.
  unfold num_outputs in Hz. rewrite Hz. simpl.
  unfold new_DataNode, add_sink. simpl. by rewrite Hs.
Qed.

Lemma generate_outputs_none self s inst :
  instances s !! self = Some inst ->
  op_preserve (oi_op inst) = false -> num_outputs inst = 0 ->
  generate_outputs self s = (inr tt, s).
Proof.
  intros Hinst Hp Hz. unfold generate_outputs, bind, get_instance, Pipeline_current.
  rewrite (lookup_instance_Some _ _ _ Hinst), Hp. simpl.
  unfold num_outputs in Hz. rewrite Hz. simpl.
  rewrite andb_false_r. done.
Qed.

Lemma spec_AddOutput_inv self t_name dev s s' :
  spec_AddOutput self t_name dev s = (inr tt, s') ->
  exists spec',
    s' = mkState (op_count s) (alter (set_spec spec') self (instances s))
                 (datanodes s) (pipeline s) (warnings s).
Proof.
  unfold spec_AddOutput. destruct t_name; try done.
  unfold bind at 1, get_instance at 1. intros Hrun.
  apply bind_ok_inv in Hrun as (spec' & s1 & Hadd & Hupd).
  apply lift_ok_inv in Hadd as [_ ->].
  rewrite update_instance_run in Hupd. injection Hupd as <-. by eauto.
Qed.

Lemma optional_sink_inv (preserve : bool) t s s' :
  (if preserve then add_sink t else ret tt) s = (inr tt, s') ->
  op_count s' = op_count s /\ instances s' = instances s /\
  datanodes s' = datanodes s /\ warnings s' = warnings s /\
  pipeline s' = if preserve then (fun sinks => sinks ++ [t]) <$> pipeline s else pipeline s.
Proof.
  destruct preserve.
  - unfold add_sink. destruct (pipeline s) eqn:Hp; [|done].
    by intros [= <-].
  - by intros [= <-].
Qed.

(** What a run of the loop that returns has done: the node has one new
    output per index, each a new data node produced by it, and keeps all
    but its spec and outputs; with [preserve] every output is a sink. *)
Lemma generate_outputs_loop_inv self preserve name dev n idxs : forall s inst s',
  instances s !! self = Some inst ->
  generate_outputs_loop self preserve name dev n idxs s = (inr tt, s') ->
  exists inst',
    instances s' = <[self := inst']> (instances s) /\
    op_count s' = op_count s /\
    warnings s' = warnings s /\
    pipeline s' = (if preserve
                   then (fun sinks => sinks ++ seq (length (datanodes s)) (length idxs))
                          <$> pipeline s
                   else pipeline s) /\
    datanodes s `prefix_of` datanodes s' /\
    length (datanodes s') = length (datanodes s) + length idxs /\
    (forall h d, length (datanodes s) <= h -> datanodes s' !! h = Some d ->
                 dn_source d = self /\ dn_device d = dev) /\
    oi_outputs inst' = oi_outputs inst ++ seq (length (datanodes s)) (length idxs) /\
    same_node inst inst'.
Proof.
  induction idxs as [|i rest IH]; intros s inst s' Hinst Hrun; simpl in Hrun.
  - injection Hrun as <-. exists inst. rewrite list_insert_id by done.
    rewrite !app_nil_r. split_and!; try done; try (simpl; lia).
    + destruct preserve; [|done]. destruct (pipeline s); simpl; [|done].
      by rewrite app_nil_r.
    + intros h d Hh Hd. apply lookup_lt_Some in Hd. lia.
  - apply bind_ok_inv in Hrun as (t_name & s1 & Hname & Hrun).
    assert (s1 = s) as ->.
    { destruct (Nat.ltb 1 n).
      - by apply lift_ok_inv in Hname as [_ ->].
      - by injection Hname as _ <-. }
    clear Hname.
    apply bind_ok_inv in Hrun as (t & s2 & Hnew & Hrun).
    injection Hnew as <- <-.
    apply bind_ok_inv in Hrun as ([] & s3 & Hout & Hrun).
    apply spec_AddOutput_inv in Hout as (spec' & ->). simpl in Hrun.
    apply bind_ok_inv in Hrun as ([] & s4 & Hsink & Hrun).
    apply optional_sink_inv in Hsink as (Hc4 & Hi4 & Hd4 & Hw4 & Hp4). simpl in *.
    apply bind_ok_inv in Hrun as ([] & s5 & Happ & Hrun).
    unfold append_output in Happ. rewrite update_instance_run in Happ.
    injection Happ as <-. rewrite Hc4, Hi4, Hd4, Hw4 in Hrun.
    rewrite list_alter_alter_eq in Hrun.
    match type of Hrun with
    | generate_outputs_loop _ _ _ _ _ _ ?st = _ =>
        assert (Hlook : instances st !! self
                        = Some (push_output (length (datanodes s)) (set_spec spec' inst)))
          by (simpl; by rewrite list_lookup_alter_eq, Hinst)
    end.
    destruct (IH _ _ _ Hlook Hrun)
      as (inst' & Hinsts & Hcount & Hwarn & Hpipe & Hpre & Hlen & Hsrc & Houts & Hsame).
    clear Hlook.
    simpl in *. rewrite length_app in *. simpl in *.
    exists inst'. split_and!; try done; try lia.
    + rewrite Hinsts, (alter_as_insert _ _ _ _ Hinst). by rewrite list_insert_insert_eq.
    + rewrite Hpipe, Hp4. destruct preserve; [|done].
      destruct (pipeline s); simpl; [|done]. rewrite <- app_assoc. simpl.
      by replace (length (datanodes s) + 1) with (S (length (datanodes s))) by lia.
    + etrans; [|exact Hpre]. by apply prefix_app_r.
    + intros h d Hh Hd.
      destruct (decide (h = length (datanodes s))) as [->|Hne].
      * assert (Hd0 : (datanodes s ++ [mkDataNode (py_str t_name) dev self])
                        !! length (datanodes s)
                      = Some (mkDataNode (py_str t_name) dev self)).
        { by rewrite lookup_app_r, Nat.sub_diag by lia. }
        pose proof (prefix_lookup_Some _ _ _ _ Hd0 Hpre) as Hd1.
        rewrite Hd in Hd1. by injection Hd1 as ->.
      * apply (Hsrc h d); [lia | done].
    + rewrite Houts, <- app_assoc. simpl.
      by replace (length (datanodes s) + 1) with (S (length (datanodes s))) by lia.
Qed.

(** When [generate_outputs] returns, the node keeps all but its spec
    and outputs, and has as many outputs as the schema computes, each
    produced by it, unless it became a sink. *)
Lemma generate_outputs_ok self s inst s' :
  instances s !! self = Some inst ->
  generate_outputs self s = (inr tt, s') ->
  exists inst',
    instances s' = <[self := inst']> (instances s) /\
    same_node inst inst' /\
    op_count s' = op_count s /\
    oi_outputs inst' =
      oi_outputs inst ++
      (if Nat.eqb (num_outputs inst) 0 then []
       else seq (length (datanodes s)) (num_outputs inst)) /\
    (forall h, h ∈ oi_outputs inst' -> h ∈ oi_outputs inst \/
       exists d, datanodes s' !! h = Some d /\ dn_source d = self).
Proof.
  intros Hinst Hrun. unfold generate_outputs in Hrun.
  unfold bind at 1, get_instance at 1 in Hrun.
  rewrite (lookup_instance_Some _ _ _ Hinst) in Hrun.
  unfold bind at 1, Pipeline_current at 1 in Hrun.
  destruct (negb _ && op_preserve (oi_op inst)) eqn:Hnp; [done|].
  fold (num_outputs inst) in Hrun.
  destruct (Nat.eqb (num_outputs inst) 0 && op_preserve (oi_op inst)) eqn:Hzp.
  - apply andb_true_iff in Hzp as [Hz Hp]. rewrite Hz.
    apply bind_ok_inv in Hrun as (t & s1 & Hnew & Hsink).
    injection Hnew as <- <-.
    apply (optional_sink_inv true) in Hsink as (Hc & Hi & Hd & _). simpl in *.
    exists inst. rewrite list_insert_id by done. rewrite app_nil_r.
    split_and!; try done. intros h Hh. by left.
  - destruct (generate_outputs_loop_inv _ _ _ _ _ _ _ _ _ Hinst Hrun)
      as (inst' & Hinsts & Hcount & _ & _ & Hpre & Hlen & Hsrc & Houts & Hsame).
    rewrite length_seq in Houts, Hlen.
    exists inst'. split_and!; try done.
    + rewrite Houts. destruct (Nat.eqb_spec (num_outputs inst) 0) as [->|_]; done.
    + intros h Hh. rewrite Houts in Hh. apply elem_of_app in Hh as [Hh|Hh]; [by left|].
      right. apply elem_of_seq in Hh.
      destruct (lookup_lt_is_Some_2 (datanodes s') h) as [d Hd]; [lia|].
      exists d. split; [done|]. apply (Hsrc h d); [lia | done].
Qed.
(** ** The loops of [_OperatorInstance.__init__] *)

Lemma Constant_ok_inv value device s y s' :
  Constant value device s = (inr y, s') ->
  constant_supported value = true /\ y = PData (length (datanodes s)).
Proof.
  rewrite Constant_run. destruct (constant_supported value); [|done].
  by intros [= <- <-].
Qed.

Lemma instantiate_inputs_ok dev inputs : forall s inputs1 s',
  instantiate_inputs dev inputs s = (inr inputs1, s') ->
  Forall2 input_resolves inputs inputs1.
Proof.
  induction inputs as [|x rest IH]; intros s inputs1 s' Hrun; simpl in Hrun.
  - injection Hrun as <- <-. constructor.
  - apply bind_ok_inv in Hrun as (y & s1 & Hx & Hrun).
    apply bind_ok_inv in Hrun as (rest' & s2 & Hrest & Hret).
    injection Hret as <- <-. constructor; [|by eapply IH].
    destruct x as [| |c| | | | |]; try (by injection Hx as <- <-).
    rewrite instantiate_constant_node_run in Hx.
    by apply Constant_ok_inv in Hx as [_ ->].
Qed.

Lemma add_inputs_ok inputs : forall spec s spec2,
  (add_inputs spec inputs s).1 = inr spec2 ->
  Forall (fun x => is_DataNode x = true) inputs.
Proof.
  induction inputs as [|x rest IH]; intros spec s spec2; simpl; [by constructor|].
  destruct x; try done. unfold bind at 1, get_datanode at 1. intros Hrun.
  unfold bind in Hrun. destruct (AddInput spec _ _) as [e|spec']; [done|].
  simpl in Hrun. constructor; [done | by eapply IH].
Qed.

Lemma bind_ok_inv1 {A B} (m : M A) (f : A -> M B) s y :
  (bind m f s).1 = inr y ->
  exists x s1, m s = (inr x, s1) /\ (f x s1).1 = inr y.
Proof.
  unfold bind. destruct (m s) as [[e|x] s1]; [done|]. by eauto.
Qed.

Lemma argument_conversion (arg_inp : pyval) (e : pyval -> exn) s y s2 :
  bind (match arg_inp with
        | PConst c => _instantiate_constant_node "cpu" c
        | _ => ret arg_inp
        end)
       (fun arg_inp1 => if is_DataNode arg_inp1 then ret arg_inp1
                        else try_except (Constant arg_inp1 "cpu") (e arg_inp1)) s
  = (inr y, s2) ->
  exists h2, y = PData h2 /\ forall h, arg_inp = PData h -> h2 = h.
Proof.
  intros Hrun. apply bind_ok_inv in Hrun as (arg_inp1 & s1 & H1 & H2).
  assert (Hcase : (exists h, arg_inp = PData h /\ arg_inp1 = PData h) \/
                  (is_DataNode arg_inp = false /\
                   (arg_inp1 = arg_inp \/ exists h, arg_inp1 = PData h))).
  { destruct arg_inp as [|h|c| | | | |]; try (injection H1 as <- <-; by eauto).
    rewrite instantiate_constant_node_run in H1.
    apply Constant_ok_inv in H1 as [_ ->]. by eauto. }
  destruct Hcase as [(h & -> & ->)|(Hnd & [->|(h & ->)])].
  - simpl in H2. injection H2 as <- <-. exists h. split; [done|]. by intros ? [= ->].
  - rewrite Hnd in H2. unfold try_except in H2. rewrite Constant_run in H2.
    destruct (constant_supported arg_inp); [|done]. injection H2 as <- <-.
    eexists. split; [done|]. intros h ->. done.
  - simpl in H2. injection H2 as <- <-. exists h. split; [done|].
    intros h' ->. done.
Qed.

(** One round of the loop over the call arguments, when the loop
    returns: a key that is no argument input is passed over; for any
    other the backend accepted the argument input. *)
Lemma argument_inputs_step op call_args k rest spec inputs s r :
  (argument_inputs op call_args (k :: rest) spec inputs s).1 = inr r ->
  (is_arg_key call_args k = false /\
   (argument_inputs op call_args rest spec inputs s).1 = inr r) \/
  (is_arg_key call_args k = true /\
   exists h2 s4 n,
     (forall h, dict_get call_args k = Some (PData h) -> h2 = h) /\
     spec_rejects spec (CallAddArgumentInput k n) = None /\
     (argument_inputs op call_args rest (record_call spec (CallAddArgumentInput k n))
                      (inputs ++ [PData h2]) s4).1 = inr r).
Proof.
  intros Hrun. simpl in Hrun. unfold is_arg_key.
  destruct (k =? "name") eqn:Hname; [by left|].
  destruct (dict_get call_args k) as [arg_inp|] eqn:Hget; [|done].
  assert (Hd : arg_inp = PNone \/ arg_inp <> PNone)
    by (destruct arg_inp; (by left) || (by right)).
  destruct Hd as [->|Hnn]; [by left|].
  right. split; [by destruct arg_inp|].
  assert (Hrun' :
    (bind (bind (match arg_inp with
                 | PConst c => _instantiate_constant_node "cpu" c
                 | _ => ret arg_inp
                 end)
                (fun arg_inp1 =>
                   if is_DataNode arg_inp1 then ret arg_inp1
                   else try_except (Constant arg_inp1 "cpu")
                          (TypeError ("Expected inputs of type `DataNode` or convertible to constant nodes. Received input `"
                                      +:+ k +:+ "` of type '" +:+ type_name arg_inp1 +:+ "'."))))
          (fun arg_inp2 =>
             lift (_check_arg_input (op_schema op) (op_name op) k) ;;;
             match arg_inp2 with
             | PData h =>
                 d <- get_datanode h ;;
                 spec' <- lift (AddArgumentInput spec k (dn_name d)) ;;
                 argument_inputs op call_args rest spec' (inputs ++ [arg_inp2])
             | _ => raise (TypeError "argument input is not a DataNode")
             end) s).1 = inr r).
  { revert Hrun. destruct arg_inp; try done; unfold bind;
      repeat (match goal with |- context [match ?m ?st with _ => _ end] =>
                destruct (m st) as [[?|?] ?] end; try done). }
  clear Hrun.
  apply bind_ok_inv1 in Hrun' as (y & s2 & Hconv & Hrun).
  apply (argument_conversion arg_inp
           (fun v => TypeError ("Expected inputs of type `DataNode` or convertible to constant nodes. Received input `"
                                +:+ k +:+ "` of type '" +:+ type_name v +:+ "'.")))
    in Hconv as (h2 & -> & Hsame).
  apply bind_ok_inv1 in Hrun as ([] & s3 & _ & Hrun).
  unfold bind at 1, get_datanode at 1 in Hrun.
  apply bind_ok_inv1 in Hrun as (spec' & s4 & Hadd & Hrun).
  apply lift_ok_inv in Hadd as [Hadd ->].
  apply backend_call_inr in Hadd as [Hacc ->].
  exists h2, s3, (dn_name (lookup_datanode s3 h2)). split_and!; try done.
  intros h Hh. apply Hsame. congruence.
Qed.

Lemma argument_inputs_ok op call_args keys : forall spec inputs s spec3 inputs3,
  (argument_inputs op call_args keys spec inputs s).1 = inr (spec3, inputs3) ->
  exists extra,
    inputs3 = inputs ++ extra /\
    Forall2 (argument_resolves call_args)
            (filter (fun k => is_arg_key call_args k = true) keys) extra.
Proof.
  induction keys as [|k rest IH]; intros spec inputs s spec3 inputs3 Hrun.
  - simpl in Hrun. injection Hrun as <- <-. exists []. rewrite !app_nil_r.
    split_and!; try done; constructor.
  - apply argument_inputs_step in Hrun
      as [[Hk Hrun]|(Hk & h2 & s4 & n & Hsame & _ & Hrun)].
    + rewrite filter_cons_False by congruence. by eapply IH.
    + destruct (IH _ _ _ _ _ Hrun) as (extra & -> & Hall).
      exists (PData h2 :: extra). rewrite filter_cons_True by done.
      split; [by rewrite <- app_assoc|].
      constructor; [|done]. split; [done|]. intros h Hh. f_equal. by apply Hsame.
Qed.


(** ** The node [_OperatorInstance.__init__] creates *)

Lemma init_node cond inputs op kwargs s a s' :
  OperatorInstance_init cond inputs op kwargs s = (inr a, s') ->
  a = length (instances s) /\
  exists inst new,
    instances s' = instances s ++ inst :: new /\
    Forall is_constant_node new /\
    oi_counter inst = op_count s /\ oi_relation_id inst = op_count s /\
    oi_outputs inst = [] /\ oi_op inst = op /\
    (cond = None -> inputs_from op kwargs inputs inst).
Proof.
  intros Hrun. apply init_success in Hrun
    as (-> & inputs1 & inputs2 & kwargs2 & spec1 & call_args & spec3 & inputs3 & new & s2
        & Hinst & Hhook & Hadd & Hcall & (spec2 & s3 & Hai & _ & Harg & _) & Hinsts & Hconst).
  split; [done|]. eexists _, new. split; [exact Hinsts|]. simpl.
  split_and!; try done.
  intros ->. injection Hhook as -> ->.
  pose proof (instantiate_inputs_ok _ _ _ _ _ Hinst) as Hres.
  pose proof (add_inputs_ok _ _ _ _ Hai) as Hdn.
  destruct (argument_inputs_ok _ _ _ _ _ _ _ _ Harg) as (extra & -> & Hextra).
  exists call_args, inputs1, extra. simpl. by split_and!.
Qed.

Lemma inputs_from_same_node op kwargs inputs inst inst' :
  same_node inst inst' -> inputs_from op kwargs inputs inst ->
  inputs_from op kwargs inputs inst'.
Proof.
  intros (Hc & _ & _ & Hi & Hn) (call_args & inputs1 & extra & H1 & H2 & H3 & H).
  exists call_args, inputs1, extra. rewrite Hc, Hi, Hn. by repeat split; try apply H.
Qed.

Lemma create_instances_ok cond op kwargs sets : forall s insts s',
  create_instances cond op kwargs sets s = (inr insts, s') ->
  instances s `prefix_of` instances s' /\
  Forall2 (node_created cond op kwargs s s') insts sets /\
  (forall j k a b, j < k -> insts !! j = Some a -> insts !! k = Some b -> a < b) /\
  (forall b x, length (instances s) <= b -> (b ∉ insts) -> instances s' !! b = Some x ->
               is_constant_node x).
Proof.
  induction sets as [|set rest IH]; intros s insts s' Hrun; simpl in Hrun.
  - injection Hrun as <- <-. split_and!; [done | constructor | |].
    + intros j k a b _ Ha. by rewrite lookup_nil in Ha.
    + intros b x Hb _ Hx. apply lookup_lt_Some in Hx. lia.
  - apply bind_ok_inv in Hrun as (a & s1 & Hinit & Hrun).
    apply bind_ok_inv in Hrun as ([] & s2 & Hgen & Hrun).
    apply bind_ok_inv in Hrun as (more & s3 & Hrest & Hret).
    injection Hret as <- <-.
    destruct (init_node _ _ _ _ _ _ _ Hinit)
      as (-> & inst0 & new & Hinsts1 & Hconst & Hc & Hr & Ho & Hop & Hbuilt).
    assert (Hlook1 : instances s1 !! length (instances s) = Some inst0).
    { rewrite Hinsts1. by rewrite lookup_app_r, Nat.sub_diag by lia. }
    destruct (generate_outputs_ok _ _ _ _ Hlook1 Hgen)
      as (inst' & Hinsts2 & Hsame & Hcount2 & Houts & Hprod).
    destruct (IH _ _ _ Hrest) as (Hpre & Hall & Hsorted & Hothers).
    pose proof (evolves_create_instances cond op kwargs rest s2) as [_ Hdn].
    rewrite Hrest in Hdn. unfold datanodes_grow in Hdn. simpl in Hdn.
    pose proof (grows_OperatorInstance_init cond set op kwargs s) as [[[Hcnt1 _] _] _].
    rewrite Hinit in Hcnt1. simpl in Hcnt1.
    assert (Hinsts2' : instances s2 = instances s ++ inst' :: new).
    { rewrite Hinsts2, Hinsts1.
      replace (length (instances s)) with (length (instances s) + 0) by lia.
      by rewrite insert_app_r. }
    assert (Hlen2 : length (instances s) < length (instances s2)).
    { rewrite Hinsts2', length_app. simpl. lia. }
    assert (Hlook' : instances s3 !! length (instances s) = Some inst').
    { eapply prefix_lookup_Some; [|exact Hpre].
      rewrite Hinsts2'. by rewrite lookup_app_r, Nat.sub_diag by lia. }
    split_and!.
    + etrans; [|exact Hpre]. rewrite Hinsts2'. by apply prefix_app_r.
    + constructor.
      * exists inst0, inst'. destruct Hsame as (S1 & S2 & S3 & S4 & S5).
        split_and!; try done; try congruence; try lia.
        -- rewrite Houts, Ho. simpl.
           destruct (Nat.eqb_spec (num_outputs inst0) 0) as [->|_]; [done|].
           by rewrite length_seq.
        -- intros h Hh. destruct (Hprod h Hh) as [Hin|(d & Hd & Hsrc)].
           ++ rewrite Ho in Hin. by apply elem_of_nil in Hin.
           ++ exists d. split; [|done]. by eapply prefix_lookup_Some.
        -- intros Hcond.
           eapply inputs_from_same_node; [|exact (Hbuilt Hcond)]. by split_and!.
      * eapply Forall2_impl; [exact Hall|].
        intros b set' (i0 & i & H1 & H2 & H3 & H4 & H5 & H6 & H7 & H8 & H9).
        exists i0, i. rewrite Hcount2 in H6. split_and!; try done; lia.
    + intros [|j] [|k] x y Hjk; simpl; try lia.
      * intros [= <-] Hy.
        eapply Forall2_lookup_l in Hall as (set' & _ & (i0 & i & _ & Hge & _)); [|exact Hy].
        lia.
      * apply Hsorted. lia.
    + intros b x Hb Hnin Hx.
      apply not_elem_of_cons in Hnin as [Hne Hnin].
      destruct (decide (b < length (instances s2))) as [Hlt|Hge].
      * destruct (lookup_lt_is_Some_2 (instances s2) b Hlt) as [y Hy].
        pose proof (prefix_lookup_Some _ _ _ _ Hy Hpre) as Hy'.
        replace x with y by congruence.
        rewrite Hinsts2' in Hy. rewrite lookup_app_r in Hy by lia.
        destruct (b - length (instances s)) as [|n] eqn:En; [lia|]. simpl in Hy.
        rewrite Forall_forall in Hconst. apply Hconst.
        apply list_elem_of_lookup. by exists n.
      * apply (Hothers b x); [lia | done | done].
Qed.
(** ** Repacking *)

Lemma mapM_exn_map {A B} (f : A -> exn + B) (g : A -> B) (l : list A) :
  (forall x, x ∈ l -> f x = inr (g x)) -> mapM_exn f l = inr (map g l).
Proof.
  induction l as [|x r IH]; intros H; simpl; [done|].
  rewrite (H x) by left. rewrite IH; [done|]. intros y Hy. apply H. by right.
Qed.

Lemma mapM_exn_index {A} (sets : list (list A)) k :
  Forall (fun o => k < length o) sets ->
  mapM_exn (fun o => index o k) sets = inr (omap (fun o => o !! k) sets).
Proof.
  induction sets as [|o r IH]; intros Hall; simpl; [done|].
  apply Forall_cons in Hall as [Hk Hall].
  unfold index at 1. destruct (lookup_lt_is_Some_2 o k Hk) as [x Hx].
  rewrite Hx. by rewrite IH.
Qed.

Lemma repack_list_uniform {A} (sets : list (list A)) m :
  sets <> [] -> Forall (fun o => length o = m) sets ->
  _repack_list sets = inr (map (fun k => omap (fun o => o !! k) sets) (seq 0 m)).
Proof.
  intros Hne Hall. unfold _repack_list. destruct sets as [|s0 r]; [done|].
  assert (length s0 = m) as -> by (by apply Forall_cons in Hall as [? _]).
  apply mapM_exn_map. intros k Hk%elem_of_seq.
  apply mapM_exn_index. eapply Forall_impl; [exact Hall|]. simpl. intros o ->. lia.
Qed.

Lemma omap_head_concat {A} (sets : list (list A)) :
  Forall (fun o => length o = 1) sets -> omap (fun o => o !! 0) sets = concat sets.
Proof.
  induction sets as [|o r IH]; intros Hall; simpl; [done|].
  apply Forall_cons in Hall as [Ho Hall].
  destruct o as [|x [|y o]]; try done. simpl. f_equal. by apply IH.
Qed.

Lemma repack_output_sets_uniform (outputs : list (list nat)) m :
  1 < length outputs -> Forall (fun o => length o = m) outputs ->
  _repack_output_sets outputs =
  inr (if Nat.eqb m 1 then PList (map PData (concat outputs))
       else PList (map (fun k => PList (map PData (omap (fun o => o !! k) outputs)))
                       (seq 0 m))).
Proof.
  intros Hlen Hall. destruct (Nat.eqb_spec m 1) as [->|Hm].
  - destruct outputs as [|o1 [|o2 r]]; simpl in Hlen; try lia.
    pose proof Hall as Hall'. apply Forall_cons in Hall' as [H1 _].
    destruct o1 as [|t [|t' o1]]; try done.
    unfold _repack_output_sets.
    rewrite (mapM_exn_index (A:=nat)).
    + by rewrite omap_head_concat.
    + eapply Forall_impl; [exact Hall|]. simpl. intros o ->. lia.
  - assert (Hne : outputs <> []) by (intros ->; simpl in Hlen; lia).
    assert (Hrep : _repack_output_sets outputs =
                   match _repack_list outputs with
                   | inl e => inl e
                   | inr r => inr (PList (map (fun l => PList (map PData l)) r))
                   end).
    { unfold _repack_output_sets.
      destruct outputs as [|o1 [|o2 r]]; [done | simpl in Hlen; lia |].
      apply Forall_cons in Hall as [H1 _].
      destruct o1 as [|t [|t' o1]]; done. }
    rewrite Hrep, (repack_list_uniform _ m Hne Hall). by rewrite map_map.
Qed.

(** ** Tying the instances of a call together *)

Lemma tie_instances_run rid insts : forall s,
  tie_instances rid insts s =
  (inr tt, mkState (op_count s)
                   (foldl (fun l a => alter (set_relation_id rid) a l) (instances s) insts)
                   (datanodes s) (pipeline s) (warnings s)).
Proof.
  induction insts as [|a r IH]; intros s; simpl.
  - by destruct s.
  - unfold bind. rewrite update_instance_run. by rewrite IH.
Qed.

Lemma tie_lookup rid insts : forall (l : list OperatorInstance) b,
  foldl (fun l a => alter (set_relation_id rid) a l) l insts !! b =
  if decide (b ∈ insts) then set_relation_id rid <$> l !! b else l !! b.
Proof.
  induction insts as [|a r IH]; intros l b; simpl.
  - destruct (decide (b ∈ [])) as [H|_]; [by apply elem_of_nil in H | done].
  - rewrite IH. destruct (decide (a = b)) as [->|Hne].
    + rewrite list_lookup_alter_eq.
      destruct (decide (b ∈ r)), (decide (b ∈ b :: r)) as [|Hn];
        try done; try (exfalso; apply Hn; left).
      destruct (l !! b); done.
    + rewrite list_lookup_alter_ne by done.
      destruct (decide (b ∈ r)) as [Hin|Hnin], (decide (b ∈ a :: r)) as [Hin'|Hnin'];
        try done.
      * exfalso. apply Hnin'. by right.
      * exfalso. apply elem_of_cons in Hin' as [->|?]; done.
Qed.

(** ** The stages of a call *)

Lemma call_instances_inv cond op inputs kwargs s insts s' :
  Operator_call_instances cond op inputs kwargs s = (inr insts, s') ->
  exists inputs' s0 sets s1 first more,
    _check_schema_num_inputs op inputs = inr tt /\
    _preprocess_inputs inputs (op_name op) (op_device op) (Some (op_schema op)) s
      = (inr inputs', s0) /\
    _build_input_sets op inputs' = inr sets /\
    create_instances cond op kwargs sets s0 = (inr insts, s1) /\
    insts = first :: more /\
    s' = mkState (op_count s1)
           (foldl (fun l a => alter (set_relation_id (oi_counter (lookup_instance s1 first))) a l)
                  (instances s1) insts)
           (datanodes s1) (pipeline s1) (warnings s1).
Proof.
  unfold Operator_call_instances. intros Hrun.
  apply bind_ok_inv in Hrun as ([] & sa & Hnum & Hrun).
  apply lift_ok_inv in Hnum as [Hnum ->].
  apply bind_ok_inv in Hrun as (inputs' & s0 & Hpre & Hrun).
  apply bind_ok_inv in Hrun as (sets & sb & Hsets & Hrun).
  apply lift_ok_inv in Hsets as [Hsets ->].
  apply bind_ok_inv in Hrun as (op_instances & s1 & Hcreate & Hrun).
  destruct op_instances as [|first more]; [done|].
  apply bind_ok_inv in Hrun as (i & sc & Hget & Hrun).
  injection Hget as <- <-.
  apply bind_ok_inv in Hrun as ([] & sd & Htie & Hret).
  injection Hret as <- <-.
  rewrite tie_instances_run in Htie. injection Htie as <-.
  exists inputs', s0, sets, s1, first, more. by split_and!.
Qed.

Lemma call_result_state cond insts s : (Operator_call_result cond insts s).2 = s.
Proof.
  unfold Operator_call_result, bind.
  assert (Hc : forall l s0, (collect_outputs l s0).2 = s0 /\
                            exists r, (collect_outputs l s0).1 = inr r).
  { induction l as [|a l IH]; intros s0; simpl; [by eauto|].
    unfold bind, get_instance. destruct (IH s0) as [E [r Hr]].
    destruct (collect_outputs l s0) as [[e|x] s1]; simpl in *; [done|]. subst. by eauto. }
  destruct insts as [|a [|b r]].
  - simpl. by destruct cond.
  - simpl. by destruct cond.
  - destruct (Hc (a :: b :: r) s) as [E [x Hx]].
    destruct (collect_outputs (a :: b :: r) s) as [[e|y] s1]; simpl in *; [done|].
    subst. destruct (_repack_output_sets y); simpl; [done|]. by destruct cond.
Qed.

Lemma collect_outputs_run insts : forall s,
  collect_outputs insts s = (inr (map (fun a => oi_outputs (lookup_instance s a)) insts), s).
Proof.
  induction insts as [|a r IH]; intros s; simpl; [done|].
  unfold bind, get_instance. by rewrite IH.
Qed.

Lemma steps_new_sorted s s' a b x y :
  steps s s' -> length (instances s) <= a -> a < b ->
  instances s' !! a = Some x -> instances s' !! b = Some y ->
  oi_counter x < oi_counter y.
Proof.
  intros (_ & old' & new & E & [Hlen _] & [_ Hsorted]) Ha Hab Hx Hy.
  rewrite E in Hx, Hy. rewrite lookup_app_r in Hx, Hy by lia.
  eapply (Hsorted (a - length old') (b - length old')); [lia | done..].
Qed.

Lemma Forall2_impl_elem {A B} (P Q : A -> B -> Prop) (l : list A) (k : list B) :
  Forall2 P l k -> (forall x y, x ∈ l -> P x y -> Q x y) -> Forall2 Q l k.
Proof.
  induction 1 as [|x y l k Hxy Hall IH]; intros Himp; constructor.
  - apply Himp; [left | done].
  - apply IH. intros x' y' Hin. apply Himp. by right.
Qed.

Lemma call_instances_ok cond op inputs kwargs s insts s' :
  Operator_call_instances cond op inputs kwargs s = (inr insts, s') ->
  exists inputs' s0 sets first more rid,
    _check_schema_num_inputs op inputs = inr tt /\
    _preprocess_inputs inputs (op_name op) (op_device op) (Some (op_schema op)) s
      = (inr inputs', s0) /\
    _build_input_sets op inputs' = inr sets /\
    insts = first :: more /\
    oi_counter (lookup_instance s' first) = rid /\
    Forall2 (node_tied cond op kwargs s0 s' rid) insts sets /\
    (forall j k a b, j < k -> insts !! j = Some a -> insts !! k = Some b ->
       a < b /\ oi_counter (lookup_instance s' a) < oi_counter (lookup_instance s' b)) /\
    (forall b, b ∉ insts -> instances s' !! b =
                            instances (create_instances cond op kwargs sets s0).2 !! b) /\
    length (instances s') = length (instances (create_instances cond op kwargs sets s0).2) /\
    pipeline s' = pipeline (create_instances cond op kwargs sets s0).2 /\
    datanodes s' = datanodes (create_instances cond op kwargs sets s0).2 /\
    op_count s' = op_count (create_instances cond op kwargs sets s0).2.
Proof.
  intros Hrun. apply call_instances_inv in Hrun
    as (inputs' & s0 & sets & s1 & first & more & Hnum & Hpre & Hsets & Hcreate & -> & ->).
  destruct (create_instances_ok _ _ _ _ _ _ _ Hcreate) as (Hprefix & Hall & Hsorted & _).
  pose proof (evolves_create_instances cond op kwargs sets s0) as [Hsteps _].
  rewrite Hcreate in *. simpl in Hsteps.
  set (rid := oi_counter (lookup_instance s1 first)).
  assert (Hlook : forall a, a ∈ first :: more ->
            forall inst, instances s1 !! a = Some inst ->
            foldl (fun l a => alter (set_relation_id rid) a l) (instances s1) (first :: more)
              !! a = Some (set_relation_id rid inst)).
  { intros a Ha inst Hinst. rewrite tie_lookup. rewrite decide_True by done.
    by rewrite Hinst. }
  assert (Hcounter : forall a inst, a ∈ first :: more -> instances s1 !! a = Some inst ->
            oi_counter (lookup_instance
               (mkState (op_count s1)
                  (foldl (fun l a => alter (set_relation_id rid) a l) (instances s1)
                         (first :: more))
                  (datanodes s1) (pipeline s1) (warnings s1)) a) = oi_counter inst).
  { intros a inst Ha Hinst. unfold lookup_instance. cbn [instances].
    by rewrite (Hlook a Ha inst Hinst). }
  exists inputs', s0, sets, first, more, rid. rewrite Hcreate. cbn [snd].
  split_and!; try done.
  - apply Forall2_cons_inv_l in Hall as (set & sets' & (i0 & i & Hi & _) & _ & ->).
    rewrite (Hcounter first i); [|left|done].
    unfold rid. by rewrite (lookup_instance_Some _ _ _ Hi).
  - eapply Forall2_impl_elem; [exact Hall|].
    intros a set Ha
           (i0 & i & H1 & H2 & (S1 & S2 & S3 & S4 & S5) & H4 & H5 & H6 & H7 & H8 & H9).
    exists i0, (set_relation_id rid i). cbn [instances datanodes op_count].
    rewrite (Hlook a Ha i H1). simpl.
    split_and!; try done; try congruence.
  - intros j k a b Hjk Hja Hkb.
    pose proof (Hsorted j k a b Hjk Hja Hkb) as Hab. split; [done|].
    assert (Ha : a ∈ first :: more) by (by eapply list_elem_of_lookup_2).
    assert (Hb : b ∈ first :: more) by (by eapply list_elem_of_lookup_2).
    destruct (Forall2_lookup_l _ _ _ _ _ Hall Hja) as (seta & _ & ia0 & ia & Hia & Hge & _).
    destruct (Forall2_lookup_l _ _ _ _ _ Hall Hkb) as (setb & _ & ib0 & ib & Hib & _).
    rewrite (Hcounter a ia Ha Hia), (Hcounter b ib Hb Hib).
    by eapply (steps_new_sorted s0 s1 a b).
  - intros b Hb. cbn [instances]. rewrite tie_lookup. by rewrite decide_False.
  - cbn [instances]. clear. generalize (instances s1).
    induction (first :: more) as [|a r IH]; intros l; simpl; [done|].
    by rewrite IH, length_alter.
Qed.
(** ** Node ids and relation ids *)






Lemma call_state cond op inputs kwargs s :
  (Operator_call cond op inputs kwargs s).2 =
  (Operator_call_instances cond op inputs kwargs s).2.
Proof.
  unfold Operator_call, bind.
  destruct (Operator_call_instances cond op inputs kwargs s) as [[e|insts] s1]; [done|].
  apply call_result_state.
Qed.


Lemma single_input_set op_name dev schema (inputs outs : list pyval) idx0 s s0 :
  preprocess_loop op_name dev schema idx0 inputs s = (inr outs, s0) ->
  (forall l, PList l ∈ inputs -> is_input (PList l) = false) ->
  _detect_multiple_input_sets outs = false.
Proof.
  intros Hrun Hnone.
  destruct (preprocess_loop_ok _ _ _ _ _ _ _ _ Hrun)
    as (Hlen & _ & _ & _ & _ & Hkeep & Hconv).
  destruct (_detect_multiple_input_sets outs) eqn:Hdet; [|done].
  apply (detect_after_preprocess inputs outs) in Hdet as (l & Hl & Hin); try done.
  - rewrite (Hnone l Hl) in Hin. done.
  - intros idx x Hx Hn. destruct (Hconv idx x Hx Hn) as (h & _ & _ & Hh & _). eauto.
Qed.

(** ** The value a call returns *)

Lemma call_result_single cond a s :
  Operator_call_result cond [a] s = (inr (unwrapped_outputs (lookup_instance s a)), s).
Proof. unfold Operator_call_result, bind, get_instance, ret. by destruct cond. Qed.

Lemma call_result_many a b r s :
  Operator_call_result None (a :: b :: r) s =
  (match _repack_output_sets
           (map (fun a => oi_outputs (lookup_instance s a)) (a :: b :: r)) with
   | inl e => inl e
   | inr v => inr v
   end, s).
Proof.
  unfold Operator_call_result, bind. rewrite collect_outputs_run.
  unfold lift. by destruct (_repack_output_sets _).
Qed.

Lemma omap_lookup_uniform (s : state) (insts : list nat) k m :
  Forall (fun o => length o = m)
         (map (fun a => oi_outputs (lookup_instance s a)) insts) ->
  k < m ->
  Forall2 (fun a h => oi_outputs (lookup_instance s a) !! k = Some h) insts
          (omap (fun o => o !! k) (map (fun a => oi_outputs (lookup_instance s a)) insts)).
Proof.
  induction insts as [|a r IH]; intros Hall Hk; simpl; [constructor|].
  apply Forall_cons in Hall as [Ha Hall].
  destruct (lookup_lt_is_Some_2 (oi_outputs (lookup_instance s a)) k) as [h Hh]; [lia|].
  rewrite Hh. constructor; [done|]. by apply IH.
Qed.

Lemma concat_single_outputs (s : state) (insts : list nat) :
  Forall (fun o => length o = 1)
         (map (fun a => oi_outputs (lookup_instance s a)) insts) ->
  Forall2 (fun a h => oi_outputs (lookup_instance s a) = [h]) insts
          (concat (map (fun a => oi_outputs (lookup_instance s a)) insts)).
Proof.
  induction insts as [|a r IH]; intros Hall; simpl; [constructor|].
  apply Forall_cons in Hall as [Ha Hall].
  destruct (oi_outputs (lookup_instance s a)) as [|h [|h' o]] eqn:E; try done.
  simpl. constructor; [done|]. by apply IH.
Qed.

(** C4: the value of a call whose nodes [insts] were created.  One node:
    its outputs unwrapped, a bare handle for one output and the list of
    handles otherwise.  Several nodes, all with [m] outputs, no
    conditional scope: for [m] other than one, the list holding for each
    output index [k] the list of the [k]-th outputs of the nodes, in
    input-set order; for one output each, the flat list of these single
    handles in input-set order.  Every output handle has the node it came
    from as its producer. *)
Theorem call_outputs_repacked cond op inputs kwargs s insts s' :
  Operator_call_instances cond op inputs kwargs s = (inr insts, s') ->
  let outs := map (fun a => oi_outputs (lookup_instance s' a)) insts in
  (forall a, insts = [a] ->
     Operator_call cond op inputs kwargs s
       = (inr (unwrapped_outputs (lookup_instance s' a)), s') /\
     (forall t, oi_outputs (lookup_instance s' a) = [t] ->
                unwrapped_outputs (lookup_instance s' a) = PData t) /\
     (length (oi_outputs (lookup_instance s' a)) <> 1 ->
      unwrapped_outputs (lookup_instance s' a)
        = PList (map PData (oi_outputs (lookup_instance s' a))))) /\
  (1 < length insts -> cond = None ->
   forall m, Forall (fun o => length o = m) outs -> m <> 1 ->
     Operator_call cond op inputs kwargs s
       = (inr (PList (map (fun k => PList (map PData (omap (fun o => o !! k) outs)))
                          (seq 0 m))), s') /\
     forall k, k < m ->
       Forall2 (fun a h => oi_outputs (lookup_instance s' a) !! k = Some h) insts
               (omap (fun o => o !! k) outs)) /\
  (1 < length insts -> cond = None -> Forall (fun o => length o = 1) outs ->
   exists handles,
     Operator_call cond op inputs kwargs s = (inr (PList (map PData handles)), s') /\
     Forall2 (fun a h => oi_outputs (lookup_instance s' a) = [h] /\
                         dn_source (lookup_datanode s' h) = a) insts handles) /\
  (forall a h, a ∈ insts -> h ∈ oi_outputs (lookup_instance s' a) ->
               dn_source (lookup_datanode s' h) = a).
Proof.
  intros Hrun outs.
  assert (Hsrc : forall a h, a ∈ insts -> h ∈ oi_outputs (lookup_instance s' a) ->
                             dn_source (lookup_datanode s' h) = a).
  { intros a h Ha Hh.
    destruct (call_instances_ok _ _ _ _ _ _ _ Hrun)
      as (inputs' & s0 & sets & first & more & rid & _ & _ & _ & _ & _ & Hall & _).
    apply list_elem_of_lookup in Ha as [j Hj].
    destruct (Forall2_lookup_l _ _ _ _ _ Hall Hj)
      as (set & _ & i0 & inst & Hi & _ & _ & _ & _ & _ & _ & Hprod & _).
    rewrite (lookup_instance_Some _ _ _ Hi) in Hh.
    destruct (Hprod h Hh) as (d & Hd & <-).
    unfold lookup_datanode. by rewrite Hd. }
  assert (Hcall : Operator_call cond op inputs kwargs s = Operator_call_result cond insts s').
  { unfold Operator_call, bind. by rewrite Hrun. }
  split_and!; try done.
  - intros a ->. split_and!.
    + by rewrite Hcall, call_result_single.
    + intros t Ht. unfold unwrapped_outputs. by rewrite Ht.
    + intros Hlen. unfold unwrapped_outputs.
      by destruct (oi_outputs (lookup_instance s' a)) as [|t [|t' o]].
  - intros Hlen -> m Hall Hm. split.
    + rewrite Hcall. destruct insts as [|a [|b r]]; simpl in Hlen; try lia.
      rewrite call_result_many. fold outs.
      rewrite (repack_output_sets_uniform outs m); [| unfold outs; simpl; lia | done].
      by rewrite (proj2 (Nat.eqb_neq m 1) Hm).
    + intros k Hk. by apply omap_lookup_uniform with (m := m).
  - intros Hlen -> Hall. exists (concat outs). split.
    + rewrite Hcall. destruct insts as [|a [|b r]]; simpl in Hlen; try lia.
      rewrite call_result_many. fold outs.
      by rewrite (repack_output_sets_uniform outs 1); [| unfold outs; simpl; lia | done].
    + pose proof (concat_single_outputs s' insts Hall) as Hflat.
      eapply Forall2_impl_elem; [exact Hflat|]. simpl.
      intros a h Ha Hh. split; [done|]. apply Hsrc; [done|]. rewrite Hh. by left.
Qed.

(** C6, as the code has it: for a node whose schema computes zero
    outputs, [generate_outputs] raises the pipeline-required error when
    the operator preserves and no pipeline is current; registers exactly
    one sink, named from the operator type and the node id and produced by
    the node, when the operator preserves and a pipeline is current,
    leaving the node without outputs; and does nothing at all when the
    operator does not preserve: the node then has zero outputs without the
    preserve flag. *)
Theorem zero_output_nodes self s inst :
  instances s !! self = Some inst -> num_outputs inst = 0 ->
  (op_preserve (oi_op inst) = true -> pipeline s = None ->
   generate_outputs self s = (inl (PipelineRequired "Operators with side-effects "), s)) /\
  (op_preserve (oi_op inst) = true -> forall sinks, pipeline s = Some sinks ->
   exists s',
     generate_outputs self s = (inr tt, s') /\
     pipeline s' = Some (sinks ++ [length (datanodes s)]) /\
     datanodes s' = datanodes s ++
                    [mkDataNode (op_name (oi_op inst) +:+ "_id_"
                                 +:+ str_nat (oi_counter inst) +:+ "_sink")
                                (output_device_of (op_device (oi_op inst))) self] /\
     instances s' = instances s /\
     oi_outputs (lookup_instance s' self) = oi_outputs inst) /\
  (op_preserve (oi_op inst) = false -> generate_outputs self s = (inr tt, s)).
Proof.
  intros Hinst Hz. split_and!.
  - intros Hp Hn. by apply (generate_outputs_no_pipeline self s inst).
  - intros Hp sinks Hs. eexists.
    rewrite (generate_outputs_sink self s inst sinks Hinst Hp Hs Hz).
    split_and!; try done. simpl. unfold lookup_instance. simpl. by rewrite Hinst.
  - intros Hp. by apply (generate_outputs_none self s inst).
Qed.
(** ** Call-time arguments against the bound ones *)



Lemma instantiate_inputs_handles dev inputs : forall s,
  Forall (fun x => is_DataNode x = true) inputs ->
  instantiate_inputs dev inputs s = (inr inputs, s).
Proof.
  induction inputs as [|x rest IH]; intros s Hall; simpl; [done|].
  apply Forall_cons in Hall as [Hx Hall]. destruct x; try done.
  unfold bind at 1, ret at 1. unfold bind. by rewrite IH.
Qed.






Lemma call_style_supplied (kwargs : kwargs_t) k v :
  NoDup (dict_keys kwargs) ->
  (k, v) ∈ snd (_separate_kwargs kwargs) <->
  (k, v) ∈ kwargs /\ is_None v = false /\ is_call_arg k v = true.
Proof.
  intros Hnd. unfold _separate_kwargs.
  rewrite separate_loop_spec; [simpl | done |];
    [| intros k0 _; split; apply not_elem_of_nil].
  rewrite list_elem_of_omap. split.
  - intros ([k0 v0] & Hin & Hc). unfold call_of in Hc. simpl in Hc.
    rewrite classify_spec_code in Hc.
    destruct (is_None v0) eqn:Hn; [done|].
    destruct (is_call_arg k0 v0) eqn:Hca; [|done].
    injection Hc as -> ->. done.
  - intros (Hin & Hn & Hca). exists (k, v). split; [done|].
    unfold call_of. simpl. by rewrite classify_spec_code, Hn, Hca.
Qed.






(** ** Input sets of a fan-out call *)



Lemma check_lengths_ok op_name n (inputs : list pyval) :
  check_lengths op_name n inputs = inr tt ->
  forall l, PList l ∈ inputs -> length l = n.
Proof.
  induction inputs as [|x rest IH]; intros Hrun l Hin; [by apply elem_of_nil in Hin|].
  simpl in Hrun. apply elem_of_cons in Hin as [<-|Hin].
  - by destruct (Nat.eqb_spec (length l) n).
  - destruct x as [| | | |l'| | |]; try by apply IH.
    destruct (Nat.eqb (length l') n); [by apply IH | done].
Qed.

Lemma check_common_length_ok op_name (inputs : list pyval) n :
  _check_common_length op_name inputs = inr n ->
  forall l, PList l ∈ inputs -> length l = n.
Proof.
  unfold _check_common_length. destruct (py_max _) as [e|m]; [done|].
  destruct (check_lengths op_name m inputs) as [e|[]] eqn:Hc; [done|].
  intros [= <-]. by apply (check_lengths_ok op_name).
Qed.

Lemma unify_lengths (inputs : list pyval) n :
  (forall l, PList l ∈ inputs -> length l = n) ->
  Forall (fun o => length o = n) (_unify_lists inputs n).
Proof.
  intros Hlen. unfold _unify_lists. apply Forall_fmap, Forall_forall.
  intros x Hx. simpl. destruct x; try apply repeat_length. by apply Hlen.
Qed.

Lemma repeat_lookup_lt {A} (x : A) n : forall j, j < n -> repeat x n !! j = Some x.
Proof.
  induction n as [|n IH]; intros j Hj; [lia|]. destruct j as [|j]; [done|].
  simpl. apply IH. lia.
Qed.

Lemma unified_lookup (inputs : list pyval) n j p :
  j < n -> (forall l, PList l ∈ inputs -> length l = n) ->
  omap (fun o => o !! j) (_unify_lists inputs n) !! p =
  match inputs !! p with
  | Some (PList l) => l !! j
  | Some x => Some x
  | None => None
  end.
Proof.
  intros Hj. revert p. induction inputs as [|x rest IH]; intros p Hlen; [done|].
  assert (Hrest : forall l, PList l ∈ rest -> length l = n).
  { intros l Hl. apply Hlen. by right. }
  assert (Hx : exists v, match x with PList l => l | _ => repeat x n end !! j = Some v /\
                         v = match x with PList l => default x (l !! j) | _ => x end).
  { destruct x as [| | | |l| | |];
      try (eexists; split; [by apply repeat_lookup_lt | done]).
    destruct (lookup_lt_is_Some_2 l j) as [v Hv]; [rewrite (Hlen l); [done | left]|].
    exists v. by rewrite Hv. }
  destruct Hx as (v & Hv & Ev). simpl. rewrite Hv. destruct p as [|p]; simpl.
  - destruct x; by subst.
  - by apply IH.
Qed.

Lemma build_input_sets_fanout op (inputs : list pyval) sets l :
  _build_input_sets op inputs = inr sets -> PList l ∈ inputs ->
  (forall l', PList l' ∈ inputs -> length l' = length l) /\
  sets = map (fun j => omap (fun o => o !! j) (_unify_lists inputs (length l)))
             (seq 0 (length l)).
Proof.
  intros Hsets Hin. unfold _build_input_sets in Hsets.
  assert (Hdet : _detect_multiple_input_sets inputs = true).
  { unfold _detect_multiple_input_sets. apply existsb_exists.
    exists (PList l). split; [by apply list_elem_of_In | done]. }
  rewrite Hdet in Hsets.
  destruct (_check_common_length (op_name op) inputs) as [e|n] eqn:Hlen; [done|].
  pose proof (check_common_length_ok _ _ _ Hlen) as Hall.
  pose proof (Hall l Hin) as El. subst n. split; [done|].
  unfold _repack_input_sets in Hsets.
  rewrite (repack_list_uniform _ (length l)) in Hsets.
  - by injection Hsets as <-.
  - destruct inputs; [by apply elem_of_nil in Hin | done].
  - by apply unify_lengths.
Qed.


Lemma unified_length (inputs : list pyval) n j :
  j < n -> (forall l, PList l ∈ inputs -> length l = n) ->
  length (omap (fun o => o !! j) (_unify_lists inputs n)) = length inputs.
Proof.
  intros Hj. induction inputs as [|x rest IH]; intros Hlen; [done|].
  assert (Hrest : forall l, PList l ∈ rest -> length l = n).
  { intros l Hl. apply Hlen. by right. }
  simpl. destruct x as [| | | |l| | |];
    try (rewrite repeat_lookup_lt by done; simpl; f_equal; by apply IH).
  destruct (lookup_lt_is_Some_2 l j) as [v Hv]; [rewrite (Hlen l); [done | left]|].
  rewrite Hv. simpl. f_equal. by apply IH.
Qed.



(** ** Failing calls and the sinks of the pipeline *)

(** The sink list is only added to, and no pipeline becomes current. *)
Definition sinks_grow (s s' : state) : Prop :=
  match pipeline s with
  | Some sinks => exists added, pipeline s' = Some (sinks ++ added)
  | None => pipeline s' = None
  end.

Local Instance sinks_grow_preorder : PreOrder sinks_grow.
Proof.
  split.
  - intros s. unfold sinks_grow.
    destruct (pipeline s); [exists []; by rewrite app_nil_r | done].
  - intros s1 s2 s3. unfold sinks_grow. destruct (pipeline s1).
    + intros [a1 ->] [a2 ->]. exists (a1 ++ a2). by rewrite app_assoc.
    + by intros ->.
Qed.

Lemma same_pipeline_grows {A} (m : M A) : pres grows m -> pres same_pipeline m.
Proof. intros H s. apply H. Qed.

Lemma sinks_grow_same {A} (m : M A) : pres same_pipeline m -> pres sinks_grow m.
Proof.
  intros H s. unfold sinks_grow. rewrite (H s).
  destruct (pipeline s); [exists []; by rewrite app_nil_r | done].
Qed.

Lemma sinks_grow_grows {A} (m : M A) : pres grows m -> pres sinks_grow m.
Proof. intros H. by apply sinks_grow_same, same_pipeline_grows. Qed.

Lemma sinks_grow_add_sink t : pres sinks_grow (add_sink t).
Proof.
  intros s. unfold add_sink, sinks_grow.
  destruct (pipeline s) eqn:E; simpl; [by eauto | done].
Qed.

Lemma sinks_grow_generate_outputs_loop self preserve name dev n idxs :
  pres sinks_grow (generate_outputs_loop self preserve name dev n idxs).
Proof.
  induction idxs as [|i rest IH]; simpl; repeat pres_step; try done;
    try apply sinks_grow_add_sink;
    try (apply sinks_grow_grows, grows_new_DataNode);
    try (apply sinks_grow_grows, grows_spec_AddOutput);
    try (apply sinks_grow_grows, grows_update_instance; by intros ?).
Qed.

Lemma sinks_grow_generate_outputs self : pres sinks_grow (generate_outputs self).
Proof.
  unfold generate_outputs. repeat pres_step;
    try apply sinks_grow_generate_outputs_loop; try apply sinks_grow_add_sink;
    try (apply sinks_grow_grows, grows_new_DataNode).
Qed.

Lemma sinks_grow_create_instances cond op kwargs input_sets :
  pres sinks_grow (create_instances cond op kwargs input_sets).
Proof.
  induction input_sets as [|x rest IH]; simpl; repeat pres_step; try done;
    try apply sinks_grow_generate_outputs;
    try apply sinks_grow_grows, grows_OperatorInstance_init.
Qed.

Lemma same_pipeline_tie rid insts : pres same_pipeline (tie_instances rid insts).
Proof. intros s. by rewrite tie_instances_run. Qed.

Lemma sinks_grow_call_instances cond op inputs kwargs :
  pres sinks_grow (Operator_call_instances cond op inputs kwargs).
Proof.
  unfold Operator_call_instances, _preprocess_inputs. repeat pres_step;
    try apply sinks_grow_create_instances;
    try (apply sinks_grow_grows, grows_preprocess_loop);
    try (apply sinks_grow_same, same_pipeline_tie).
Qed.

Lemma same_pipeline_init cond inputs op kwargs s :
  pipeline (OperatorInstance_init cond inputs op kwargs s).2 = pipeline s.
Proof. by destruct (grows_OperatorInstance_init cond inputs op kwargs s) as [_ H]. Qed.

Lemma same_pipeline_preprocess inputs name device schema s :
  pipeline (_preprocess_inputs inputs name device schema s).2 = pipeline s.
Proof. unfold _preprocess_inputs. by destruct (grows_preprocess_loop name
         (if device =? "gpu" then "gpu" else "cpu") schema inputs 0 s) as [_ H]. Qed.

(** *** An operator that does not preserve registers nothing *)

Lemma same_pipeline_loop_no_preserve self name dev n idxs :
  pres same_pipeline (generate_outputs_loop self false name dev n idxs).
Proof.
  induction idxs as [|i rest IH]; simpl; repeat pres_step; try done;
    try (apply same_pipeline_grows, grows_new_DataNode);
    try (apply same_pipeline_grows, grows_spec_AddOutput);
    try (apply same_pipeline_grows, grows_update_instance; by intros ?).
Qed.

Lemma generate_outputs_no_preserve self s inst :
  instances s !! self = Some inst -> op_preserve (oi_op inst) = false ->
  pipeline (generate_outputs self s).2 = pipeline s.
Proof.
  intros Hinst Hp. unfold generate_outputs.
  unfold bind at 1, get_instance at 1. rewrite (lookup_instance_Some _ _ _ Hinst).
  unfold bind at 1, Pipeline_current at 1. rewrite Hp, !andb_false_r.
  apply same_pipeline_loop_no_preserve.
Qed.

Lemma create_instances_no_preserve cond op kwargs sets :
  op_preserve op = false ->
  forall s, pipeline (create_instances cond op kwargs sets s).2 = pipeline s.
Proof.
  intros Hp. induction sets as [|set rest IH]; intros s; simpl; [done|].
  unfold bind at 1.
  pose proof (same_pipeline_init cond set op kwargs s) as Hp1.
  destruct (OperatorInstance_init cond set op kwargs s) as [[e|a] s1] eqn:Hinit; [done|].
  simpl in Hp1.
  destruct (init_node _ _ _ _ _ _ _ Hinit)
    as (-> & inst0 & new & Hinsts1 & _ & _ & _ & _ & Hop & _).
  assert (Hlook1 : instances s1 !! length (instances s) = Some inst0).
  { rewrite Hinsts1. by rewrite lookup_app_r, Nat.sub_diag by lia. }
  pose proof (generate_outputs_no_preserve _ _ _ Hlook1 ltac:(by rewrite Hop)) as Hp2.
  unfold bind at 1.
  destruct (generate_outputs (length (instances s)) s1) as [[e|[]] s2]; simpl in Hp2;
    [simpl; congruence|].
  specialize (IH s2). unfold bind.
  destruct (create_instances cond op kwargs rest s2) as [[e|more] s3]; simpl in *;
    congruence.
Qed.

Lemma call_instances_state cond op inputs kwargs s :
  pipeline (Operator_call_instances cond op inputs kwargs s).2 =
  match _check_schema_num_inputs op inputs with
  | inl _ => pipeline s
  | inr _ =>
      match _preprocess_inputs inputs (op_name op) (op_device op) (Some (op_schema op)) s with
      | (inl _, s0) => pipeline s0
      | (inr outs, s0) =>
          match _build_input_sets op outs with
          | inl _ => pipeline s0
          | inr sets => pipeline (create_instances cond op kwargs sets s0).2
          end
      end
  end.
Proof.
  unfold Operator_call_instances.
  destruct (_check_schema_num_inputs op inputs) as [e|[]]; [done|].
  simpl. unfold bind at 1, ret at 1. unfold bind at 1.
  destruct (_preprocess_inputs _ _ _ _ s) as [[e|outs] s0]; [done|].
  destruct (_build_input_sets op outs) as [e|sets]; [done|].
  simpl. unfold bind at 1, ret at 1. unfold bind at 1.
  destruct (create_instances cond op kwargs sets s0) as [[e|[|first more]] s1]; try done.
  unfold bind at 1, get_instance at 1. unfold bind. by rewrite tie_instances_run.
Qed.

(** *** The stages before the first registration *)

Lemma call_fails_in_build cond op inputs kwargs s outs s0 e0 :
  _check_schema_num_inputs op inputs = inr tt ->
  _preprocess_inputs inputs (op_name op) (op_device op) (Some (op_schema op)) s
    = (inr outs, s0) ->
  _build_input_sets op outs = inl e0 ->
  Operator_call cond op inputs kwargs s = (inl e0, s0).
Proof.
  intros Hnum Hpre Hsets. unfold Operator_call, Operator_call_instances.
  rewrite Hnum. simpl. unfold bind at 1 2 3, ret at 1. by rewrite Hpre, Hsets.
Qed.

Lemma call_fails_in_first_node cond op inputs kwargs s outs s0 set rest e0 s1 :
  _check_schema_num_inputs op inputs = inr tt ->
  _preprocess_inputs inputs (op_name op) (op_device op) (Some (op_schema op)) s
    = (inr outs, s0) ->
  _build_input_sets op outs = inr (set :: rest) ->
  (a <- OperatorInstance_init cond set op kwargs ;; generate_outputs a ;;; ret a) s0
    = (inl e0, s1) ->
  Operator_call cond op inputs kwargs s = (inl e0, s1).
Proof.
  intros Hnum Hpre Hsets Hfirst.
  assert (Hc : create_instances cond op kwargs (set :: rest) s0 = (inl e0, s1)).
  { simpl. unfold bind at 1. unfold bind at 1 in Hfirst.
    destruct (OperatorInstance_init cond set op kwargs s0) as [[e|a] sa];
      [by injection Hfirst as -> ->|].
    unfold bind at 1. unfold bind at 1 in Hfirst.
    destruct (generate_outputs a sa) as [[e|[]] sb]; [|done].
    by injection Hfirst as -> ->. }
  unfold Operator_call, Operator_call_instances.
  rewrite Hnum. simpl. unfold bind at 1 2 3, ret at 1. rewrite Hpre, Hsets.
  simpl lift. unfold bind at 1, ret at 1. unfold bind at 1. by rewrite Hc.
Qed.

(** *** A node with at most one output *)

Lemma bind_fail_inv {A B} (m : M A) (f : A -> M B) s e s' :
  bind m f s = (inl e, s') ->
  m s = (inl e, s') \/ exists x s1, m s = (inr x, s1) /\ f x s1 = (inl e, s').
Proof.
  unfold bind. destruct (m s) as [[e0|x] s1]; [|by eauto].
  intros [= -> ->]. by left.
Qed.

Lemma generate_outputs_fail_single self s inst e s' :
  instances s !! self = Some inst -> num_outputs inst <= 1 ->
  generate_outputs self s = (inl e, s') -> pipeline s' = pipeline s.
Proof.
  intros Hinst Hn. unfold generate_outputs.
  unfold bind at 1, get_instance at 1. rewrite (lookup_instance_Some _ _ _ Hinst).
  unfold bind at 1, Pipeline_current at 1.
  destruct (negb _ && op_preserve (oi_op inst)) eqn:Hnp; [by intros [= _ <-]|].
  fold (num_outputs inst).
  destruct (Nat.eqb (num_outputs inst) 0 && op_preserve (oi_op inst)) eqn:Hzp.
  - apply andb_true_iff in Hzp as [_ Hp]. rewrite Hp, andb_true_r in Hnp.
    unfold bind, new_DataNode, add_sink. simpl.
    by destruct (pipeline s).
  - destruct (num_outputs inst) as [|[|n]] eqn:En; [by intros [= _ <-] | | lia].
    simpl. intros Hrun.
    apply bind_fail_inv in Hrun as [Hrun|(t_name & s1 & H1 & Hrun)]; [done|].
    injection H1 as <- <-.
    apply bind_fail_inv in Hrun as [Hrun|(t & s2 & H2 & Hrun)]; [done|].
    injection H2 as <- <-.
    apply bind_fail_inv in Hrun as [Hrun|([] & s3 & H3 & Hrun)].
    { match type of Hrun with
      | spec_AddOutput ?a ?n ?d ?st = _ =>
          pose proof (grows_spec_AddOutput a n d st) as [_ Hp]
      end.
      by rewrite Hrun in Hp. }
    apply spec_AddOutput_inv in H3 as (spec' & ->).
    apply bind_fail_inv in Hrun as [Hrun|([] & s4 & H4 & Hrun)].
    { destruct (op_preserve (oi_op inst)); [|done].
      unfold add_sink in Hrun. simpl in Hrun.
      destruct (pipeline s); [done|]. by injection Hrun as _ <-. }
    apply bind_fail_inv in Hrun as [Hrun|([] & s5 & H5 & Hrun)]; [|done].
    unfold append_output in Hrun. by rewrite update_instance_run in Hrun.
Qed.

(** A call whose one node is built and has its outputs returns. *)
Lemma call_single_returns cond op inputs kwargs s outs s0 a s1 s2 :
  _check_schema_num_inputs op inputs = inr tt ->
  _preprocess_inputs inputs (op_name op) (op_device op) (Some (op_schema op)) s
    = (inr outs, s0) ->
  _build_input_sets op outs = inr [outs] ->
  OperatorInstance_init cond outs op kwargs s0 = (inr a, s1) ->
  generate_outputs a s1 = (inr tt, s2) ->
  exists v s3, Operator_call cond op inputs kwargs s = (inr v, s3).
Proof.
  intros Hnum Hpre Hsets Hinit Hgen. unfold Operator_call.
  assert (Hc : exists s3, Operator_call_instances cond op inputs kwargs s = (inr [a], s3)).
  { assert (Hcr : create_instances cond op kwargs [outs] s0 = (inr [a], s2)).
    { simpl. unfold bind at 1. rewrite Hinit. unfold bind at 1. by rewrite Hgen. }
    unfold Operator_call_instances.
    rewrite Hnum. simpl. unfold bind at 1 2 3, ret at 1. rewrite Hpre, Hsets.
    simpl lift. unfold bind at 1, ret at 1. unfold bind at 1. rewrite Hcr.
    unfold bind at 1, get_instance at 1. unfold bind. rewrite tie_instances_run.
    by eauto. }
  destruct Hc as [s3 Hc]. unfold bind at 1. rewrite Hc.
  rewrite call_result_single. by eauto.
Qed.

(** C5, as the code has it.  A call only ever adds to the sink list, and
    a call of an operator that does not preserve leaves it as it is.  A
    call that fails in the input count check, in the preprocessing of its
    inputs, in building its input sets or in the [__init__] of its first
    node leaves the sink list as it was, and so does the call of a
    preserving operator made without a current pipeline, which fails once
    its first node is built.  Without the conditional hook, a call
    without a fan-out list among its inputs, to an operator whose schema
    computes at most one output, is atomic: whenever it fails the sink
    list is as it was.  Nothing is undone: what a call registered before
    it failed stays registered. *)
Theorem failing_call_keeps_sinks cond op inputs kwargs s :
  (forall sinks, pipeline s = Some sinks ->
     exists added, pipeline (Operator_call cond op inputs kwargs s).2 = Some (sinks ++ added)) /\
  (pipeline s = None -> pipeline (Operator_call cond op inputs kwargs s).2 = None) /\
  (op_preserve op = false ->
   pipeline (Operator_call cond op inputs kwargs s).2 = pipeline s) /\
  (forall e0, _check_schema_num_inputs op inputs = inl e0 ->
     Operator_call cond op inputs kwargs s = (inl e0, s)) /\
  (_check_schema_num_inputs op inputs = inr tt ->
   (forall e0 s0,
      _preprocess_inputs inputs (op_name op) (op_device op) (Some (op_schema op)) s
        = (inl e0, s0) ->
      Operator_call cond op inputs kwargs s = (inl e0, s0) /\ pipeline s0 = pipeline s) /\
   (forall outs s0,
      _preprocess_inputs inputs (op_name op) (op_device op) (Some (op_schema op)) s
        = (inr outs, s0) ->
      (forall e0, _build_input_sets op outs = inl e0 ->
         Operator_call cond op inputs kwargs s = (inl e0, s0) /\ pipeline s0 = pipeline s) /\
      (forall set rest e0 s1,
         _build_input_sets op outs = inr (set :: rest) ->
         OperatorInstance_init cond set op kwargs s0 = (inl e0, s1) ->
         Operator_call cond op inputs kwargs s = (inl e0, s1) /\ pipeline s1 = pipeline s) /\
      (forall set rest a s1,
         _build_input_sets op outs = inr (set :: rest) ->
         OperatorInstance_init cond set op kwargs s0 = (inr a, s1) ->
         op_preserve op = true -> pipeline s = None ->
         Operator_call cond op inputs kwargs s
           = (inl (PipelineRequired "Operators with side-effects "), s1) /\
         pipeline s1 = None))) /\
  (cond = None ->
   (forall spec, CalculateOutputs (op_schema op) spec
                 + CalculateAdditionalOutputs (op_schema op) spec <= 1) ->
   (forall l, PList l ∈ inputs -> ~ data_input (PList l)) ->
   forall e s', Operator_call cond op inputs kwargs s = (inl e, s') ->
                pipeline s' = pipeline s).
Proof.
  pose proof (sinks_grow_call_instances cond op inputs kwargs s) as Hgrow.
  unfold sinks_grow in Hgrow. rewrite <- call_state in Hgrow.
  split_and!.
  - intros sinks Hs. by rewrite Hs in Hgrow.
  - intros Hn. by rewrite Hn in Hgrow.
  - intros Hp. rewrite call_state, call_instances_state.
    destruct (_check_schema_num_inputs op inputs) as [e|[]]; [done|].
    pose proof (same_pipeline_preprocess inputs (op_name op) (op_device op)
                  (Some (op_schema op)) s) as Hp0.
    destruct (_preprocess_inputs _ _ _ _ s) as [[e|outs] s0]; [done|]. simpl in Hp0.
    destruct (_build_input_sets op outs) as [e|sets]; [done|].
    by rewrite create_instances_no_preserve.
  - intros e0 Hnum. unfold Operator_call, Operator_call_instances. by rewrite Hnum.
  - intros Hnum. split.
    + intros e0 s0 Hpre.
      pose proof (same_pipeline_preprocess inputs (op_name op) (op_device op)
                    (Some (op_schema op)) s) as Hp0.
      rewrite Hpre in Hp0. split; [|done].
      unfold Operator_call, Operator_call_instances.
      rewrite Hnum. simpl. unfold bind at 1 2 3, ret at 1. by rewrite Hpre.
    + intros outs s0 Hpre.
      pose proof (same_pipeline_preprocess inputs (op_name op) (op_device op)
                    (Some (op_schema op)) s) as Hp0.
      rewrite Hpre in Hp0. simpl in Hp0.
      split_and!.
      * intros e0 Hsets. split; [|done]. by eapply call_fails_in_build.
      * intros set rest e0 s1 Hsets Hinit.
        pose proof (same_pipeline_init cond set op kwargs s0) as Hp1.
        rewrite Hinit in Hp1. simpl in Hp1. split; [|congruence].
        eapply call_fails_in_first_node; try done.
        unfold bind at 1. by rewrite Hinit.
      * intros set rest a s1 Hsets Hinit Hp Hnone.
        pose proof (same_pipeline_init cond set op kwargs s0) as Hp1.
        rewrite Hinit in Hp1. simpl in Hp1.
        assert (Hn1 : pipeline s1 = None) by congruence. split; [|done].
        destruct (init_node _ _ _ _ _ _ _ Hinit)
          as (-> & inst0 & new & Hinsts1 & _ & _ & _ & _ & Hop & _).
        assert (Hlook1 : instances s1 !! length (instances s0) = Some inst0).
        { rewrite Hinsts1. by rewrite lookup_app_r, Nat.sub_diag by lia. }
        eapply call_fails_in_first_node; try done.
        unfold bind at 1. rewrite Hinit. unfold bind at 1.
        rewrite (generate_outputs_no_pipeline _ _ _ Hlook1); [done| |done].
        by rewrite Hop.
  - intros _ Harity Hnofan e s' Hfail.
    destruct (_check_schema_num_inputs op inputs) as [e0|[]] eqn:Hnum.
    { unfold Operator_call, Operator_call_instances in Hfail. rewrite Hnum in Hfail.
      by injection Hfail as _ <-. }
    pose proof (same_pipeline_preprocess inputs (op_name op) (op_device op)
                  (Some (op_schema op)) s) as Hp0.
    destruct (_preprocess_inputs inputs (op_name op) (op_device op)
                (Some (op_schema op)) s) as [[e0|outs] s0] eqn:Hpre.
    { unfold Operator_call, Operator_call_instances in Hfail. rewrite Hnum in Hfail.
      simpl in Hfail. unfold bind at 1 2 3, ret at 1 in Hfail. rewrite Hpre in Hfail.
      by injection Hfail as _ <-. }
    simpl in Hp0.
    assert (Hsets : _build_input_sets op outs = inr [outs]).
    { unfold _build_input_sets. unfold _preprocess_inputs in Hpre.
      rewrite (single_input_set _ _ _ _ _ _ _ _ Hpre); [done|].
      intros l Hl. specialize (Hnofan l Hl). rewrite <- is_input_data_input in Hnofan.
      by destruct (is_input (PList l)). }
    pose proof (same_pipeline_init cond outs op kwargs s0) as Hp1.
    destruct (OperatorInstance_init cond outs op kwargs s0) as [[e0|a] s1] eqn:Hinit.
    { rewrite (call_fails_in_first_node cond op inputs kwargs s outs s0 outs [] e0 s1)
        in Hfail; try done.
      - injection Hfail as _ <-. simpl in Hp1. congruence.
      - unfold bind at 1. by rewrite Hinit. }
    simpl in Hp1.
    destruct (init_node _ _ _ _ _ _ _ Hinit)
      as (-> & inst0 & new & Hinsts1 & _ & _ & _ & _ & Hop & _).
    assert (Hlook1 : instances s1 !! length (instances s0) = Some inst0).
    { rewrite Hinsts1. by rewrite lookup_app_r, Nat.sub_diag by lia. }
    destruct (generate_outputs (length (instances s0)) s1) as [[e1|[]] s2] eqn:Hgen.
    + rewrite (call_fails_in_first_node cond op inputs kwargs s outs s0 outs [] e1 s2)
        in Hfail; try done.
      * injection Hfail as _ <-.
        rewrite (generate_outputs_fail_single _ _ _ _ _ Hlook1 ltac:(unfold num_outputs; rewrite Hop; apply Harity) Hgen).
        congruence.
      * unfold bind at 1. rewrite Hinit. unfold bind at 1. by rewrite Hgen.
    + destruct (call_single_returns _ _ _ _ _ _ _ _ _ _ Hnum Hpre Hsets Hinit Hgen)
        as (v & s3 & Hok).
      congruence.
Qed.

(** * Further properties of the call path *)

(** ** The input count check *)

(** X1: The number of positional inputs is checked before anything else: a
    count within the schema's bounds passes, and a call with a count
    outside them fails with the ValueError that names the operator, the
    bounds and the count, leaving the state untouched (no constant node
    has been created yet), with or without the conditional hook. *)
Theorem input_count_checked_first cond op (inputs : list pyval) kwargs s :
  ((MinNumInput (op_schema op) <= Z.of_nat (length inputs)
    <= MaxNumInput (op_schema op))%Z ->
   _check_schema_num_inputs op inputs = inr tt) /\
  ((Z.of_nat (length inputs) < MinNumInput (op_schema op)
    \/ MaxNumInput (op_schema op) < Z.of_nat (length inputs))%Z ->
   Operator_call cond op inputs kwargs s
   = (inl (ValueError ("Operator " +:+ op_name op +:+ " expects from "
                       +:+ NilEmpty.string_of_int (Z.to_int (MinNumInput (op_schema op)))
                       +:+ " to "
                       +:+ NilEmpty.string_of_int (Z.to_int (MaxNumInput (op_schema op)))
                       +:+ " inputs, but received " +:+ str_nat (length inputs) +:+ ".")),
      s)).
Proof.
  split.
  - intros [Hlo Hhi]. unfold _check_schema_num_inputs.
    rewrite (proj2 (Z.ltb_ge _ _) Hlo), (proj2 (Z.ltb_ge _ _) Hhi). done.
  - intros Hout. unfold Operator_call, Operator_call_instances, _check_schema_num_inputs.
    assert (Hb : ((Z.of_nat (length inputs) <? MinNumInput (op_schema op))
                  || (MaxNumInput (op_schema op) <? Z.of_nat (length inputs)))%Z = true).
    { apply orb_true_iff. destruct Hout as [H|H]; [left | right]; by apply Z.ltb_lt. }
    rewrite Hb. done.
Qed.

(** ** Input preprocessing *)

Lemma preprocessed_are_inputs op_name dev schema (inputs outs : list pyval) idx0 s s0 :
  preprocess_loop op_name dev schema idx0 inputs s = (inr outs, s0) ->
  Forall (fun x => is_input x = true) outs.
Proof.
  intros Hrun.
  destruct (preprocess_loop_ok _ _ _ _ _ _ _ _ Hrun)
    as (Hlen & _ & _ & _ & _ & Hkeep & Hconv).
  apply Forall_lookup. intros p y Hy.
  destruct (inputs !! p) as [x|] eqn:Hx.
  - destruct (is_input x) eqn:Hin.
    + rewrite (Hkeep p x Hx Hin) in Hy. by injection Hy as <-.
    + destruct (Hconv p x Hx Hin) as (h & _ & _ & Hh & _).
      rewrite Hh in Hy. by injection Hy as <-.
  - apply lookup_ge_None in Hx. apply lookup_lt_Some in Hy. lia.
Qed.

(** X2: [_preprocess_inputs] is idempotent: a list of data inputs is
    returned as it is, with nothing changed; what a run returns are data
    inputs only, so preprocessing the result again, for whatever
    operator, returns the same list and changes nothing. *)
Theorem preprocess_inputs_idempotent op_name device schema (inputs : list pyval) s :
  (Forall (fun x => is_input x = true) inputs ->
   _preprocess_inputs inputs op_name device schema s = (inr inputs, s)) /\
  (forall outs s',
     _preprocess_inputs inputs op_name device schema s = (inr outs, s') ->
     Forall (fun x => is_input x = true) outs /\
     forall op_name' device' schema' s2,
       _preprocess_inputs outs op_name' device' schema' s2 = (inr outs, s2)).
Proof.
  unfold _preprocess_inputs. split.
  - intros Hall. apply preprocess_loop_inputs. by apply Forall_forall.
  - intros outs s' Hrun.
    pose proof (preprocessed_are_inputs _ _ _ _ _ _ _ _ Hrun) as Hall.
    split; [done|]. intros op_name' device' schema' s2.
    apply preprocess_loop_inputs. by apply Forall_forall.
Qed.

(** ** Building the input sets *)

Lemma foldl_max_le (l : list nat) n : forall x,
  x <= n -> Forall (fun y => y <= n) l -> foldl Nat.max x l <= n.
Proof.
  induction l as [|z l IH]; intros x Hx Hall; simpl; [done|].
  apply Forall_cons in Hall as [Hz Hall]. apply IH; [lia | done].
Qed.

Lemma py_max_common (inputs : list pyval) l :
  PList l ∈ inputs -> 0 < length l ->
  (forall l', PList l' ∈ inputs -> length l' = length l) ->
  py_max (map _safe_len inputs) = inr (length l).
Proof.
  intros Hin Hpos Hlen.
  destruct (py_max_ge (map _safe_len inputs) (length l)) as (m & Hm & Hge).
  { by apply (list_elem_of_fmap_2 _safe_len _ (PList l)). }
  rewrite Hm. f_equal. apply Nat.le_antisymm.
  - assert (Hall : Forall (fun y => y <= length l) (map _safe_len inputs)).
    { apply Forall_fmap, Forall_forall. intros x Hx. simpl.
      destruct x as [| | | |l'| | |]; simpl; try lia. by rewrite (Hlen l' Hx). }
    destruct (map _safe_len inputs) as [|x r]; [done|]. simpl in Hm.
    injection Hm as <-. apply Forall_cons in Hall as [Hx Hall]. by apply foldl_max_le.
  - apply Hge. by apply (list_elem_of_fmap_2 _safe_len _ (PList l)).
Qed.

Lemma check_lengths_pass op_name n (inputs : list pyval) :
  (forall l, PList l ∈ inputs -> length l = n) -> check_lengths op_name n inputs = inr tt.
Proof.
  induction inputs as [|x rest IH]; intros Hlen; [done|].
  assert (Hrest : forall l, PList l ∈ rest -> length l = n).
  { intros l Hl. apply Hlen. by right. }
  simpl. destruct x as [| | | |l| | |]; try by apply IH.
  rewrite (Hlen l) by left. rewrite Nat.eqb_refl. by apply IH.
Qed.

(** X3: [_build_input_sets]: without a list among the inputs there is the
    one input set; with lists, all of one positive length, the input
    sets are built, and whenever they are there are as many input sets
    as the lists are long, each as long as the inputs, set [j] holding
    element [j] of every list and the other inputs as they are.  A
    non-list input counts as length one when the common length is taken,
    so an empty list beside a non-list input is a length mismatch. *)
Theorem build_input_sets_transposes op (inputs : list pyval) :
  (Forall (fun x => is_list x = false) inputs -> _build_input_sets op inputs = inr [inputs]) /\
  (forall l, PList l ∈ inputs -> 0 < length l ->
     (forall l', PList l' ∈ inputs -> length l' = length l) ->
     exists sets, _build_input_sets op inputs = inr sets) /\
  (forall sets l,
     _build_input_sets op inputs = inr sets -> PList l ∈ inputs ->
     length sets = length l /\
     (forall l', PList l' ∈ inputs -> length l' = length l) /\
     forall j set, sets !! j = Some set ->
       length set = length inputs /\
       forall p x, inputs !! p = Some x ->
         set !! p = match x with PList l' => l' !! j | _ => Some x end) /\
  (forall x, PList [] ∈ inputs -> x ∈ inputs -> is_list x = false ->
     _build_input_sets op inputs = inl (ValueError (length_mismatch_msg (op_name op)))).
Proof.
  split_and!.
  - intros Hall. unfold _build_input_sets, _detect_multiple_input_sets.
    assert (existsb is_list inputs = false) as ->; [|done].
    apply not_true_is_false. intros (x & Hx%list_elem_of_In & Hl)%existsb_exists.
    rewrite Forall_forall in Hall. by rewrite (Hall x Hx) in Hl.
  - intros l Hl Hpos Hlen. unfold _build_input_sets.
    assert (Hdet : _detect_multiple_input_sets inputs = true).
    { unfold _detect_multiple_input_sets. apply existsb_exists.
      exists (PList l). split; [by apply list_elem_of_In | done]. }
    rewrite Hdet. unfold _check_common_length.
    rewrite (py_max_common inputs l Hl Hpos Hlen).
    rewrite (check_lengths_pass _ _ _ Hlen).
    unfold _repack_input_sets. rewrite (repack_list_uniform _ (length l)).
    + by eauto.
    + destruct inputs; [by apply elem_of_nil in Hl | done].
    + by apply unify_lengths.
  - intros sets l Hsets Hl.
    destruct (build_input_sets_fanout op inputs sets l Hsets Hl) as [Hlens ->].
    split_and!; [by rewrite length_map, length_seq | done |].
    intros j set Hj. rewrite list_lookup_fmap in Hj.
    destruct (seq 0 (length l) !! j) as [j'|] eqn:Hseq; [|done].
    apply lookup_seq in Hseq as [-> Hjl]. simpl in Hj. injection Hj as <-.
    split; [by apply unified_length|].
    intros p x Hp. by rewrite (unified_lookup inputs (length l) j p Hjl Hlens), Hp.
  - intros x Hl Hx Hnl. unfold _build_input_sets.
    assert (Hdet : _detect_multiple_input_sets inputs = true).
    { unfold _detect_multiple_input_sets. apply existsb_exists.
      exists (PList []). split; [by apply list_elem_of_In | done]. }
    rewrite Hdet. unfold _check_common_length.
    destruct (py_max_ge (map _safe_len inputs) (_safe_len x)) as (m & -> & Hge).
    { by apply (list_elem_of_fmap_2 _safe_len). }
    assert (H1 : 1 <= m).
    { specialize (Hge (_safe_len x) (list_elem_of_fmap_2 _safe_len _ _ Hx)).
      destruct x; simpl in *; done. }
    rewrite (check_lengths_mismatch (op_name op) m inputs []); [done | done |].
    simpl. lia.
Qed.

(** ** Repacking *)

Lemma omap_lookup_total {A B} (f : A -> option B) (l : list A) j :
  Forall (fun x => is_Some (f x)) l -> omap f l !! j = l !! j ≫= f.
Proof.
  revert j. induction l as [|x l IH]; intros j Hall; [done|].
  apply Forall_cons in Hall as [[y Hy] Hall]. simpl. rewrite Hy.
  destruct j as [|j]; simpl; [done | by apply IH].
Qed.

Lemma omap_length_total {A B} (f : A -> option B) (l : list A) :
  Forall (fun x => is_Some (f x)) l -> length (omap f l) = length l.
Proof.
  induction l as [|x l IH]; intros Hall; [done|].
  apply Forall_cons in Hall as [[y Hy] Hall]. simpl. rewrite Hy. simpl.
  f_equal. by apply IH.
Qed.

Lemma column_defined {A} (sets : list (list A)) m k :
  Forall (fun o => length o = m) sets -> k < m ->
  Forall (fun o => is_Some (o !! k)) sets.
Proof.
  intros Hall Hk. eapply Forall_impl; [exact Hall|]. simpl.
  intros o <-. by apply lookup_lt_is_Some_2.
Qed.

(** X4: [_repack_list] transposes: on a non-empty list of rows that all have
    the same positive length it returns as many rows as the input had
    columns, each as long as the input had rows, entry [k] of row [j]
    going to entry [j] of row [k]; repacking the result gives the input
    back. *)
Theorem repack_list_involutive {A} (sets : list (list A)) m :
  sets <> [] -> 0 < m -> Forall (fun o => length o = m) sets ->
  exists t,
    _repack_list sets = inr t /\
    length t = m /\
    Forall (fun o => length o = length sets) t /\
    (forall j k, (t !! k ≫= (.!! j)) = (sets !! j ≫= (.!! k))) /\
    _repack_list t = inr sets.
Proof.
  intros Hne Hm Hall.
  set (t := map (fun k => omap (fun o => o !! k) sets) (seq 0 m)).
  assert (Hrows : Forall (fun o => length o = length sets) t).
  { apply Forall_fmap, Forall_forall. intros k Hk%elem_of_seq. simpl.
    apply omap_length_total. apply (column_defined sets m); [done | lia]. }
  assert (Hentry : forall j k, (t !! k ≫= (.!! j)) = (sets !! j ≫= (.!! k))).
  { intros j k. unfold t. rewrite list_lookup_fmap.
    destruct (decide (k < m)) as [Hk|Hk].
    - rewrite lookup_seq_lt by done. simpl.
      apply omap_lookup_total. by apply (column_defined sets m).
    - rewrite lookup_seq_ge by lia. simpl.
      destruct (sets !! j) as [o|] eqn:Ho; [|done]. simpl.
      symmetry. apply lookup_ge_None.
      rewrite (proj1 (Forall_forall _ _) Hall o); [lia|].
      apply list_elem_of_lookup. eauto. }
  exists t. split_and!; try done.
  - by apply repack_list_uniform.
  - unfold t. by rewrite length_map, length_seq.
  - rewrite (repack_list_uniform t (length sets)); [| |done].
    + f_equal. apply list_eq. intros j. rewrite list_lookup_fmap.
      destruct (decide (j < length sets)) as [Hj|Hj].
      * rewrite lookup_seq_lt by done. simpl.
        destruct (lookup_lt_is_Some_2 sets j Hj) as [row Hrow]. rewrite Hrow. f_equal.
        apply list_eq. intros k.
        rewrite omap_lookup_total.
        -- rewrite Hentry, Hrow. done.
        -- eapply Forall_impl; [exact Hrows|]. simpl.
           intros o Ho. apply lookup_lt_is_Some_2. lia.
      * rewrite lookup_seq_ge by lia. simpl. symmetry. apply lookup_ge_None. lia.
    + unfold t. destruct m; [lia | done].
Qed.

Lemma omap_lookup_take {A} (l : list (list A)) n k :
  k < n -> omap (fun o => o !! k) (map (take n) l) = omap (fun o => o !! k) l.
Proof.
  intros Hk. induction l as [|o l IH]; [done|].
  change (match take n o !! k with
          | Some y => y :: omap (fun o => o !! k) (map (take n) l)
          | None => omap (fun o => o !! k) (map (take n) l)
          end
          = match o !! k with
            | Some y => y :: omap (fun o => o !! k) l
            | None => omap (fun o => o !! k) l
            end).
  rewrite lookup_take_lt by done. by rewrite IH.
Qed.

Lemma column_fails {A} (sets : list (list A)) k :
  Exists (fun o => length o <= k) sets ->
  mapM_exn (fun o => index o k) sets = inl (IndexError "list index out of range").
Proof.
  induction 1 as [o l Ho|o l Hex IH]; simpl.
  - unfold index. by rewrite (proj2 (lookup_ge_None o k) Ho).
  - unfold index at 1. destruct (o !! k); [by rewrite IH | done].
Qed.

Lemma column_error {A} (sets : list (list A)) k e :
  mapM_exn (fun o => index o k) sets = inl e ->
  e = IndexError "list index out of range".
Proof.
  induction sets as [|o l IH]; simpl; [done|].
  unfold index at 1. destruct (o !! k); [|by intros [= <-]].
  destruct (mapM_exn _ l) as [e'|r]; [|done]. intros [= <-]. by apply IH.
Qed.

Lemma columns_fail {A} (sets : list (list A)) ks :
  (exists k, k ∈ ks /\ Exists (fun o => length o <= k) sets) ->
  mapM_exn (fun i => mapM_exn (fun o => index o i) sets) ks
  = inl (IndexError "list index out of range").
Proof.
  induction ks as [|k ks IH]; intros (k0 & Hk0 & Hshort).
  - by apply elem_of_nil in Hk0.
  - simpl. destruct (mapM_exn (fun o => index o k) sets) as [e|row] eqn:Hrow.
    + by rewrite (column_error _ _ _ Hrow).
    + apply elem_of_cons in Hk0 as [->|Hk0].
      * by rewrite (column_fails _ _ Hshort) in Hrow.
      * rewrite IH; [done|]. by exists k0.
Qed.

(** X5: [_repack_list] on rows of different lengths: the first row decides
    the number of columns.  An empty list of rows has no first row:
    IndexError.  When no row is shorter than the first, the result has
    one row per entry of the first row and what longer rows hold beyond
    that is dropped; a row shorter than the first is an IndexError. *)
Theorem repack_list_ragged {A} (first : list A) (rest : list (list A)) :
  _repack_list ([] : list (list A)) = inl (IndexError "list index out of range") /\
  (Forall (fun o => length first <= length o) rest ->
   _repack_list (first :: rest)
   = inr (map (fun k => omap (fun o => o !! k) (first :: rest)) (seq 0 (length first))) /\
   _repack_list (first :: rest) = _repack_list (map (take (length first)) (first :: rest))) /\
  (first <> [] -> Exists (fun o => length o < length first) rest ->
   _repack_list (first :: rest) = inl (IndexError "list index out of range")).
Proof.
  split_and!; [done | |].
  - intros Hall.
    assert (Hrun : forall sets' : list (list A),
               Forall (fun o => length first <= length o) sets' ->
               mapM_exn (fun i => mapM_exn (fun input_set => index input_set i) sets')
                        (seq 0 (length first))
               = inr (map (fun k => omap (fun o => o !! k) sets') (seq 0 (length first)))).
    { intros sets' Hall'. apply mapM_exn_map. intros k Hk%elem_of_seq.
      apply mapM_exn_index. eapply Forall_impl; [exact Hall'|]. simpl. lia. }
    assert (Hfull : Forall (fun o => length first <= length o) (first :: rest)).
    { by constructor. }
    split.
    + unfold _repack_list. by apply Hrun.
    + unfold _repack_list. cbn [map]. rewrite length_take, Nat.min_id.
      rewrite (Hrun (first :: rest) Hfull).
      change (take (length first) first :: map (take (length first)) rest)
        with (map (take (length first)) (first :: rest)).
      rewrite Hrun.
      * f_equal. apply map_ext_in. intros k Hk%in_seq.
        symmetry. apply omap_lookup_take. lia.
      * apply Forall_fmap. eapply Forall_impl; [exact Hfull|]. simpl.
        intros o Ho. rewrite length_take. lia.
  - intros Hne Hex. unfold _repack_list.
    apply columns_fail. exists (length first - 1). split.
    + apply elem_of_seq. destruct first; [done | simpl; lia].
    + right. eapply Exists_impl; [exact Hex|]. simpl. lia.
Qed.

(** ** Arguments written to the spec *)

Lemma add_spec_args_appends schema (kwargs : kwargs_t) : forall spec spec',
  _add_spec_args schema spec kwargs = inr spec' ->
  exists added,
    spec_args spec' = spec_args spec ++ added /\
    Forall2 (fun (kv : string * pyval) (arg : string * argval) =>
               arg.1 = kv.1 /\
               exists t, GetArgumentType schema kv.1 = inr t /\
                 match kv.2 with
                 | PList [] | PTuple [] =>
                     exists t', _vector_element_type t = inr t' /\ arg.2 = ArgEmptyList t'
                 | _ => exists w, _type_convert_value t kv.2 = inr w /\ arg.2 = ArgValue w
                 end)
            (filter (fun kv => is_None kv.2 = false) kwargs) added /\
    spec_schema spec' = spec_schema spec /\ spec_inputs spec' = spec_inputs spec /\
    spec_arg_inputs spec' = spec_arg_inputs spec /\ spec_outputs spec' = spec_outputs spec.
Proof.
  induction kwargs as [|[key value] rest IH]; intros spec spec' Hrun; simpl in Hrun.
  - injection Hrun as <-. exists []. rewrite app_nil_r. by split_and!.
  - destruct (is_None value) eqn:Hnone.
    + rewrite filter_cons_False by (simpl; congruence). by apply IH.
    + rewrite filter_cons_True by done.
      destruct (GetArgumentType schema key) as [e|dtype] eqn:Htype; [done|].
      assert (Hstep : exists arg spec1,
                 _add_spec_args schema spec1 rest = inr spec' /\
                 spec1 = mkOpSpec (spec_schema spec) (spec_args spec ++ [(key, arg)])
                                  (spec_inputs spec) (spec_arg_inputs spec)
                                  (spec_outputs spec) /\
                 match value with
                 | PList [] | PTuple [] =>
                     exists t', _vector_element_type dtype = inr t' /\ arg = ArgEmptyList t'
                 | _ => exists w, _type_convert_value dtype value = inr w /\ arg = ArgValue w
                 end).
      { unfold AddArg, AddArgEmptyList in Hrun.
        destruct value as [| | | |[|x l]|[|x l]| |]; try done;
          try (destruct (_vector_element_type dtype) as [e|t'] eqn:Hvec; [done|]);
          try (destruct (_type_convert_value dtype _) as [e|w] eqn:Hconv; [done|]);
          (destruct (backend_call spec _) as [e|spec1] eqn:Hb; [done|]);
          apply backend_call_inr in Hb as [_ ->];
          eexists _, _; (split; [exact Hrun|]); (split; [reflexivity|]); by eauto. }
      destruct Hstep as (arg & spec1 & Hrun1 & -> & Harg).
      destruct (IH _ _ Hrun1) as (added & Hargs & Hall & H1 & H2 & H3 & H4).
      simpl in *. exists ((key, arg) :: added).
      split_and!; try done.
      * by rewrite Hargs, <- app_assoc.
      * constructor; [|done]. simpl. split; [done|]. by exists dtype.
Qed.

Lemma add_spec_args_returns schema (kwargs : kwargs_t) : forall spec,
  (forall sp k v, spec_rejects sp (CallAddArg k v) = None) ->
  (forall sp k t, spec_rejects sp (CallAddArgEmptyList k t) = None) ->
  (forall k v, (k, v) ∈ kwargs -> is_None v = false ->
     exists t, GetArgumentType schema k = inr t /\
       match v with
       | PList [] | PTuple [] => exists t', _vector_element_type t = inr t'
       | _ => exists w, _type_convert_value t v = inr w
       end) ->
  exists spec', _add_spec_args schema spec kwargs = inr spec'.
Proof.
  intros spec Harg Hempty. revert spec.
  induction kwargs as [|[key value] rest IH]; intros spec Hconv; simpl; [by eauto|].
  assert (Hrest : forall k v, (k, v) ∈ rest -> is_None v = false ->
            exists t, GetArgumentType schema k = inr t /\
              match v with
              | PList [] | PTuple [] => exists t', _vector_element_type t = inr t'
              | _ => exists w, _type_convert_value t v = inr w
              end).
  { intros k v Hin. apply Hconv. by right. }
  destruct (is_None value) eqn:Hnone; [by apply IH|].
  destruct (Hconv key value (list_elem_of_here _ _) Hnone) as (t & -> & Hv).
  unfold AddArg, AddArgEmptyList, backend_call.
  destruct value as [| | | |[|x l]|[|x l]| |]; try done;
    destruct Hv as [w ->]; rewrite ?Harg, ?Hempty; by apply IH.
Qed.

(** X6: [_add_spec_args] returns when the backend accepts the arguments
    and, for every keyword whose value is not [None], the schema knows
    the type of the argument and the value converts to it.  When it
    returns, it has appended one argument per such keyword, in the order
    of the keywords, and touched nothing else of the spec: an empty list
    or tuple became an empty list of the vector element type of the
    argument, any other value was converted to the argument's type. *)
Theorem add_spec_args_effect schema (kwargs : kwargs_t) spec :
  ((forall sp k v, spec_rejects sp (CallAddArg k v) = None) ->
   (forall sp k t, spec_rejects sp (CallAddArgEmptyList k t) = None) ->
   (forall k v, (k, v) ∈ kwargs -> is_None v = false ->
      exists t, GetArgumentType schema k = inr t /\
        match v with
        | PList [] | PTuple [] => exists t', _vector_element_type t = inr t'
        | _ => exists w, _type_convert_value t v = inr w
        end) ->
   exists spec', _add_spec_args schema spec kwargs = inr spec') /\
  (forall spec',
     _add_spec_args schema spec kwargs = inr spec' ->
     exists added,
       spec_args spec' = spec_args spec ++ added /\
       Forall2 (fun (kv : string * pyval) (arg : string * argval) =>
                  arg.1 = kv.1 /\
                  exists t, GetArgumentType schema kv.1 = inr t /\
                    match kv.2 with
                    | PList [] | PTuple [] =>
                        exists t', _vector_element_type t = inr t' /\ arg.2 = ArgEmptyList t'
                    | _ => exists w, _type_convert_value t kv.2 = inr w /\ arg.2 = ArgValue w
                    end)
               (filter (fun kv => is_None kv.2 = false) kwargs) added /\
       spec_schema spec' = spec_schema spec /\ spec_inputs spec' = spec_inputs spec /\
       spec_arg_inputs spec' = spec_arg_inputs spec /\ spec_outputs spec' = spec_outputs spec).
Proof.
  split.
  - intros Harg Hempty Hconv. by apply add_spec_args_returns.
  - apply add_spec_args_appends.
Qed.

(** ** Bound and call-time arguments *)

Lemma dict_set_app_r {V} (d x : dict V) k v :
  dict_mem k d = false -> dict_set (d ++ x) k v = d ++ dict_set x k v.
Proof.
  unfold dict_mem. induction d as [|[k' v'] d IH]; simpl; [done|].
  destruct (k' =? k); [done|]. intros H. by rewrite IH.
Qed.

Lemma dict_set_elem {V} (x : dict V) k v k1 v1 :
  (k1, v1) ∈ dict_set x k v -> (k1, v1) ∈ x \/ (k1 = k /\ v1 = v).
Proof.
  induction x as [|[k' v'] x IH]; simpl.
  - intros [[= -> ->]|H]%elem_of_cons; [by right | by apply elem_of_nil in H].
  - destruct (String.eqb_spec k' k) as [->|Hne].
    + intros [[= -> ->]|H]%elem_of_cons; [by right | left; by right].
    + intros [[= -> ->]|H]%elem_of_cons; [left; by left|].
      destruct (IH H) as [?|?]; [left; by right | by right].
Qed.

Lemma merge_call_args_extends (dflt : kwargs_t) (items : list (string * pyval)) :
  forall extra call_args,
    (forall k v, (k, v) ∈ extra -> dict_mem k dflt = false) ->
    merge_call_args dflt items (dflt ++ extra) = inr call_args ->
    exists extra',
      call_args = dflt ++ extra' /\
      (forall k v, (k, v) ∈ extra' -> dict_mem k dflt = false) /\
      (forall k v, (k, v) ∈ extra' -> (k, v) ∈ extra \/ (k, v) ∈ items).
Proof.
  induction items as [|[k0 v0] rest IH]; intros extra call_args Hfresh Hrun; simpl in Hrun.
  - injection Hrun as <-. exists extra. split_and!; try done. intros k v H. by left.
  - destruct (is_None v0).
    + destruct (IH _ _ Hfresh Hrun) as (extra' & -> & Hf & Hfrom).
      exists extra'. split_and!; try done.
      intros k v H. destruct (Hfrom k v H) as [?|?]; [by left | right; by right].
    + destruct (dict_mem k0 dflt) eqn:Hm; [done|].
      rewrite dict_set_app_r in Hrun by done.
      destruct (IH (dict_set extra k0 v0) call_args) as (extra' & -> & Hf & Hfrom);
        [|done|].
      * intros k v H. destruct (dict_set_elem _ _ _ _ _ H) as [?|[-> _]]; [by eapply Hfresh | done].
      * exists extra'. split_and!; try done.
        intros k v H. destruct (Hfrom k v H) as [H'|H']; [|right; by right].
        destruct (dict_set_elem _ _ _ _ _ H') as [?|[-> ->]]; [by left | right; left].
Qed.

Lemma dict_get_app_l {V} (d x : dict V) k v :
  dict_get d k = Some v -> dict_get (d ++ x) k = Some v.
Proof.
  induction d as [|[k' v'] d IH]; simpl; [done|]. by destruct (k' =? k).
Qed.

Lemma merge_call_args_returns (dflt : kwargs_t) (items : list (string * pyval)) :
  forall call_args,
    (forall k v, (k, v) ∈ items -> is_None v = false -> dict_mem k dflt = false) ->
    exists r, merge_call_args dflt items call_args = inr r.
Proof.
  induction items as [|[k0 v0] rest IH]; intros call_args Hfresh; simpl; [by eauto|].
  assert (Hrest : forall k v, (k, v) ∈ rest -> is_None v = false -> dict_mem k dflt = false).
  { intros k v Hin. apply Hfresh. by right. }
  destruct (is_None v0) eqn:Hnone; [by apply IH|].
  rewrite (Hfresh k0 v0 (list_elem_of_here _ _) Hnone). by apply IH.
Qed.

(** X7: The call arguments of a node are found when none of the call-style
    arguments of the call is under a name bound at construction.  They
    start with the arguments bound at construction, unchanged and in
    their order; what follows are call-style arguments of the call under
    names that were not bound.  So a call never overrides a bound
    argument. *)
Theorem bound_arguments_kept op (kwargs : kwargs_t) :
  ((forall k v, (k, v) ∈ snd (_separate_kwargs kwargs) ->
                dict_mem k (op_call_args op) = false) ->
   exists call_args, call_args_of op kwargs = inr call_args) /\
  (forall call_args,
     call_args_of op kwargs = inr call_args ->
     exists extra,
       call_args = op_call_args op ++ extra /\
       (forall k v, (k, v) ∈ extra ->
          dict_mem k (op_call_args op) = false /\ (k, v) ∈ snd (_separate_kwargs kwargs)) /\
       (forall k v, dict_get (op_call_args op) k = Some v -> dict_get call_args k = Some v)).
Proof.
  unfold call_args_of. split.
  - intros Hfresh. apply merge_call_args_returns. intros k v Hin _. by eapply Hfresh.
  - intros call_args Hrun.
    destruct (merge_call_args_extends (op_call_args op) (snd (_separate_kwargs kwargs))
                [] call_args) as (extra & -> & Hfresh & Hfrom).
    + intros k v H. by apply elem_of_nil in H.
    + by rewrite app_nil_r.
    + exists extra. split_and!; [done | | ].
      * intros k v H. split; [by eapply Hfresh|].
        destruct (Hfrom k v H) as [H'|H']; [by apply elem_of_nil in H' | done].
      * intros k v. apply dict_get_app_l.
Qed.
(** ** Outputs of a node *)

Lemma spec_AddOutput_run self nm dev s inst :
  instances s !! self = Some inst ->
  spec_rejects (oi_spec inst) (CallAddOutput nm dev) = None ->
  spec_AddOutput self (PStr nm) dev s =
  (inr tt, mkState (op_count s)
                   (alter (set_spec (record_call (oi_spec inst) (CallAddOutput nm dev)))
                          self (instances s))
                   (datanodes s) (pipeline s) (warnings s)).
Proof.
  intros Hinst Hacc. unfold spec_AddOutput, bind at 1, get_instance at 1.
  rewrite (lookup_instance_Some _ _ _ Hinst). unfold AddOutput.
  rewrite (backend_call_accepted _ _ Hacc). by unfold bind, lift, ret.
Qed.

Lemma generate_outputs_loop_cons self preserve name dev n i rest :
  generate_outputs_loop self preserve name dev n (i :: rest) =
  (t_name <- (if Nat.ltb 1 n
              then lift (iadd_str name ("[" +:+ str_nat i +:+ "]"))
              else ret name) ;;
   t <- new_DataNode (py_str t_name) dev self ;;
   spec_AddOutput self t_name dev ;;;
   (if preserve then add_sink t else ret tt) ;;;
   append_output self t ;;;
   generate_outputs_loop self preserve name dev n rest).
Proof. reflexivity. Qed.

Lemma generate_outputs_loop_run self preserve nm dev n idxs : forall s inst,
  instances s !! self = Some inst ->
  (preserve = true -> is_Some (pipeline s)) ->
  (forall spec i, i ∈ idxs ->
     spec_rejects spec (CallAddOutput (output_name nm n i) dev) = None) ->
  exists inst',
    generate_outputs_loop self preserve (PStr nm) dev n idxs s =
    (inr tt,
     mkState (op_count s) (<[self := inst']> (instances s))
             (datanodes s ++ map (fun i => mkDataNode (output_name nm n i) dev self) idxs)
             (if preserve
              then (fun sinks => sinks ++ seq (length (datanodes s)) (length idxs))
                     <$> pipeline s
              else pipeline s)
             (warnings s)) /\
    oi_outputs inst' = oi_outputs inst ++ seq (length (datanodes s)) (length idxs) /\
    oi_spec inst' = foldl (fun sp i => record_call sp (CallAddOutput (output_name nm n i) dev))
                          (oi_spec inst) idxs /\
    same_node inst inst'.
Proof.
  induction idxs as [|i rest IH]; intros s inst Hinst Hpipe Hacc.
  - simpl. exists inst. rewrite list_insert_id by done. rewrite !app_nil_r.
    split_and!; try done.
    destruct s as [c insts ds p w]; simpl. f_equal. destruct preserve; [|done].
    destruct p; simpl; [by rewrite app_nil_r | done].
  - rewrite generate_outputs_loop_cons.
    assert (Hname : (if Nat.ltb 1 n
                     then lift (iadd_str (PStr nm) ("[" +:+ str_nat i +:+ "]"))
                     else ret (PStr nm)) = ret (PStr (output_name nm n i))).
    { unfold output_name. by destruct (Nat.ltb 1 n). }
    rewrite Hname. unfold bind at 1, ret at 1. unfold bind at 1, new_DataNode at 1.
    cbn [py_str]. unfold bind at 1.
    rewrite (spec_AddOutput_run self (output_name nm n i) dev _ inst);
      [|exact Hinst|apply Hacc; left].
    cbn [op_count instances datanodes pipeline warnings].
    set (f1 := set_spec (record_call (oi_spec inst)
                           (CallAddOutput (output_name nm n i) dev))).
    assert (Hrest : forall spec j, j ∈ rest ->
              spec_rejects spec (CallAddOutput (output_name nm n j) dev) = None).
    { intros spec j Hj. apply Hacc. by right. }
    destruct preserve.
    + destruct (Hpipe eq_refl) as [sinks Hsinks].
      unfold bind at 1, add_sink at 1. simpl. rewrite Hsinks.
      unfold bind at 1, append_output at 1. rewrite update_instance_run. simpl.
      rewrite list_alter_alter_eq.
      destruct (IH (mkState (op_count s)
                       (alter (push_output (length (datanodes s)) ∘ f1) self (instances s))
                       (datanodes s ++ [mkDataNode (output_name nm n i) dev self])
                       (Some (sinks ++ [length (datanodes s)])) (warnings s))
                   (push_output (length (datanodes s)) (f1 inst)))
        as (inst' & Hrun & Hout & Hspec & Hsame).
      { simpl. by rewrite list_lookup_alter_eq, Hinst. }
      { intros _. simpl. by eauto. }
      { exact Hrest. }
      exists inst'. rewrite Hrun. simpl.
      rewrite (alter_as_insert _ _ _ _ Hinst), list_insert_insert_eq.
      rewrite length_app, <- !app_assoc. simpl.
      replace (length (datanodes s) + 1) with (S (length (datanodes s))) by lia.
      split_and!; try done.
      rewrite Hout. simpl. rewrite length_app, <- app_assoc. simpl.
      by replace (length (datanodes s) + 1) with (S (length (datanodes s))) by lia.
    + unfold bind at 1, ret at 1.
      unfold bind at 1, append_output at 1. rewrite update_instance_run. simpl.
      rewrite list_alter_alter_eq.
      destruct (IH (mkState (op_count s)
                       (alter (push_output (length (datanodes s)) ∘ f1) self (instances s))
                       (datanodes s ++ [mkDataNode (output_name nm n i) dev self])
                       (pipeline s) (warnings s))
                   (push_output (length (datanodes s)) (f1 inst)))
        as (inst' & Hrun & Hout & Hspec & Hsame).
      { simpl. by rewrite list_lookup_alter_eq, Hinst. }
      { done. }
      { exact Hrest. }
      exists inst'. rewrite Hrun. simpl.
      rewrite (alter_as_insert _ _ _ _ Hinst), list_insert_insert_eq.
      rewrite <- !app_assoc. simpl.
      split_and!; try done.
      rewrite Hout. simpl. rewrite length_app, <- app_assoc. simpl.
      by replace (length (datanodes s) + 1) with (S (length (datanodes s))) by lia.
Qed.

(** X8: [generate_outputs] for a node with a string name whose schema
    computes [n > 0] outputs, a pipeline being current if the operator
    preserves and the backend accepting the outputs: [n] new data nodes
    are made, in order, produced by the node, on [gpu] for a [gpu] or
    [mixed] operator and on [cpu] otherwise, named after the node, with
    the index in brackets when there are several; they become the node's
    outputs and the outputs of its spec, and sinks of the pipeline
    exactly when the operator preserves.  Nothing else changes. *)
Theorem generate_outputs_named self s inst nm :
  instances s !! self = Some inst -> oi_name inst = PStr nm -> num_outputs inst <> 0 ->
  (op_preserve (oi_op inst) = true -> is_Some (pipeline s)) ->
  (forall spec name device, spec_rejects spec (CallAddOutput name device) = None) ->
  exists inst',
    generate_outputs self s =
    (inr tt,
     mkState (op_count s) (<[self := inst']> (instances s))
             (datanodes s ++
              map (fun i => mkDataNode
                              (if Nat.ltb 1 (num_outputs inst)
                               then nm +:+ "[" +:+ str_nat i +:+ "]" else nm)
                              (if (op_device (oi_op inst) =? "gpu")
                                  || (op_device (oi_op inst) =? "mixed")
                               then "gpu" else "cpu") self)
                  (seq 0 (num_outputs inst)))
             (if op_preserve (oi_op inst)
              then (fun sinks => sinks ++ seq (length (datanodes s)) (num_outputs inst))
                     <$> pipeline s
              else pipeline s)
             (warnings s)) /\
    oi_outputs inst' = oi_outputs inst ++ seq (length (datanodes s)) (num_outputs inst) /\
    spec_outputs (oi_spec inst') =
      spec_outputs (oi_spec inst) ++
      map (fun i => (if Nat.ltb 1 (num_outputs inst)
                     then nm +:+ "[" +:+ str_nat i +:+ "]" else nm,
                     if (op_device (oi_op inst) =? "gpu")
                        || (op_device (oi_op inst) =? "mixed")
                     then "gpu" else "cpu"))
          (seq 0 (num_outputs inst)) /\
    same_node inst inst'.
Proof.
  intros Hinst Hname Hn Hpipe Hacc.
  destruct (generate_outputs_loop_run self (op_preserve (oi_op inst)) nm
              (output_device_of (op_device (oi_op inst))) (num_outputs inst)
              (seq 0 (num_outputs inst)) s inst Hinst Hpipe)
    as (inst' & Hrun & Hout & Hspec & Hsame).
  { intros spec i _. apply Hacc. }
  assert (Hgen : generate_outputs self s =
                 generate_outputs_loop self (op_preserve (oi_op inst)) (PStr nm)
                   (output_device_of (op_device (oi_op inst))) (num_outputs inst)
                   (seq 0 (num_outputs inst)) s).
  { unfold generate_outputs, bind at 1, get_instance at 1.
    rewrite (lookup_instance_Some _ _ _ Hinst).
    unfold bind at 1, Pipeline_current at 1.
    assert (Hnp : negb (match pipeline s with Some _ => true | None => false end)
                  && op_preserve (oi_op inst) = false).
    { destruct (op_preserve (oi_op inst)); [|by rewrite andb_false_r].
      destruct (Hpipe eq_refl) as [sinks ->]. done. }
    rewrite Hnp. fold (num_outputs inst).
    rewrite (proj2 (Nat.eqb_neq _ _) Hn), Hname. done. }
  exists inst'. rewrite Hgen, Hrun, length_seq in *. split_and!; try done.
  rewrite Hspec. clear.
  generalize (oi_spec inst). generalize (seq 0 (num_outputs inst)).
  induction l as [|i l IH]; intros sp; simpl; [by rewrite app_nil_r|].
  rewrite IH. simpl. by rewrite <- app_assoc.
Qed.

(** ** Construction of an operator *)

Local Instance only_warns_preorder : PreOrder only_warns.
Proof.
  split.
  - intros s. by split_and!.
  - intros s1 s2 s3 (A1 & A2 & A3 & A4 & A5) (B1 & B2 & B3 & B4 & B5).
    split_and!; try congruence. by etrans.
Qed.

Lemma only_warns_warn m : pres only_warns (warn m).
Proof. intros s. simpl. split_and!; try done. by apply prefix_app_r. Qed.

Lemma only_warns_deprecated_args_loop name schema names :
  forall kwargs, pres only_warns (deprecated_args_loop name schema names kwargs).
Proof.
  induction names as [|a rest IH]; intros kwargs; simpl; repeat pres_step;
    try apply only_warns_warn; try done.
Qed.

Lemma check_call_args_fails schema name keys k :
  k ∈ keys -> k <> "name" -> IsTensorArgument schema k = false ->
  exists e, check_call_args schema name keys = inl e.
Proof.
  intros Hin Hname Htensor. induction keys as [|k0 rest IH]; [by apply elem_of_nil in Hin|].
  simpl. destruct (_check_arg_input schema name k0) as [e|[]] eqn:Hc; [by eauto|].
  apply elem_of_cons in Hin as [->|Hin]; [|by apply IH].
  unfold _check_arg_input in Hc. rewrite (proj2 (String.eqb_neq _ _) Hname) in Hc.
  rewrite Htensor in Hc. simpl in Hc. by destruct (GetArgumentType schema k0).
Qed.

Lemma deprecated_loop_plain name schema names : forall (kwargs : kwargs_t) s,
  (forall k, k ∈ names -> IsDeprecatedArg schema k = false) ->
  deprecated_args_loop name schema names kwargs s = (inr kwargs, s).
Proof.
  induction names as [|a rest IH]; intros kwargs s Hplain; simpl; [done|].
  rewrite (Hplain a) by left. simpl. apply IH. intros k Hk. apply Hplain. by right.
Qed.

(** X9: [Operator.__init__] builds a descriptor and touches no graph: whatever
    the outcome, the counter, the nodes, the data nodes and the pipeline
    are as before, and only deprecation warnings may have been added.
    The descriptor it returns keeps the name, the schema and the device,
    binds the call-style arguments as they were given, has [device] and
    [preserve] as the first two arguments of its spec, and preserves when
    the [preserve] argument is true or the schema says no-prune.  When no
    construction-style argument is flagged deprecated, construction
    succeeds, with no warning, as soon as the backend accepts [device]
    and [preserve], the bound argument inputs are tensor arguments and
    the arguments are stored.  A handle given for an argument that is not
    a tensor argument makes construction fail before any warning is
    emitted. *)
Theorem operator_init_builds_descriptor name schema_name schema device (kwargs : kwargs_t) s :
  only_warns s (Operator_init name schema_name schema device kwargs s).2 /\
  (forall op,
     (Operator_init name schema_name schema device kwargs s).1 = inr op ->
     op_name op = name /\ op_schema op = schema /\ op_device op = device /\
     op_call_args op = snd (_separate_kwargs kwargs) /\
     op_preserve op =
       truthy (default (PScalar (SBool false))
                       (dict_get (fst (_separate_kwargs kwargs)) "preserve"))
       || IsNoPrune schema /\
     spec_schema (op_spec op) = schema_name /\
     take 2 (spec_args (op_spec op))
       = [("device", ArgValue (PStr device));
          ("preserve", ArgValue (default (PScalar (SBool false))
                                   (dict_get (fst (_separate_kwargs kwargs)) "preserve")))] /\
     spec_inputs (op_spec op) = [] /\ spec_arg_inputs (op_spec op) = [] /\
     spec_outputs (op_spec op) = []) /\
  (spec_rejects (mkOpSpec schema_name [] [] [] []) (CallAddArg "device" (PStr device)) = None ->
   check_call_args schema name (dict_keys (snd (_separate_kwargs kwargs))) = inr tt ->
   spec_rejects (spec_with_device schema_name device)
                (CallAddArg "preserve" (preserve_arg kwargs)) = None ->
   (forall k, k ∈ dict_keys (supplied_construction_args kwargs) ->
              IsDeprecatedArg schema k = false) ->
   forall spec2,
     _add_spec_args schema (spec_before_args schema_name device kwargs)
                    (supplied_construction_args kwargs) = inr spec2 ->
     Operator_init name schema_name schema device kwargs s
     = (inr (mkOperator name schema spec2 device (snd (_separate_kwargs kwargs))
                        (truthy (preserve_arg kwargs) || IsNoPrune schema)), s)) /\
  (forall k h,
     NoDup (dict_keys kwargs) -> (k, PData h) ∈ kwargs -> k <> "name" ->
     k <> "device" -> k <> "ndim" -> IsTensorArgument schema k = false ->
     exists e, Operator_init name schema_name schema device kwargs s = (inl e, s)).
Proof.
  rewrite Operator_init_unfold. unfold AddArg, preserve_arg. split_and!.
  - destruct (backend_call _ (CallAddArg "device" _)) as [e|spec0]; [reflexivity|].
    destruct (check_call_args _ _ _) as [e|[]]; [reflexivity|].
    destruct (backend_call spec0 _) as [e|spec1]; [reflexivity|].
    pose proof (only_warns_deprecated_args_loop name schema
                  (dict_keys (supplied_construction_args kwargs))
                  (supplied_construction_args kwargs) s) as Hw.
    destruct (deprecated_args_loop _ _ _ _ s) as [[e|kwargs3] s1]; [done|].
    by destruct (_add_spec_args _ _ kwargs3).
  - intros op.
    destruct (backend_call _ (CallAddArg "device" _)) as [e|spec0] eqn:Hdev; [done|].
    apply backend_call_inr in Hdev as [_ ->].
    destruct (check_call_args _ _ _) as [e|[]]; [done|].
    destruct (backend_call _ (CallAddArg "preserve" _)) as [e|spec1] eqn:Hpre; [done|].
    apply backend_call_inr in Hpre as [_ ->].
    destruct (deprecated_args_loop _ _ _ _ s) as [[e|kwargs3] s1]; [done|].
    destruct (_add_spec_args _ _ kwargs3) as [e|spec2] eqn:Hadd; [done|].
    simpl. intros [= <-]. simpl.
    destruct (add_spec_args_appends _ _ _ _ Hadd) as (added & Hargs & _ & H1 & H2 & H3 & H4).
    split_and!; try done.
    rewrite Hargs. simpl. by destruct (dict_get _ "preserve").
  - intros Hdev Hcheck Hpre Hplain spec2 Hadd.
    unfold spec_before_args, spec_with_device, preserve_arg in *.
    rewrite (backend_call_accepted _ _ Hdev), Hcheck.
    rewrite (backend_call_accepted _ _ Hpre).
    rewrite (deprecated_loop_plain _ _ _ _ _ Hplain). by rewrite Hadd.
  - intros k h Hnd Hin Hname Hdev Hndim Htensor.
    destruct (backend_call _ (CallAddArg "device" _)) as [e|spec0]; [by eauto|].
    destruct (check_call_args_fails schema name
                (dict_keys (snd (_separate_kwargs kwargs))) k) as [e ->]; [|done|done|by eauto].
    unfold dict_keys. apply (list_elem_of_fmap_2 fst _ (k, PData h)).
    apply (call_style_supplied kwargs k (PData h) Hnd). split_and!; [done | done |].
    unfold is_call_arg.
    rewrite (proj2 (String.eqb_neq _ _) Hdev), (proj2 (String.eqb_neq _ _) Hndim).
    simpl. by rewrite orb_true_r.
Qed.

(** ** Composition of operators *)

Lemma CompoundOp_init_ops (op_list : list callable) :
  CompoundOp_init op_list = CompoundOp (concat (map ops_of op_list)).
Proof.
  unfold CompoundOp_init. f_equal.
  assert (H : forall acc,
            foldl (fun _ops op => match op with
                                  | CompoundOp inner => _ops ++ inner
                                  | PlainOp _ => _ops ++ [op]
                                  end) acc op_list
            = acc ++ concat (map ops_of op_list)).
  { induction op_list as [|c l IH]; intros acc; simpl; [by rewrite app_nil_r|].
    rewrite IH. destruct c; simpl; by rewrite <- app_assoc. }
  apply (H []).
Qed.

(** X10: [_CompoundOp] flattens one level: its [_ops] are the given operators
    with every [_CompoundOp] among them replaced by its own [_ops], in
    order.  So it holds no [_CompoundOp] when those given are flat, which
    all are that the constructor itself made from operators, and nesting
    compositions gives the same as composing the concatenated lists.
    [Compose] of one element is that element itself; of none, a
    composition of nothing. *)
Theorem compose_flattens (op_list l1 l2 : list callable) :
  ops_of (CompoundOp_init op_list) = concat (map ops_of op_list) /\
  (Forall flat op_list -> flat (CompoundOp_init op_list)) /\
  (Forall (fun c => is_plain c = true) op_list ->
   ops_of (CompoundOp_init op_list) = op_list) /\
  CompoundOp_init [CompoundOp_init l1; CompoundOp_init l2] = CompoundOp_init (l1 ++ l2) /\
  (forall op, Compose [op] = op) /\
  Compose [] = CompoundOp [] /\
  (length op_list <> 1 -> Compose op_list = CompoundOp_init op_list).
Proof.
  split_and!.
  - by rewrite CompoundOp_init_ops.
  - intros Hall. unfold flat. rewrite CompoundOp_init_ops. simpl.
    apply Forall_concat, Forall_fmap. exact Hall.
  - intros Hall. rewrite CompoundOp_init_ops. simpl.
    induction Hall as [|c l Hc Hall IH]; [done|].
    simpl. rewrite IH. by destruct c.
  - rewrite !CompoundOp_init_ops. simpl. by rewrite app_nil_r, fmap_app, concat_app.
  - done.
  - done.
  - intros Hlen. by destruct op_list as [|c [|c' l]].
Qed.

(** ** Python function wrappers *)

Lemma mapM_exn_Forall2 {A B} (f : A -> exn + B) (l : list A) r :
  mapM_exn f l = inr r -> Forall2 (fun x y => f x = inr y) l r.
Proof.
  revert r. induction l as [|x l IH]; intros r; simpl.
  - intros [= <-]. constructor.
  - destruct (f x) as [e|y] eqn:Hx; [done|].
    destruct (mapM_exn f l) as [e|ys]; [done|]. intros [= <-].
    constructor; [done | by apply IH].
Qed.

Lemma Forall2_mapM_exn {A B} (f : A -> exn + B) (l : list A) r :
  Forall2 (fun x y => f x = inr y) l r -> mapM_exn f l = inr r.
Proof.
  induction 1 as [|x y l r Hx _ IH]; simpl; [done|]. by rewrite Hx, IH.
Qed.

Lemma mapM_exn_id {A} (l : list A) : mapM_exn (fun x => @inr exn A x) l = inr l.
Proof. induction l as [|x l IH]; simpl; [done | by rewrite IH]. Qed.

Lemma check_outputs_accepts (outputs : pyval) (num_outputs : Z) :
  check_outputs outputs num_outputs = inr tt <->
  (num_outputs <= 1)%Z \/
  exists l, outputs = PTuple l /\ Z.of_nat (length l) = num_outputs.
Proof.
  unfold check_outputs. destruct (Z.ltb_spec 1 num_outputs) as [Hgt|Hle].
  - split.
    + intros H. right. destruct outputs as [| | | | |l| |]; try done.
      exists l. split; [done|].
      destruct (Z.eqb_spec (Z.of_nat (length l)) num_outputs); done.
    + intros [Hle|(l & -> & Hlen)]; [lia|].
      by rewrite (proj2 (Z.eqb_eq _ _) Hlen).
  - split; [by left | done].
Qed.

(** X11: The output check of the Python function wrappers: nothing is checked
    for at most one declared output, whatever the function returned; for
    more, the result must be a tuple with as many entries.  A per-sample
    wrapper returns exactly when the inputs convert, the function returns
    on the converted inputs and its result passes: [None] from the
    function is handed on without any check; a tuple that passes the
    check comes back as a tuple of the same length, converted entry by
    entry; anything else that passes is converted as one value. *)
Theorem per_sample_wrapper_outputs function num_outputs from_dlpack to_dlpack
    (dlpack_inputs : list pyval) :
  (forall outputs,
     check_outputs outputs num_outputs = inr tt <->
     (num_outputs <= 1)%Z \/
     exists l, outputs = PTuple l /\ Z.of_nat (length l) = num_outputs) /\
  (forall r,
     function_wrapper_per_sample function num_outputs from_dlpack to_dlpack dlpack_inputs
       = inr r <->
     exists arrays arr_out,
       Forall2 (fun x y => from_dlpack x = inr y) dlpack_inputs arrays /\
       function arrays = inr arr_out /\
       match arr_out with
       | PNone => r = PNone
       | PTuple l =>
           check_outputs arr_out num_outputs = inr tt /\
           exists l', r = PTuple l' /\ Forall2 (fun x y => to_dlpack x = inr y) l l'
       | _ => check_outputs arr_out num_outputs = inr tt /\ to_dlpack arr_out = inr r
       end).
Proof.
  split; [intros outputs; apply check_outputs_accepts|].
  intros r. unfold function_wrapper_per_sample. split.
  - destruct (mapM_exn from_dlpack dlpack_inputs) as [e|arrays] eqn:Hin; [done|].
    destruct (function arrays) as [e|arr_out] eqn:Hf; [done|].
    intros Hrun. exists arrays, arr_out.
    split; [by apply mapM_exn_Forall2|]. split; [done|].
    destruct arr_out as [| | | | |l| |];
      try (destruct (check_outputs _ num_outputs) as [e|[]]; [done|]; by split).
    + by injection Hrun as <-.
    + destruct (check_outputs (PTuple l) num_outputs) as [e|[]]; [done|].
      split; [done|].
      destruct (mapM_exn to_dlpack l) as [e|l'] eqn:Hout; [done|].
      injection Hrun as <-. exists l'. split; [done|]. by apply mapM_exn_Forall2.
  - intros (arrays & arr_out & Hin & Hf & Hout).
    rewrite (Forall2_mapM_exn _ _ _ Hin), Hf.
    destruct arr_out as [| | | | |l| |].
    1: by rewrite Hout.
    5: { destruct Hout as (-> & l' & -> & Hl'). by rewrite (Forall2_mapM_exn _ _ _ Hl'). }
    all: destruct Hout as [-> Hr]; exact Hr.
Qed.

(** X12: [DLTensorPythonFunction]'s wrappers convert nothing: the function
    gets the samples (per sample) or the lists of samples (per batch) as
    they are, and its result comes back unchanged once it passed the
    output check, [None] without the check; an exception of the function
    or of the check is the exception of the wrapper. *)
Theorem dlpack_wrapper_transparent function num_outputs
    (samples : list pyval) (batches : list (list pyval)) :
  _function_wrapper_dlpack_per_sample function num_outputs samples
  = match function samples with
    | inl e => inl e
    | inr PNone => inr PNone
    | inr out => match check_outputs out num_outputs with
                 | inl e => inl e
                 | inr _ => inr out
                 end
    end /\
  _function_wrapper_dlpack_batch function num_outputs batches
  = match function (map PList batches) with
    | inl e => inl e
    | inr PNone => inr PNone
    | inr out => match check_outputs out num_outputs with
                 | inl e => inl e
                 | inr _ => inr out
                 end
    end.
Proof.
  assert (Hconv : forall b, convert_batch (fun x => inr x) b = inr b).
  { intros b. unfold convert_batch. destruct b; try done. by rewrite mapM_exn_id. }
  split.
  - unfold _function_wrapper_dlpack_per_sample, function_wrapper_per_sample.
    rewrite mapM_exn_id. destruct (function samples) as [e|out]; [done|].
    destruct out as [| | | | |l| |]; try done;
      destruct (check_outputs _ num_outputs) as [e|[]]; try done.
    by rewrite mapM_exn_id.
  - unfold _function_wrapper_dlpack_batch, function_wrapper_batch.
    rewrite (mapM_exn_map _ PList).
    + destruct (function (map PList batches)) as [e|out]; [done|].
      destruct out as [| | | |l|l| |]; try done;
        destruct (check_outputs _ num_outputs) as [e|[]]; try done;
        try (by apply Hconv).
      rewrite (mapM_exn_map _ (fun x => x)); [by rewrite map_id|].
      intros x _. apply Hconv.
    + intros l _. by rewrite mapM_exn_id.
Qed.

End Proofs.

(** * Instances at concrete inputs *)

Local Open Scope string_scope.

#[local] Existing Instance example_types.
#[local] Existing Instance example_backend.

Lemma ex_kwargs_NoDup : NoDup (dict_keys ex_kwargs).
Proof. apply (bool_decide_unpack _). vm_compute. exact I. Defined.

(** The classification of [ex_kwargs]: [seed] is dropped, [angle], [name]
    and [mask] are call-style, the rest construction-style. *)
Lemma separate_kwargs_follows_precedence_witness :
  fst (_separate_kwargs (types := example_types) ex_kwargs)
    = omap (construction_of (types := example_types)) ex_kwargs /\
  snd (_separate_kwargs (types := example_types) ex_kwargs)
    = [("name", PStr "rot"); ("angle", PData 1); ("mask", PObject "ndarray" 0)].
Proof.
  destruct (@separate_kwargs_follows_precedence example_types ex_kwargs ex_kwargs_NoDup)
    as (H1 & H2 & _).
  split; [exact H1 | rewrite H2; reflexivity].
Defined.

(** ** Fan-out calls *)

Lemma fan_run_result :
  Operator_call_instances (types := example_types) None ex_rotate fan_inputs fan_kwargs
                          ex_state
  = (inr fan_nodes, fan_run.2).
Proof. vm_compute. reflexivity. Defined.



(** Lists of lengths 2 and 3: the call fails and leaves the state as it
    was. *)
Lemma call_length_mismatch_witness :
  Operator_call (types := example_types) None ex_rotate uneven_inputs [] ex_state
  = (inl (ValueError (length_mismatch_msg "Rotate")), ex_state).
Proof.
  destruct (@call_length_mismatch example_types example_backend None ex_rotate uneven_inputs [] ex_state
              [PData 0; PData 1] [PData 0; PData 1; PData 2])
    as (outs & s1 & _ & Hcall & _ & _ & Hsame).
  - reflexivity.
  - apply list_elem_of_here.
  - reflexivity.
  - apply list_elem_of_further, list_elem_of_here.
  - reflexivity.
  - discriminate.
  - intros x Hx Hn.
    apply elem_of_cons in Hx as [->|Hx]; [discriminate Hn|].
    apply elem_of_cons in Hx as [->|Hx]; [discriminate Hn|].
    apply elem_of_nil in Hx. destruct Hx.
  - rewrite Hcall. rewrite Hsame; [reflexivity|].
    intros x Hx.
    apply elem_of_cons in Hx as [->|Hx]; [reflexivity|].
    apply elem_of_cons in Hx as [->|Hx]; [reflexivity|].
    apply elem_of_nil in Hx. destruct Hx.
Defined.

(** The message of that error names the operator and neither length. *)
Lemma length_mismatch_message_without_lengths :
  (Operator_call (types := example_types) None ex_rotate uneven_inputs [] ex_state).1
  = inl (ValueError "All argument lists for Multiple Input Sets used with operator Rotate must have the same length") /\
  contains "Rotate" (length_mismatch_msg "Rotate") = true /\
  contains "2" (length_mismatch_msg "Rotate") = false /\
  contains "3" (length_mismatch_msg "Rotate") = false.
Proof. vm_compute. repeat split; reflexivity. Qed.

(** ** Node ids *)




(** ** Returned values *)

(** The fan-out call returns the flat list of the three output handles,
    each produced by its node. *)
Lemma call_outputs_repacked_witness :
  exists handles,
    Operator_call (types := example_types) None ex_rotate fan_inputs fan_kwargs ex_state
      = (inr (PList (map PData handles)), fan_run.2) /\
    Forall2 (fun a h => oi_outputs (lookup_instance fan_run.2 a) = [h] /\
                        dn_source (lookup_datanode fan_run.2 h) = a) fan_nodes handles.
Proof.
  destruct (@call_outputs_repacked example_types example_backend None ex_rotate fan_inputs fan_kwargs
              ex_state fan_nodes fan_run.2 fan_run_result) as (_ & _ & Hflat & _).
  apply Hflat.
  - vm_compute. apply le_S, le_n.
  - reflexivity.
  - vm_compute. repeat constructor.
Defined.

(** ** Failing calls *)

Lemma first_node_fails :
  OperatorInstance_init None [PData 0] ex_kept [("angle", PObject "dict" 0)] ex_state
  = (inl (TypeError "Expected inputs of type `DataNode` or convertible to constant nodes. Received input `angle` of type 'dict'."),
     (OperatorInstance_init None [PData 0] ex_kept [("angle", PObject "dict" 0)] ex_state).2).
Proof. vm_compute. reflexivity. Defined.

(** A preserving operator called on two input sets with an argument that
    cannot become a constant: the [__init__] of the first node raises the
    TypeError, the call fails with it and the pipeline has no sink. *)
Lemma failing_call_keeps_sinks_witness :
  exists s1,
    Operator_call None ex_kept [PList [PData 0; PData 1]] [("angle", PObject "dict" 0)]
                  ex_state
    = (inl (TypeError "Expected inputs of type `DataNode` or convertible to constant nodes. Received input `angle` of type 'dict'."),
       s1) /\
    pipeline s1 = pipeline ex_state.
Proof.
  destruct (@failing_call_keeps_sinks example_types example_backend None ex_kept
              [PList [PData 0; PData 1]] [("angle", PObject "dict" 0)] ex_state)
    as (_ & _ & _ & _ & Hstages & _).
  destruct (Hstages ltac:(vm_compute; reflexivity)) as [_ Hpost].
  destruct (Hpost [PList [PData 0; PData 1]] ex_state ltac:(vm_compute; reflexivity))
    as (_ & Hinit & _).
  eexists. apply (Hinit [PData 0] [[PData 1]]); [vm_compute; reflexivity|].
  exact first_node_fails.
Defined.

(** The same operator called on a fan-out list whose second element is a
    wrapper that cannot become a constant: the first node is built and
    its output registered as a sink, then the second node fails, and the
    failed call leaves that sink behind. *)
Lemma later_node_failure_leaves_sink :
  (Operator_call None ex_kept big_wrapper_inputs [] ex_state).1
  = inl (TypeError "Unsupported constant of type 'ScalarConstant'") /\
  pipeline ex_state = Some [] /\
  pipeline (Operator_call None ex_kept big_wrapper_inputs [] ex_state).2 = Some [3].
Proof. vm_compute. repeat split; reflexivity. Qed.

(** ** Operators without outputs *)

(** [generate_outputs] on the node of [ex_dump] with a pipeline current
    registers one sink, the new handle 3, named after the operator and
    the node id. *)
Lemma zero_output_nodes_witness :
  generate_outputs 1 dump_state_no_pipeline
    = (inl (PipelineRequired "Operators with side-effects "), dump_state_no_pipeline) /\
  exists s',
    generate_outputs 1 dump_state = (inr tt, s') /\
    pipeline s' = Some [3] /\
    dn_name <$> datanodes s' !! 3 = Some "Dump_id_1_sink" /\
    oi_outputs (lookup_instance s' 1) = [].
Proof.
  split.
  - destruct (@zero_output_nodes example_types example_backend 1 dump_state_no_pipeline
                (lookup_instance dump_state_no_pipeline 1)) as (Hnone & _).
    + vm_compute. reflexivity.
    + vm_compute. reflexivity.
    + apply Hnone; vm_compute; reflexivity.
  - destruct (@zero_output_nodes example_types example_backend 1 dump_state (lookup_instance dump_state 1))
      as (_ & Hsink & _).
    + vm_compute. reflexivity.
    + vm_compute. reflexivity.
    + destruct (Hsink ltac:(vm_compute; reflexivity) [] ltac:(vm_compute; reflexivity))
        as (s' & Hrun & Hp & Hd & _ & Ho).
      exists s'. split; [exact Hrun|]. split; [rewrite Hp; reflexivity|].
      split; [rewrite Hd; vm_compute; reflexivity | rewrite Ho; vm_compute; reflexivity].
Defined.

(** An operator whose schema computes no output and that does not
    preserve: the call returns the empty list, its node has no output
    and nothing is registered. *)
Lemma zero_outputs_without_preserve :
  op_preserve ex_quiet = false /\
  (Operator_call (types := example_types) None ex_quiet [PData 0] [] ex_state).1
    = inr (PList []) /\
  map (fun i => (op_name (oi_op i), op_preserve (oi_op i), oi_outputs i))
      (instances (Operator_call (types := example_types) None ex_quiet [PData 0] []
                                ex_state).2)
    = [("Reader", false, [0; 1; 2]); ("Dump", false, [])] /\
  pipeline (Operator_call (types := example_types) None ex_quiet [PData 0] [] ex_state).2
    = Some [].
Proof. vm_compute. repeat split; reflexivity. Qed.

(** ** Bound and call-time arguments *)




(** ** Deprecated construction arguments *)







(** ** Input preprocessing *)

Lemma literal_inputs_supported x :
  x ∈ literal_inputs -> is_input x = false -> constant_supported x = true.
Proof.
  intros Hx Hn.
  apply elem_of_cons in Hx as [->|Hx]; [discriminate Hn|].
  apply list_elem_of_singleton in Hx as ->. reflexivity.
Defined.

Lemma tuple_not_data_input : ~ data_input (PTuple [PData 0; PData 1]).
Proof.
  intros [[h Hh]|[[c Hc]|(l & Hl & _)]]; discriminate.
Defined.

(** A handle beside a list of literals: the list becomes one constant
    node, and no fan-out follows.  A handle beside a tuple of handles,
    which cannot become a constant: the TypeError for input 1. *)
Lemma preprocess_inputs_data_inputs_witness :
  (exists outs s',
     _preprocess_inputs literal_inputs "Rotate" "cpu" (Some ex_schema) ex_state
       = (inr outs, s') /\
     length outs = 2 /\
     outs !! 0 = Some (PData 0) /\
     length (instances s') = 2 /\
     _build_input_sets ex_rotate outs = inr [outs]) /\
  (exists s',
     _preprocess_inputs tuple_inputs "Rotate" "cpu" (Some ex_schema) ex_state
       = (inl (TypeError (conversion_failed_msg "Rotate" 1 (PTuple [PData 0; PData 1]))),
          s')) /\
  (exists s',
     Operator_call None ex_rotate tuple_inputs [] ex_state
       = (inl (TypeError (conversion_failed_msg "Rotate" 1 (PTuple [PData 0; PData 1]))),
          s')).
Proof.
  split; [|split].
  - destruct (@preprocess_inputs_data_inputs example_types example_backend "Rotate" "cpu"
                (Some ex_schema) literal_inputs ex_state) as (_ & Hok & _).
    destruct (Hok literal_inputs_supported)
      as (outs & s' & Hrun & Hlen & Hkeep & _ & Hcount & _ & Hsets).
    exists outs, s'. split; [exact Hrun|]. split; [exact Hlen|].
    split; [apply (Hkeep 0 (PData 0) eq_refl); left; eexists; reflexivity|].
    split; [exact Hcount|]. apply Hsets.
    intros l Hl Hd.
    apply elem_of_cons in Hl as [Hl|Hl]; [discriminate Hl|].
    apply list_elem_of_singleton in Hl. injection Hl as ->.
    apply is_input_data_input in Hd. discriminate Hd.
  - destruct (@preprocess_inputs_data_inputs example_types example_backend "Rotate" "cpu"
                (Some ex_schema) tuple_inputs ex_state) as (_ & _ & Hfail).
    destruct (Hfail 1 (PTuple [PData 0; PData 1]) eq_refl tuple_not_data_input eq_refl)
      as [Hpre _]; [|exact Hpre].
    intros j y Hj Hy Hn. destruct j as [|j]; [|lia].
    injection Hy as <-. exfalso. apply Hn. left. eexists. reflexivity.
  - destruct (@preprocess_inputs_data_inputs example_types example_backend "Rotate" "cpu"
                (Some ex_schema) tuple_inputs ex_state) as (_ & _ & Hfail).
    destruct (Hfail 1 (PTuple [PData 0; PData 1]) eq_refl tuple_not_data_input eq_refl)
      as [_ Hcall].
    + intros j y Hj Hy Hn. destruct j as [|j]; [|lia].
      injection Hy as <-. exfalso. apply Hn. left. eexists. reflexivity.
    + apply (Hcall None ex_rotate []); reflexivity.
Defined.

(** * Instances of the further properties *)

(** [Rotate] takes at most three inputs: a call with four fails at once. *)
Lemma input_count_checked_first_witness :
  Operator_call None ex_rotate [PData 0; PData 0; PData 0; PData 0] [] ex_state
  = (inl (ValueError "Operator Rotate expects from 0 to 3 inputs, but received 4."),
     ex_state).
Proof.
  destruct (@input_count_checked_first example_types example_backend None ex_rotate
              [PData 0; PData 0; PData 0; PData 0] [] ex_state) as [_ H].
  rewrite H; [reflexivity|]. right. reflexivity.
Defined.

Lemma pre_run_result :
  _preprocess_inputs pre_inputs "Rotate" "cpu" None ex_state
  = (inr [PData 0; PData 3; PList [PData 1; PData 2]], pre_run.2).
Proof. vm_compute. reflexivity. Defined.

(** Preprocessing [h0, 5, [h1, h2]] makes a constant node for the
    literal; preprocessing the result again, for another operator and
    device, returns it as it is. *)
Lemma preprocess_inputs_idempotent_witness :
  _preprocess_inputs [PData 0; PData 3; PList [PData 1; PData 2]]
                     "Resize" "gpu" (Some ex_schema) pre_run.2
  = (inr [PData 0; PData 3; PList [PData 1; PData 2]], pre_run.2).
Proof.
  destruct (@preprocess_inputs_idempotent example_types "Rotate" "cpu" None pre_inputs
              ex_state) as [_ H].
  destruct (H [PData 0; PData 3; PList [PData 1; PData 2]] pre_run.2 pre_run_result)
    as [_ Hagain].
  apply Hagain.
Defined.

(** A list of three handles beside a handle gives three input sets. *)
Lemma build_input_sets_transposes_witness :
  exists sets,
    _build_input_sets ex_rotate [PList [PData 0; PData 1; PData 2]; PData 0] = inr sets /\
    length sets = 3.
Proof.
  destruct (@build_input_sets_transposes ex_rotate
              [PList [PData 0; PData 1; PData 2]; PData 0]) as (_ & Hret & Hsets & _).
  destruct (Hret [PData 0; PData 1; PData 2]) as [sets Hrun].
  - apply list_elem_of_here.
  - apply Nat.lt_0_succ.
  - intros l' Hl'.
    apply elem_of_cons in Hl' as [Hl'|Hl']; [injection Hl' as ->; reflexivity|].
    apply elem_of_cons in Hl' as [Hl'|Hl']; [discriminate Hl'|].
    apply elem_of_nil in Hl'. destruct Hl'.
  - exists sets. split; [exact Hrun|].
    destruct (Hsets sets [PData 0; PData 1; PData 2] Hrun (list_elem_of_here _ _))
      as [Hlen _].
    exact Hlen.
Defined.

(** Two rows of three repack to three rows of two, and back. *)
Lemma repack_list_involutive_witness :
  exists t : list (list nat),
    _repack_list [[1; 2; 3]; [4; 5; 6]] = inr t /\ length t = 3 /\
    _repack_list t = inr [[1; 2; 3]; [4; 5; 6]].
Proof.
  destruct (@repack_list_involutive nat [[1; 2; 3]; [4; 5; 6]] 3)
    as (t & Hrun & Hlen & _ & _ & Hback).
  - discriminate.
  - apply Nat.lt_0_succ.
  - repeat constructor.
  - exists t. split; [exact Hrun|]. split; [exact Hlen | exact Hback].
Defined.

(** A longer second row loses what lies beyond the first row's length. *)
Lemma repack_list_ragged_witness :
  _repack_list [[1; 2]; [3; 4; 5]] = inr [[1; 3]; [2; 4]].
Proof.
  destruct (@repack_list_ragged nat [1; 2] [[3; 4; 5]]) as (_ & H & _).
  destruct H as [Hrun _].
  - repeat constructor.
  - rewrite Hrun. reflexivity.
Defined.

(** [size=[4, 4], seed=None, axes=()] adds two arguments to the spec. *)
Lemma add_spec_args_effect_witness :
  exists spec' added,
    _add_spec_args ex_schema (ex_spec "Rotate" false) add_kwargs = inr spec' /\
    spec_args spec' = (spec_args (ex_spec "Rotate" false) ++ added)%list /\ length added = 2.
Proof.
  destruct (@add_spec_args_effect example_types example_backend ex_schema add_kwargs
              (ex_spec "Rotate" false)) as [Hret Heff].
  destruct Hret as [spec' Hrun].
  - intros sp k v. reflexivity.
  - intros sp k t. reflexivity.
  - intros k v Hin Hv. exists 0. split; [reflexivity|].
    apply elem_of_cons in Hin as [Hin|Hin]; [injection Hin as -> ->; by exists (PList [PScalar (SInt 4); PScalar (SInt 4)])|].
    apply elem_of_cons in Hin as [Hin|Hin]; [injection Hin as -> ->; discriminate Hv|].
    apply elem_of_cons in Hin as [Hin|Hin]; [injection Hin as -> ->; by exists 0|].
    apply elem_of_nil in Hin. destruct Hin.
  - destruct (Heff spec' Hrun) as (added & Hargs & Hall & _).
    exists spec', added. split; [exact Hrun|]. split; [exact Hargs|].
    apply Forall2_length in Hall. rewrite <- Hall. reflexivity.
Defined.

(** [angle] bound at construction stays first and unchanged when the call
    adds [mask]. *)
Lemma bound_arguments_kept_witness :
  exists call_args extra,
    call_args_of ex_bound bound_kwargs = inr call_args /\
    call_args = (op_call_args ex_bound ++ extra)%list /\
    dict_get call_args "angle" = Some (PData 1).
Proof.
  destruct (@bound_arguments_kept example_types ex_bound bound_kwargs) as [Hret Hkept].
  destruct Hret as [call_args Hrun].
  - intros k v Hin.
    apply elem_of_cons in Hin as [Hin|Hin]; [injection Hin as -> ->; reflexivity|].
    apply elem_of_nil in Hin. destruct Hin.
  - destruct (Hkept call_args Hrun) as (extra & Heq & _ & Hkeep).
    exists call_args, extra. split; [exact Hrun|]. split; [exact Heq|].
    apply Hkeep. reflexivity.
Defined.

(** [generate_outputs] on the node of [ex_kept]: one output, the new
    handle 3, named after the node and registered as a sink. *)
Lemma generate_outputs_named_witness :
  exists s',
    generate_outputs 1 kept_state = (inr tt, s') /\
    pipeline s' = Some [3] /\
    datanodes s' !! 3 = Some (mkDataNode "__Rotate_1" "cpu" 1).
Proof.
  destruct (@generate_outputs_named example_types example_backend 1 kept_state
              (lookup_instance kept_state 1) "__Rotate_1") as (inst' & Hrun & _).
  - vm_compute. reflexivity.
  - vm_compute. reflexivity.
  - vm_compute. discriminate.
  - intros _. eexists. vm_compute. reflexivity.
  - intros spec name device. reflexivity.
  - eexists. split; [exact Hrun|]. split; vm_compute; reflexivity.
Defined.

(** [Rotate(angle=<handle 1>, fill=0)]: [angle] is bound, [fill] is
    stored after [device] and [preserve], and no warning is emitted. *)
Lemma operator_init_builds_descriptor_witness :
  Operator_init "Rotate" "Rotate" ex_schema "cpu" plain_kwargs ex_state
  = (inr (mkOperator "Rotate" ex_schema
            (mkOpSpec "Rotate" [("device", ArgValue (PStr "cpu"));
                                ("preserve", ArgValue (PScalar (SBool false)));
                                ("fill", ArgValue (PScalar (SInt 0)))] [] [] [])
            "cpu" [("angle", PData 1)] false), ex_state).
Proof.
  destruct (@operator_init_builds_descriptor example_types example_backend "Rotate" "Rotate"
              ex_schema "cpu" plain_kwargs ex_state) as (_ & _ & Hok & _).
  rewrite (Hok eq_refl eq_refl eq_refl
             ltac:(intros k Hk;
                   apply elem_of_cons in Hk as [->|Hk]; [reflexivity|];
                   apply elem_of_nil in Hk; destruct Hk)
             (mkOpSpec "Rotate" [("device", ArgValue (PStr "cpu"));
                                 ("preserve", ArgValue (PScalar (SBool false)));
                                 ("fill", ArgValue (PScalar (SInt 0)))] [] [] [])
             eq_refl).
  reflexivity.
Defined.

(** Composing an operator with a composition of two gives a flat
    composition of the three. *)
Lemma compose_flattens_witness :
  Compose composed = CompoundOp [PlainOp ex_rotate; PlainOp ex_kept; PlainOp ex_dump] /\
  flat (CompoundOp_init composed).
Proof.
  destruct (compose_flattens composed [] []) as (_ & Hflat & _).
  split; [reflexivity|]. apply Hflat. repeat constructor.
Defined.

(** A function that returns its two arrays as a pair, wrapped with
    identity conversions for two outputs: the pair comes back. *)
Lemma per_sample_wrapper_outputs_witness :
  function_wrapper_per_sample pair_function 2 (fun x => inr x) (fun x => inr x)
                              [PData 0; PData 1]
  = inr (PTuple [PData 0; PData 1]).
Proof.
  destruct (per_sample_wrapper_outputs pair_function 2 (fun x => inr x) (fun x => inr x)
              [PData 0; PData 1]) as [Hcheck Hwrap].
  apply Hwrap. exists [PData 0; PData 1], (PTuple [PData 0; PData 1]).
  split; [repeat constructor|]. split; [reflexivity|]. split.
  - apply Hcheck. right. exists [PData 0; PData 1]. split; reflexivity.
  - exists [PData 0; PData 1]. split; [reflexivity | repeat constructor].
Defined.
